(** * CaseFlow import pipeline: column mapping, validation, row states, chunked submission

    A shallow embedding of the import pipeline of CaseFlow
    ([utils/columnMapping.ts], [utils/validation.ts], [utils/csvParser.ts],
    [store/importStore.ts], [pages/ValidatePage.tsx],
    [import/import.service.ts]) and the properties its specification states
    about it.

    Conventions.
    - A JavaScript string is a [string]: a sequence of code units below 256
      (ASCII and Latin-1).
    - A JavaScript number that the code only uses as a count or an index is a
      [Z] (or a [nat] for a length), which is exact below 2^53; the
      similarity scores, which the code computes with a division, are
      IEEE 754 binary64 values ([float]), as in the source.
    - [undefined] and [null] are [None].
    - [Map] and [Set] objects and database tables are finite maps and sets. *)

From Stdlib Require Import ZArith String Ascii List Bool Lia Floats Uint63.
From stdpp Require Import gmap strings list pretty.

Set Warnings "-inexact-float,-clear-no-such-hyp".
Local Open Scope string_scope.
Local Open Scope list_scope.

(** ** The host language: strings, regular expressions, numbers *)

Module Js.

Definition code (c : ascii) : N := N_of_ascii c.

Definition between (lo hi : N) (c : ascii) : bool :=
  ((lo <=? code c) && (code c <=? hi))%N.

(** [\s], and what [trim] strips, among the code units below 256. *)
Definition isWhiteSpace (c : ascii) : bool :=
  between 9 13 c || (code c =? 32)%N || (code c =? 160)%N.

(** [\d] *)
Definition isDigit (c : ascii) : bool := between 48 57 c.

Definition isUpper (c : ascii) : bool :=
  between 65 90 c || (between 192 222 c && negb (code c =? 215)%N).

Definition isLower (c : ascii) : bool :=
  between 97 122 c || (between 224 254 c && negb (code c =? 247)%N).

Definition toLowerCaseUnit (c : ascii) : ascii :=
  if isUpper c then ascii_of_N (code c + 32) else c.

(** The three Latin-1 letters whose upper-case form lies outside Latin-1
    (223, 255 and 181) are left as they are: no comparison in the code below
    can tell, since it compares the result with ASCII words only. *)
Definition toUpperCaseUnit (c : ascii) : ascii :=
  if isLower c then ascii_of_N (code c - 32) else c.

Fixpoint mapUnits (f : ascii -> ascii) (s : string) : string :=
  match s with
  | EmptyString => EmptyString
  | String c s' => String (f c) (mapUnits f s')
  end.

Definition toLowerCase : string -> string := mapUnits toLowerCaseUnit.
Definition toUpperCase : string -> string := mapUnits toUpperCaseUnit.

(** [s.replace(/[cls]/g, '')] for a character class [cls]. *)
Fixpoint removeAll (cls : ascii -> bool) (s : string) : string :=
  match s with
  | EmptyString => EmptyString
  | String c s' => if cls c then removeAll cls s' else String c (removeAll cls s')
  end.

(** [s.includes(sub)] *)
Fixpoint includes (s sub : string) : bool :=
  String.prefix sub s ||
  match s with
  | EmptyString => false
  | String _ s' => includes s' sub
  end.

(** [s.replace(/\s+/g, ' ')]: every maximal run of white space becomes one
    space. [inRun] tells that the previous code unit was white space. *)
Fixpoint collapseFrom (inRun : bool) (s : string) : string :=
  match s with
  | EmptyString => EmptyString
  | String c s' =>
      if isWhiteSpace c
      then (if inRun then collapseFrom true s' else String " " (collapseFrom true s'))
      else String c (collapseFrom false s')
  end.

Definition collapseWhiteSpace : string -> string := collapseFrom false.

Fixpoint trimStart (s : string) : string :=
  match s with
  | EmptyString => EmptyString
  | String c s' => if isWhiteSpace c then trimStart s' else s
  end.

Fixpoint trimEnd (s : string) : string :=
  match s with
  | EmptyString => EmptyString
  | String c s' =>
      match trimEnd s' with
      | EmptyString => if isWhiteSpace c then EmptyString else String c EmptyString
      | t => String c t
      end
  end.

Definition trim (s : string) : string := trimEnd (trimStart s).

(** Regular expressions without groups or look-around, matched against a
    whole string ([^...$]) by derivatives. *)
Inductive regex : Type :=
| Never : regex
| Eps : regex
| Class : (ascii -> bool) -> regex
| Seq : regex -> regex -> regex
| Alt : regex -> regex -> regex
| Star : regex -> regex.

Fixpoint nullable (r : regex) : bool :=
  match r with
  | Never => false
  | Eps => true
  | Class _ => false
  | Seq r1 r2 => nullable r1 && nullable r2
  | Alt r1 r2 => nullable r1 || nullable r2
  | Star _ => true
  end.

Fixpoint deriv (c : ascii) (r : regex) : regex :=
  match r with
  | Never => Never
  | Eps => Never
  | Class p => if p c then Eps else Never
  | Seq r1 r2 =>
      if nullable r1 then Alt (Seq (deriv c r1) r2) (deriv c r2)
      else Seq (deriv c r1) r2
  | Alt r1 r2 => Alt (deriv c r1) (deriv c r2)
  | Star r1 => Seq (deriv c r1) (Star r1)
  end.

(** [/^r$/.test(s)] *)
Fixpoint test (r : regex) (s : string) : bool :=
  match s with
  | EmptyString => nullable r
  | String c s' => test (deriv c r) s'
  end.

Definition Chr (c : ascii) : regex := Class (Ascii.eqb c).
Definition Opt (r : regex) : regex := Alt Eps r.
Definition Plus (r : regex) : regex := Seq r (Star r).

(** [r{n}] *)
Fixpoint Times (n : nat) (r : regex) : regex :=
  match n with
  | O => Eps
  | S n' => Seq r (Times n' r)
  end.

(** [r{0,n}] *)
Fixpoint UpTo (n : nat) (r : regex) : regex :=
  match n with
  | O => Eps
  | S n' => Opt (Seq r (UpTo n' r))
  end.

(** [r{lo,hi}] *)
Definition Range (lo hi : nat) (r : regex) : regex :=
  Seq (Times lo r) (UpTo (hi - lo) r).

(** A length or an index as a number. *)
Definition Number (n : nat) : float := PrimFloat.of_uint63 (Uint63.of_Z (Z.of_nat n)).

(** What the code asks of the runtime's [Date]: [Date_getFullYear s] is
    [None] when [new Date(s).getTime()] is [NaN] and otherwise
    [new Date(s).getFullYear()]; [Date_now_getFullYear] is
    [new Date().getFullYear()]. *)
Record Runtime := {
  Date_getFullYear : string -> option Z;
  Date_now_getFullYear : Z
}.

(** [value || fallback] for a string or [undefined]. *)
Definition orElse (value : option string) (fallback : string) : string :=
  match value with
  | Some (String c s) => String c s
  | _ => fallback
  end.

(** [value || null] for a string or [undefined]. *)
Definition orNull (value : option string) : option string :=
  match value with
  | Some (String c s) => Some (String c s)
  | _ => None
  end.

(** [!!value] for a string or [undefined]. *)
Definition truthy (value : option string) : bool :=
  match value with
  | Some (String _ _) => true
  | _ => false
  end.

End Js.

(** ** utils/columnMapping.ts *)

Module ColumnMapping.

Inductive SchemaField : Set :=
| case_id | applicant_name | dob | email | phone | category | priority.

#[global] Instance SchemaField_eq_dec : EqDecision SchemaField.
Proof. solve_decision. Defined.

Definition SchemaField_code (f : SchemaField) : nat :=
  match f with
  | case_id => 0 | applicant_name => 1 | dob => 2 | email => 3
  | phone => 4 | category => 5 | priority => 6
  end.

Definition SchemaField_decode (n : nat) : option SchemaField :=
  match n with
  | 0 => Some case_id | 1 => Some applicant_name | 2 => Some dob | 3 => Some email
  | 4 => Some phone | 5 => Some category | 6 => Some priority | _ => None
  end.

#[global] Instance SchemaField_countable : Countable SchemaField.
Proof.
  apply (inj_countable SchemaField_code SchemaField_decode).
  intros []; reflexivity.
Defined.

(** The key of a field in [SCHEMA_FIELDS]. *)
Definition key (f : SchemaField) : string :=
  match f with
  | case_id => "case_id" | applicant_name => "applicant_name" | dob => "dob"
  | email => "email" | phone => "phone" | category => "category"
  | priority => "priority"
  end.

Record FieldSchema := { label : string; required : bool; aliases : list string }.

Definition SCHEMA_FIELDS (f : SchemaField) : FieldSchema :=
  match f with
  | case_id =>
      {| label := "Case ID"; required := true;
         aliases := ["caseid"; "case_number"; "case_no"; "id"; "case"; "reference"; "ref"] |}
  | applicant_name =>
      {| label := "Applicant Name"; required := true;
         aliases := ["name"; "applicant"; "full_name"; "fullname"; "person"; "client"; "customer"] |}
  | dob =>
      {| label := "Date of Birth"; required := true;
         aliases := ["date_of_birth"; "dateofbirth"; "birth_date"; "birthdate"; "birthday"; "born"] |}
  | email =>
      {| label := "Email"; required := false;
         aliases := ["email_address"; "emailaddress"; "e-mail"; "mail"] |}
  | phone =>
      {| label := "Phone"; required := false;
         aliases := ["phone_number"; "phonenumber"; "telephone"; "tel"; "mobile"; "cell"; "contact"] |}
  | category =>
      {| label := "Category"; required := true;
         aliases := ["type"; "case_type"; "casetype"; "cat"; "classification"] |}
  | priority =>
      {| label := "Priority"; required := false;
         aliases := ["prio"; "urgency"; "importance"; "level"] |}
  end.

(** [Object.keys(SCHEMA_FIELDS)], in insertion order. *)
Definition schemaKeys : list SchemaField :=
  [case_id; applicant_name; dob; email; phone; category; priority].

Record ColumnMapping := {
  csvColumn : string;
  schemaField : option SchemaField;
  confidence : float;
  isAutoMapped : bool
}.

(** One row of the distance matrix from the row above it: [diag :: up :: _]
    is the row above from column [j - 1] on, [left] is the entry just
    written at column [j - 1] of this row. *)
Fixpoint levenshteinRow (bc : ascii) (a : string) (above : list nat) (left : nat) : list nat :=
  match a, above with
  | String ac a', diag :: ((up :: _) as above') =>
      let v := if Ascii.eqb bc ac then diag
               else Nat.min (diag + 1) (Nat.min (left + 1) (up + 1)) in
      v :: levenshteinRow bc a' above' v
  | _, _ => []
  end.

(** Rows [i], [i + 1], ... of the matrix for the rest [b] of the second
    string, given row [i - 1]; the result is the last row. *)
Fixpoint levenshteinRows (a b : string) (i : nat) (above : list nat) : list nat :=
  match b with
  | EmptyString => above
  | String bc b' => levenshteinRows a b' (S i) (i :: levenshteinRow bc a above i)
  end.

Definition levenshteinDistance (a b : string) : nat :=
  List.last (levenshteinRows a b 1 (seq 0 (S (String.length a)))) 0.

(** [/[^a-z0-9]/] *)
Definition notAlphanumeric (c : ascii) : bool :=
  negb (Js.between 97 122 c || Js.isDigit c).

Definition normalize (s : string) : string :=
  Js.removeAll notAlphanumeric (Js.toLowerCase s).

Definition similarity (str1 str2 : string) : float :=
  let s1 := normalize str1 in
  let s2 := normalize str2 in
  if String.eqb s1 s2 then 1%float
  else
    let longer := if Nat.ltb (String.length s2) (String.length s1) then s1 else s2 in
    let shorter := if Nat.ltb (String.length s2) (String.length s1) then s2 else s1 in
    if Nat.eqb (String.length longer) 0 then 1%float
    else if Js.includes longer shorter || Js.includes shorter longer then 0.9%float
    else
      let distance := levenshteinDistance s1 s2 in
      (1 - Js.Number distance / Js.Number (Nat.max (String.length s1) (String.length s2)))%float.

(** The running best of [findBestMatch]: [bestMatch] and [bestConfidence]. *)
Definition Best : Type := option SchemaField * float.

Definition better (f : SchemaField) (score : float) (b : Best) : Best :=
  if PrimFloat.ltb (snd b) score then (Some f, score) else b.

Definition matchField (csvHeader : string) (b : Best) (f : SchemaField) : Best :=
  let b1 := better f (similarity csvHeader (key f)) b in
  let b2 := better f (similarity csvHeader (label (SCHEMA_FIELDS f))) b1 in
  foldl (fun acc al => better f (similarity csvHeader al) acc) b2 (aliases (SCHEMA_FIELDS f)).

Record Candidate := {
  c_csvColumn : string;
  c_field : option SchemaField;
  c_confidence : float
}.

Definition findBestMatch (csvHeader : string) (availableFields : list SchemaField)
  : option SchemaField * float :=
  let b := foldl (matchField csvHeader) (None, 0%float) availableFields in
  if PrimFloat.leb 0.6 (snd b) then b else (None, 0%float).

(** [array.findIndex(p)]; [None] stands for the result -1. *)
Fixpoint findIndex {A : Type} (p : A -> bool) (l : list A) : option nat :=
  match l with
  | [] => None
  | x :: l' => if p x then Some 0 else S <$> findIndex p l'
  end.

(** [(a, b) => b.confidence - a.confidence] *)
Definition compareFn (a b : Candidate) : float :=
  (c_confidence b - c_confidence a)%float.

(** [Array.prototype.sort] is stable: an element moves behind another one
    only when the comparison function returns a positive number. *)
Fixpoint insertSorted (x : Candidate) (l : list Candidate) : list Candidate :=
  match l with
  | [] => [x]
  | y :: l' => if PrimFloat.ltb 0 (compareFn x y) then y :: insertSorted x l' else x :: l
  end.

Definition sort (l : list Candidate) : list Candidate := foldr insertSorted [] l.

Definition sameColumn (candidate c : Candidate) : bool :=
  String.eqb (c_csvColumn c) (c_csvColumn candidate).

Definition cleared (candidate : Candidate) : Candidate :=
  {| c_csvColumn := c_csvColumn candidate; c_field := None; c_confidence := 0 |}.

(** The [else] branch of the assignment loop. *)
Definition release (usedFields : gset SchemaField) (candidates : list Candidate)
    (candidate : Candidate) (idx : nat) : option (list Candidate) :=
  cur ← candidates !! idx;
  match c_field cur with
  | Some g =>
      if bool_decide (g ∈ usedFields)
      then Some (<[idx := cleared candidate]> candidates)
      else Some candidates
  | None => Some candidates
  end.

(** One turn of the loop over [sortedCandidates]. The result is [None] when
    [findIndex] finds no entry, where the source would index the array at -1;
    this is shown below never to happen. *)
Definition assign (st : gset SchemaField * list Candidate) (candidate : Candidate)
  : option (gset SchemaField * list Candidate) :=
  let '(usedFields, candidates) := st in
  idx ← findIndex (sameColumn candidate) candidates;
  match c_field candidate with
  | Some f =>
      if bool_decide (f ∉ usedFields)
      then Some ({[f]} ∪ usedFields, <[idx := candidate]> candidates)
      else cs ← release usedFields candidates candidate idx; Some (usedFields, cs)
  | None => cs ← release usedFields candidates candidate idx; Some (usedFields, cs)
  end.

Fixpoint assignAll (st : gset SchemaField * list Candidate) (sorted : list Candidate)
  : option (gset SchemaField * list Candidate) :=
  match sorted with
  | [] => Some st
  | candidate :: rest => st' ← assign st candidate; assignAll st' rest
  end.

(** The first loop: [usedFields] is still empty, so every field is available
    to every header. *)
Definition propose (usedFields : gset SchemaField) (header : string) : Candidate :=
  let availableFields := List.filter (fun f => bool_decide (f ∉ usedFields)) schemaKeys in
  let '(field, confidence) := findBestMatch header availableFields in
  {| c_csvColumn := header; c_field := field; c_confidence := confidence |}.

Definition finalMapping (usedFields : gset SchemaField) (candidate : Candidate) : ColumnMapping :=
  match c_field candidate with
  | Some f =>
      if bool_decide (f ∈ usedFields)
      then {| csvColumn := c_csvColumn candidate; schemaField := Some f;
              confidence := c_confidence candidate; isAutoMapped := true |}
      else {| csvColumn := c_csvColumn candidate; schemaField := None;
              confidence := 0; isAutoMapped := false |}
  | None => {| csvColumn := c_csvColumn candidate; schemaField := None;
               confidence := 0; isAutoMapped := false |}
  end.

Definition autoMapColumns (csvHeaders : list string) : option (list ColumnMapping) :=
  let usedFields : gset SchemaField := ∅ in
  let candidates := map (propose usedFields) csvHeaders in
  let sortedCandidates := sort candidates in
  '(usedFields, candidates) ← assignAll (usedFields, candidates) sortedCandidates;
  Some (map (finalMapping usedFields) candidates).

Definition getUnmappedRequiredFields (mappings : list ColumnMapping) : list string :=
  let mappedFields : gset SchemaField := list_to_set (omap schemaField mappings) in
  map (fun field => label (SCHEMA_FIELDS field))
      (List.filter (fun field => required (SCHEMA_FIELDS field)
                                 && bool_decide (field ∉ mappedFields))
                   schemaKeys).



End ColumnMapping.

(** ** components/ColumnMapper: the manual change of a mapping *)

Module ColumnMapper.

(** [{ ...m, schemaField: null, confidence: 0, isAutoMapped: false }] *)
Definition unmapped (m : ColumnMapping.ColumnMapping) : ColumnMapping.ColumnMapping :=
  {| ColumnMapping.csvColumn := ColumnMapping.csvColumn m;
     ColumnMapping.schemaField := None;
     ColumnMapping.confidence := 0;
     ColumnMapping.isAutoMapped := false |}.

(** The updater that [handleFieldChange] passes to [setMappings].
    [schemaField] is the value of the select of the column: the key of a
    field, or the empty string, which is [None] here. *)
Definition handleFieldChange (csvColumn : string)
    (schemaField : option ColumnMapping.SchemaField)
    (prev : list ColumnMapping.ColumnMapping) : list ColumnMapping.ColumnMapping :=
  map (fun m =>
         if match schemaField with
            | Some f => bool_decide (ColumnMapping.schemaField m = Some f)
            | None => false
            end
            && negb (String.eqb (ColumnMapping.csvColumn m) csvColumn)
         then unmapped m
         else if String.eqb (ColumnMapping.csvColumn m) csvColumn
         then {| ColumnMapping.csvColumn := ColumnMapping.csvColumn m;
                 ColumnMapping.schemaField := schemaField;
                 ColumnMapping.confidence :=
                   match schemaField with None => 0%float | Some _ => 1%float end;
                 ColumnMapping.isAutoMapped := false |}
         else m)
      prev.

(** The state of the component: [useState<ColumnMapping[]>([])] and
    [useState<string[]>([])]. *)
Record State := {
  mappings : list ColumnMapping.ColumnMapping;
  unmappedRequired : list string
}.

(** The state of the first render. *)
Definition initial : State := {| mappings := []; unmappedRequired := [] |}.

(** What sets the state: the effect, which runs after the first render and
    whenever [csvHeaders] changes, a change of the select of a column, and
    the auto-map button. [csvHeaders] is the property of the component at
    the time. *)
Inductive Event :=
| Effect (csvHeaders : list string)
| FieldChange (csvColumn : string) (schemaField : option ColumnMapping.SchemaField)
| AutoMap (csvHeaders : list string).

(** The body of the effect, which is that of [handleAutoMap]; [None] when
    [autoMapColumns] throws. *)
Definition handleAutoMap (csvHeaders : list string) : option State :=
  autoMapped ← ColumnMapping.autoMapColumns csvHeaders;
  Some {| mappings := autoMapped;
          unmappedRequired := ColumnMapping.getUnmappedRequiredFields autoMapped |}.

(** The state after an event: [handleFieldChange] sets [unmappedRequired]
    from the updated mappings inside the updater of [setMappings]. *)
Definition step (st : State) (event : Event) : option State :=
  match event with
  | Effect csvHeaders => handleAutoMap csvHeaders
  | FieldChange csvColumn schemaField =>
      let updated := handleFieldChange csvColumn schemaField (mappings st) in
      Some {| mappings := updated;
              unmappedRequired := ColumnMapping.getUnmappedRequiredFields updated |}
  | AutoMap csvHeaders => handleAutoMap csvHeaders
  end.

Fixpoint run (st : State) (events : list Event) : option State :=
  match events with
  | [] => Some st
  | event :: rest => st' ← step st event; run st' rest
  end.

(** [unmappedRequired.length === 0] *)
Definition canProceed (st : State) : bool :=
  match unmappedRequired st with
  | [] => true
  | _ => false
  end.

End ColumnMapper.

(** ** The zod combinators that [caseSchema] uses

    zod 3: a string check ([min]) or a failed refinement adds an issue and
    leaves the value dirty; a value of the wrong type, or outside an enum,
    adds an issue and aborts, so that a refinement around it does not run. An
    object schema parses its keys in the order of its shape and collects the
    issues of all of them. *)

Module Zod.

Inductive Status : Set := valid | dirty | aborted.

Record Return := { status : Status; value : option string; issues : list string }.

Definition Schema : Type := option string -> Return.

Definition OK (v : option string) : Return :=
  {| status := valid; value := v; issues := [] |}.

Definition INVALID (message : string) : Return :=
  {| status := aborted; value := None; issues := [message] |}.

(** [z.string()] *)
Definition string_ : Schema := fun input =>
  match input with
  | Some s => OK (Some s)
  | None => INVALID "Required"
  end.

(** [z.string().min(n, message)] *)
Definition string_min (n : nat) (message : string) : Schema := fun input =>
  match input with
  | Some s =>
      if Nat.ltb (String.length s) n
      then {| status := dirty; value := Some s; issues := [message] |}
      else OK (Some s)
  | None => INVALID "Required"
  end.

(** [inner.optional()] *)
Definition optional (inner : Schema) : Schema := fun input =>
  match input with
  | None => OK None
  | Some _ => inner input
  end.

(** [inner.default(d)] *)
Definition default (d : string) (inner : Schema) : Schema := fun input =>
  match input with
  | None => inner (Some d)
  | Some _ => inner input
  end.

(** [inner.refine(check, message)] *)
Definition refine (check : option string -> bool) (message : string) (inner : Schema)
  : Schema := fun input =>
  let r := inner input in
  match status r with
  | aborted => r
  | _ =>
      if check (value r) then r
      else {| status := dirty; value := value r; issues := issues r ++ [message] |}
  end.

Definition quoted (v : string) : string := ("'" ++ v ++ "'")%string.

(** zod's message for a string outside the enum. *)
Definition invalidEnumValue (values : list string) (received : string) : string :=
  ("Invalid enum value. Expected " ++ String.concat " | " (map quoted values)
   ++ ", received " ++ quoted received)%string.

(** [z.enum(values)], or [z.enum(values, { errorMap: () => ({ message }) })]
    when [errorMap] is given. *)
Definition enum (values : list string) (errorMap : option string) : Schema := fun input =>
  match input with
  | None => INVALID (from_option id "Required" errorMap)
  | Some s =>
      if bool_decide (s ∈ values) then OK (Some s)
      else INVALID (from_option id (invalidEnumValue values s) errorMap)
  end.

Record Issue := { path : string; message : string }.

(** [z.object(shape).parse(data)]: [inr issues] stands for the [ZodError]
    thrown. *)
Definition parse (shape : list (string * Schema)) (data : gmap string string)
  : unit + list Issue :=
  let found :=
    concat (map (fun '(k, schema) =>
                   map (fun m => {| path := k; message := m |}) (issues (schema (data !! k))))
                shape) in
  match found with
  | [] => inl tt
  | _ => inr found
  end.

End Zod.

(** ** utils/validation.ts *)

Module Validation.

(** A [CaseRow]: an object whose properties are strings. *)
Abbreviation CaseRow := (gmap string string).

Record ValidationError := {
  field : string;
  message : string;
  value : option string;
  suggestion : option string
}.

(** [/^[^\s@]+@[^\s@]+\.[^\s@]+$/] *)
Definition emailPattern : Js.regex :=
  let other := Js.Class (fun c => negb (Js.isWhiteSpace c || Ascii.eqb c "@")) in
  Js.Seq (Js.Plus other)
    (Js.Seq (Js.Chr "@") (Js.Seq (Js.Plus other) (Js.Seq (Js.Chr ".") (Js.Plus other)))).

(** [/^\+?[1-9]\d{1,14}$/] *)
Definition phonePattern : Js.regex :=
  Js.Seq (Js.Opt (Js.Chr "+"))
    (Js.Seq (Js.Class (Js.between 49 57)) (Js.Range 1 14 (Js.Class Js.isDigit))).

(** [/^\d{10}$/] *)
Definition tenDigits : Js.regex := Js.Times 10 (Js.Class Js.isDigit).

(** [/[\s()-]/] *)
Definition phonePunctuation (c : ascii) : bool :=
  Js.isWhiteSpace c || Ascii.eqb c "(" || Ascii.eqb c ")" || Ascii.eqb c "-".

Section WithRuntime.

Variable rt : Js.Runtime.

Definition dobInRange (date : option string) : bool :=
  match date with
  | Some date =>
      match Js.Date_getFullYear rt date with
      | None => false
      | Some year => (1900 <=? year)%Z && (year <=? Js.Date_now_getFullYear rt)%Z
      end
  | None => false
  end.

Definition emailOk (email : option string) : bool :=
  match email with
  | Some (String c s) => Js.test emailPattern (String c s)
  | _ => true
  end.

Definition phoneOk (phone : option string) : bool :=
  match phone with
  | Some (String c s) => Js.test phonePattern (Js.removeAll phonePunctuation (String c s))
  | _ => true
  end.

Definition caseSchema : list (string * Zod.Schema) :=
  [ ("case_id", Zod.string_min 1 "Case ID is required");
    ("applicant_name", Zod.string_min 1 "Applicant name is required");
    ("dob", Zod.refine dobInRange "Invalid date (must be between 1900 and today)"
              (Zod.string_min 1 "Date of birth is required"));
    ("email", Zod.refine emailOk "Invalid email format" (Zod.optional Zod.string_));
    ("phone", Zod.refine phoneOk "Invalid phone format (use E.164)" (Zod.optional Zod.string_));
    ("category", Zod.enum ["TAX"; "LICENSE"; "PERMIT"]
                   (Some "Category must be TAX, LICENSE, or PERMIT"));
    ("priority", Zod.default "LOW" (Zod.optional (Zod.enum ["LOW"; "MEDIUM"; "HIGH"] None))) ].

Definition getSuggestion (field : string) (value : option string) : option string :=
  match value with
  | None => None
  | Some value =>
      if String.eqb field "applicant_name" then
        if Js.includes value "  " then Some (Js.trim (Js.collapseWhiteSpace value)) else None
      else if String.eqb field "phone" then
        let cleaned := Js.removeAll phonePunctuation value in
        if Js.test tenDigits cleaned then Some ("+91" ++ cleaned)%string else None
      else if String.eqb field "category" then
        let upper := Js.toUpperCase value in
        if bool_decide (upper ∈ ["TAX"; "LICENSE"; "PERMIT"]) then Some upper else None
      else if String.eqb field "priority" then
        let upperPriority := Js.toUpperCase value in
        if bool_decide (upperPriority ∈ ["LOW"; "MEDIUM"; "HIGH"]) then Some upperPriority
        else if negb (Js.truthy (Some value)) then Some "LOW" else None
      else None
  end.

Definition validateRow (row : CaseRow) : list ValidationError :=
  match Zod.parse caseSchema row with
  | inl _ => []
  | inr issues =>
      map (fun issue =>
             let field := Zod.path issue in
             let value := row !! field in
             {| field := field; message := Zod.message issue;
                value := value; suggestion := getSuggestion field value |})
          issues
  end.

Definition duplicateError (caseId : string) : ValidationError :=
  {| field := "case_id"; message := "Duplicate case ID in file";
     value := Some caseId; suggestion := None |}.

(** [row._id || ''] *)
Definition rowId (row : CaseRow) : string := Js.orElse (row !! "_id") "".

(** The errors that the loop of [validateAllRows] collects for one row, and
    [seenCaseIds] after it. *)
Definition checkRow (seenCaseIds : gset string) (row : CaseRow)
  : list ValidationError * gset string :=
  let errors := validateRow row in
  match row !! "case_id" with
  | Some (String c s) =>
      let caseId := String c s in
      (if bool_decide (caseId ∈ seenCaseIds) then errors ++ [duplicateError caseId] else errors,
       {[caseId]} ∪ seenCaseIds)
  | _ => (errors, seenCaseIds)
  end.

Definition visit (st : gmap string (list ValidationError) * gset string) (row : CaseRow)
  : gmap string (list ValidationError) * gset string :=
  let '(errorsMap, seenCaseIds) := st in
  let '(errors, seenCaseIds') := checkRow seenCaseIds row in
  (match errors with
   | [] => errorsMap
   | _ => <[rowId row := errors]> errorsMap
   end, seenCaseIds').

Definition validateAllRows (rows : list CaseRow) : gmap string (list ValidationError) :=
  fst (foldl visit (∅, ∅) rows).

End WithRuntime.

(** [fixHelpers.trimWhitespace] *)
Definition trimWhitespace (value : string) : string :=
  Js.trim (Js.collapseWhiteSpace value).

(** [/^\d{11,}$/] *)
Definition elevenDigitsOrMore : Js.regex :=
  Js.Seq (Js.Times 11 (Js.Class Js.isDigit)) (Js.Star (Js.Class Js.isDigit)).

(** [fixHelpers.normalizePhone] *)
Definition normalizePhone (value : string) : string :=
  let cleaned := Js.removeAll phonePunctuation value in
  if Js.test tenDigits cleaned then ("+91" ++ cleaned)%string
  else if Js.test elevenDigitsOrMore cleaned then ("+" ++ cleaned)%string
  else value.

End Validation.

(** ** utils/csvParser.ts: the rows that [parseCSV] builds *)

Module CsvParser.

Import Validation.

(** The callback of [data.map] in [parseCSV]: [row] is the record that the
    CSV reader yields for a line, its values by header. *)
Definition ingest (index : nat) (row : gmap string string) : CaseRow :=
  <["_id" := ("row-" ++ pretty index)%string]>
  (<["case_id" := Js.orElse (row !! "case_id") (Js.orElse (row !! "caseid") "")]>
  (<["applicant_name" :=
       Js.orElse (row !! "applicant_name")
         (Js.orElse (row !! "applicantname") (Js.orElse (row !! "name") ""))]>
  (<["dob" :=
       Js.orElse (row !! "dob")
         (Js.orElse (row !! "date_of_birth") (Js.orElse (row !! "dateofbirth") ""))]>
  (<["email" := Js.orElse (row !! "email") ""]>
  (<["phone" :=
       Js.orElse (row !! "phone")
         (Js.orElse (row !! "telephone") (Js.orElse (row !! "mobile") ""))]>
  (<["category" := Js.toUpperCase (Js.orElse (row !! "category") "")]>
  (<["priority" := Js.toUpperCase (Js.orElse (row !! "priority") "LOW")]> ∅))))))).

(** [data.map((row, index) => ...)], from [index] on. *)
Fixpoint ingestFrom (index : nat) (data : list (gmap string string)) : list CaseRow :=
  match data with
  | [] => []
  | row :: rest => ingest index row :: ingestFrom (S index) rest
  end.

Definition parseCSV (data : list (gmap string string)) : list CaseRow :=
  ingestFrom 0 data.

End CsvParser.

(** ** store/importStore.ts *)

Module ImportStore.

Import Validation.

Inductive RowStatus : Set :=
| pending | valid | invalid | submitting | success | failed.

(** The part of the store's state that validation reads and writes. *)
Record ImportState := {
  mappedData : list CaseRow;
  validationErrors : gmap string (list ValidationError);
  rowStatuses : gmap string RowStatus
}.

(** [errors.has(rowId) && errors.get(rowId)!.length > 0] *)
Definition hasErrors (errors : gmap string (list ValidationError)) (rowId : string) : bool :=
  match errors !! rowId with
  | Some (_ :: _) => true
  | _ => false
  end.

Definition statusFor (errors : gmap string (list ValidationError)) (rowId : string) : RowStatus :=
  if hasErrors errors rowId then invalid else valid.

Definition setValidationErrors (errors : gmap string (list ValidationError))
    (st : ImportState) : ImportState :=
  let rowStatuses :=
    foldl (fun m row => <[rowId row := statusFor errors (rowId row)]> m)
          (rowStatuses st) (mappedData st) in
  {| mappedData := mappedData st; validationErrors := errors; rowStatuses := rowStatuses |}.

Definition updateRowStatus (rowId : string) (status : RowStatus) (st : ImportState)
  : ImportState :=
  {| mappedData := mappedData st; validationErrors := validationErrors st;
     rowStatuses := <[rowId := status]> (rowStatuses st) |}.

(** The validation effect of [ValidatePage]: validate the current dataset
    and store the result. *)
Definition revalidate (rt : Js.Runtime) (st : ImportState) : ImportState :=
  setValidationErrors (validateAllRows rt (mappedData st)) st.

Definition updateCell (rowId field value : string) (st : ImportState) : ImportState :=
  {| mappedData :=
       map (fun row => if bool_decide (row !! "_id" = Some rowId)
                       then <[field := value]> row else row)
           (mappedData st);
     validationErrors := validationErrors st;
     rowStatuses := rowStatuses st |}.

Definition applyFix (rowIds : list string) (field : string) (fixFn : string -> string)
    (st : ImportState) : ImportState :=
  {| mappedData :=
       map (fun row =>
              if bool_decide (Validation.rowId row ∈ rowIds)
              then match row !! field with
                   | Some currentValue => <[field := fixFn currentValue]> row
                   | None => row
                   end
              else row)
           (mappedData st);
     validationErrors := validationErrors st;
     rowStatuses := rowStatuses st |}.

End ImportStore.

(** ** import/import.service.ts *)

Module ImportService.

Local Open Scope Z_scope.

Inductive ImportStatus : Set :=
| PENDING | PROCESSING | PAUSED | COMPLETED | FAILED.

#[global] Instance ImportStatus_eq_dec : EqDecision ImportStatus.
Proof. solve_decision. Defined.

(** Modelled from the spec: the values of the generated [Category] and
    [Priority] enums, whose schema file is not among the sources; the
    category set is the spec's, the priority list is the frontend's. *)
Definition Category_values : list string := ["TAX"; "LICENSE"; "PERMIT"].
Definition Priority_values : list string := ["LOW"; "MEDIUM"; "HIGH"].

Record RowError := { index : Z; caseId : string; error : string }.

Record BatchResult := { success : Z; failed : Z; errors : list RowError }.

Record ImportJob := {
  fileName : string;
  status : ImportStatus;
  totalRows : Z;
  processedRows : Z;
  successCount : Z;
  failedCount : Z;
  lastProcessedIndex : Z;
  errorData : option (list RowError)
}.

Record ImportRowDto := {
  r_caseId : string;
  r_applicantName : string;
  r_dob : string;
  r_email : option string;
  r_phone : option string;
  r_category : string;
  r_priority : option string
}.

Record BatchImportDto := { rows : list ImportRowDto; startIndex : Z }.

Record CaseData := {
  d_caseId : string;
  d_applicantName : string;
  d_dob : string;
  d_email : option string;
  d_phone : option string;
  d_category : string;
  d_priority : string;
  d_importJobId : string;
  d_userId : string
}.

Record AuditLog := {
  a_action : string;
  a_source : string;
  a_caseId : string;
  a_userId : string
}.

(** The tables the service uses. The case table is keyed by its unique
    [caseId] column, and an audit log entry names its case by that key. *)
Record Prisma := {
  importJob : gmap string ImportJob;
  case : gmap string CaseData;
  auditLog : list AuditLog
}.

Inductive Exception : Set :=
| NotFoundException (message : string)
| BadRequestException (message : string).

(** [prisma.case.create]: [caseId] is a unique column (the service looks
    cases up by it with [findUnique]), and the store refuses a second record
    with the same [caseId], with the message of its unique-constraint
    error. *)
Definition case_create (db : Prisma) (data : CaseData) : string + Prisma :=
  match case db !! d_caseId data with
  | Some _ => inl "Unique constraint failed on the fields: (`caseId`)"
  | None =>
      inr {| importJob := importJob db;
             case := <[d_caseId data := data]> (case db);
             auditLog := auditLog db |}
  end.

Definition auditLog_create (db : Prisma) (entry : AuditLog) : Prisma :=
  {| importJob := importJob db; case := case db; auditLog := auditLog db ++ [entry] |}.

(** [prisma.importJob.update({ where: { id }, data })] *)
Definition importJob_update (id : string) (data : ImportJob -> ImportJob) (db : Prisma)
  : Prisma :=
  {| importJob := alter data id (importJob db); case := case db; auditLog := auditLog db |}.

Definition with_status (s : ImportStatus) (job : ImportJob) : ImportJob :=
  {| fileName := fileName job; status := s; totalRows := totalRows job;
     processedRows := processedRows job; successCount := successCount job;
     failedCount := failedCount job; lastProcessedIndex := lastProcessedIndex job;
     errorData := errorData job |}.

Definition fail (result : BatchResult) (e : RowError) : BatchResult :=
  {| success := success result; failed := failed result + 1;
     errors := errors result ++ [e] |}.

Definition succeed (result : BatchResult) : BatchResult :=
  {| success := success result + 1; failed := failed result; errors := errors result |}.

Section WithRuntime.

Variable rt : Js.Runtime.

(** The body of the [try] block of the first loop: [inl message] stands
    for [throw new Error(message)]. *)
Definition prepare (jobId userId : string) (row : ImportRowDto) : string + CaseData :=
  if negb (Js.truthy (Some (r_caseId row))) || negb (Js.truthy (Some (r_applicantName row)))
     || negb (Js.truthy (Some (r_dob row))) || negb (Js.truthy (Some (r_category row)))
  then inl "Missing required fields"
  else
    match Js.Date_getFullYear rt (r_dob row) with
    | None => inl "Invalid date format for dob"
    | Some _ =>
        if negb (bool_decide (r_category row ∈ Category_values))
        then inl ("Invalid category: " ++ r_category row)%string
        else
          let priority :=
            match r_priority row with
            | Some p =>
                if Js.truthy (Some p) && bool_decide (p ∈ Priority_values) then p else "LOW"
            | None => "LOW"
            end in
          inr {| d_caseId := r_caseId row; d_applicantName := r_applicantName row;
                 d_dob := r_dob row; d_email := Js.orNull (r_email row);
                 d_phone := Js.orNull (r_phone row);
                 d_category := r_category row; d_priority := priority;
                 d_importJobId := jobId; d_userId := userId |}
    end.

(** The first loop, from row [i] on. *)
Fixpoint prepareAll (jobId userId : string) (startIndex i : Z) (todo : list ImportRowDto)
    (result : BatchResult) (caseCreations : list CaseData) : BatchResult * list CaseData :=
  match todo with
  | [] => (result, caseCreations)
  | row :: rest =>
      let rowIndex := startIndex + i in
      match prepare jobId userId row with
      | inr caseData =>
          prepareAll jobId userId startIndex (i + 1) rest result (caseCreations ++ [caseData])
      | inl message =>
          prepareAll jobId userId startIndex (i + 1) rest
            (fail result {| index := rowIndex;
                            caseId := Js.orElse (Some (r_caseId row)) "unknown";
                            error := message |})
            caseCreations
      end
  end.

(** The second loop, from element [k] of [caseCreations] on. Every element
    of [caseCreations] is an object of its own, so that
    [caseCreations.indexOf(caseData)] is the position [k] of the element the
    loop is at. Nothing escapes the inner [try], so the outer [catch] is not
    modelled. *)
Fixpoint createAll (job : ImportJob) (userId : string) (startIndex k : Z)
    (todo : list CaseData) (db : Prisma) (result : BatchResult) : Prisma * BatchResult :=
  match todo with
  | [] => (db, result)
  | caseData :: rest =>
      match case_create db caseData with
      | inr db1 =>
          let db2 := auditLog_create db1
                       {| a_action := "IMPORT"; a_source := fileName job;
                          a_caseId := d_caseId caseData; a_userId := userId |} in
          createAll job userId startIndex (k + 1) rest db2 (succeed result)
      | inl message =>
          createAll job userId startIndex (k + 1) rest db
            (fail result {| index := startIndex + k;
                            caseId := d_caseId caseData;
                            error := if Js.includes message "Unique constraint"
                                     then "Duplicate case ID" else message |})
      end
  end.

(** The final [importJob.update], computed from the [job] read on entry. *)
Definition progress (job : ImportJob) (dto : BatchImportDto) (result : BatchResult)
    (current : ImportJob) : ImportJob :=
  let newProcessedRows := processedRows job + Z.of_nat (length (rows dto)) in
  let newSuccessCount := successCount job + success result in
  let newFailedCount := failedCount job + failed result in
  let isComplete := (totalRows job <=? newProcessedRows) in
  {| fileName := fileName current;
     status := if isComplete then COMPLETED else PROCESSING;
     totalRows := totalRows current;
     processedRows := newProcessedRows;
     successCount := newSuccessCount;
     failedCount := newFailedCount;
     lastProcessedIndex := startIndex dto + Z.of_nat (length (rows dto)) - 1;
     errorData := match errors result with
                  | [] => errorData job
                  | _ => Some (from_option id [] (errorData job) ++ errors result)
                  end |}.

Definition processBatch (db : Prisma) (jobId : string) (dto : BatchImportDto)
    (userId : string) : Prisma * (Exception + BatchResult) :=
  match importJob db !! jobId with
  | None => (db, inl (NotFoundException "Import job not found"))
  | Some job =>
      if bool_decide (status job = COMPLETED) || bool_decide (status job = FAILED)
      then (db, inl (BadRequestException "Import job already completed or failed"))
      else
        let db :=
          if bool_decide (status job = PENDING)
          then importJob_update jobId (with_status PROCESSING) db
          else db in
        let result := {| success := 0; failed := 0; errors := [] |} in
        let '(result, caseCreations) :=
          prepareAll jobId userId (startIndex dto) 0 (rows dto) result [] in
        let '(db, result) :=
          createAll job userId (startIndex dto) 0 caseCreations db result in
        let db := importJob_update jobId (progress job dto result) db in
        (db, inr result)
  end.

End WithRuntime.

Record Paused := { p_message : string; p_lastProcessedIndex : Z }.

Definition pauseImport (db : Prisma) (jobId : string) : Prisma * (Exception + Paused) :=
  match importJob db !! jobId with
  | None => (db, inl (NotFoundException "Import job not found"))
  | Some job =>
      (importJob_update jobId (with_status PAUSED) db,
       inr {| p_message := "Import paused";
              p_lastProcessedIndex := lastProcessedIndex job |})
  end.

Record Resumed := {
  s_message : string;
  s_lastProcessedIndex : Z;
  s_remainingRows : Z
}.

Definition resumeImport (db : Prisma) (jobId : string) : Prisma * (Exception + Resumed) :=
  match importJob db !! jobId with
  | None => (db, inl (NotFoundException "Import job not found"))
  | Some job =>
      if negb (bool_decide (status job = PAUSED))
      then (db, inl (BadRequestException "Import is not paused"))
      else
        (importJob_update jobId (with_status PROCESSING) db,
         inr {| s_message := "Import resumed";
                s_lastProcessedIndex := lastProcessedIndex job;
                s_remainingRows := totalRows job - processedRows job |})
  end.

Record ErrorReport := {
  e_id : string;
  e_fileName : string;
  e_totalRows : Z;
  e_successCount : Z;
  e_failedCount : Z;
  e_errors : list RowError
}.

Definition getErrorReport (db : Prisma) (jobId : string) : Exception + ErrorReport :=
  match importJob db !! jobId with
  | None => inl (NotFoundException "Import job not found")
  | Some job =>
      inr {| e_id := jobId; e_fileName := fileName job; e_totalRows := totalRows job;
             e_successCount := successCount job; e_failedCount := failedCount job;
             e_errors := from_option id [] (errorData job) |}
  end.

End ImportService.

(** ** store/importStore.ts: the request of [submitBatch] *)

Module Submit.

Import Validation ImportService.

(** The element of [rows] that [submitBatch] posts for a row. A property
    that the row lacks reaches the service as [undefined], which
    [processBatch] treats as it treats the empty string (both fail its check
    of the required fields, and both are reported as [unknown]); it is the
    empty string here. *)
Definition rowDto (row : CaseRow) : ImportRowDto :=
  {| r_caseId := Js.orElse (row !! "case_id") "";
     r_applicantName := Js.orElse (row !! "applicant_name") "";
     r_dob := Js.orElse (row !! "dob") "";
     r_email := Js.orNull (row !! "email");
     r_phone := Js.orNull (row !! "phone");
     r_category := Js.orElse (row !! "category") "";
     r_priority := Some (Js.orElse (row !! "priority") "LOW") |}.

(** The part of the store's state that [submitBatch] reads and writes, but
    for the [progress] percentage. *)
Record SubmitState := {
  jobId : option string;
  rowStatuses : gmap string ImportStore.RowStatus;
  successCount : Z;
  failedCount : Z
}.

(** [rows.forEach((row, i) => ...)], from row [i] on: a row is [failed]
    when [response.data.errors] has an error whose index is
    [startIndex + i], and [success] otherwise. *)
Fixpoint markRows (errors : list RowError) (startIndex i : Z) (rows : list CaseRow)
    (rowStatuses : gmap string ImportStore.RowStatus) : gmap string ImportStore.RowStatus :=
  match rows with
  | [] => rowStatuses
  | row :: rest =>
      let error := List.find (fun e => (index e =? startIndex + i)%Z) errors in
      markRows errors startIndex (i + 1) rest
        (<[rowId row := match error with
                        | Some _ => ImportStore.failed
                        | None => ImportStore.success
                        end]> rowStatuses)
  end.

Inductive Thrown : Set :=
| NoImportJob
| Rejected (e : Exception).

(** [submitBatch], with the service at the other end of [api.post]:
    [userId] is the user of the session, [db] the store of the service. A
    response with an error status makes [api.post] throw, and the state of
    the page stays as it is. *)
Definition submitBatch (rt : Js.Runtime) (userId : string) (rows : list CaseRow)
    (startIndex : Z) (db : Prisma) (st : SubmitState)
  : Prisma * SubmitState * (Thrown + Z * Z) :=
  match jobId st with
  | Some (String c s) =>
      let dto := {| ImportService.rows := map rowDto rows;
                    ImportService.startIndex := startIndex |} in
      match processBatch rt db (String c s) dto userId with
      | (db', inl e) => (db', st, inl (Rejected e))
      | (db', inr data) =>
          (db',
           {| jobId := jobId st;
              rowStatuses := markRows (errors data) startIndex 0 rows (rowStatuses st);
              successCount := (successCount st + success data)%Z;
              failedCount := (failedCount st + failed data)%Z |},
           inr (success data, failed data))
      end
  | _ => (db, st, inl NoImportJob)
  end.

End Submit.

(** ** pages/ValidatePage.tsx: the submission loop of [handleSubmit] *)

Module ValidatePage.

Import ImportService.

(** [for (let i = 0; i < rows.length; i += batchSize)], from [i] on, for at
    most [fuel] turns: the start index and the slice of every turn. *)
Fixpoint batchesFrom {A : Type} (fuel batchSize i : nat) (validRows : list A)
  : list (nat * list A) :=
  match fuel with
  | O => []
  | S fuel' =>
      if Nat.ltb i (length validRows)
      then (i, take batchSize (drop i validRows))
             :: batchesFrom fuel' batchSize (i + batchSize) validRows
      else []
  end.

(** A loop that advances by [batchSize >= 1] ends within [length validRows]
    turns, as is shown below. *)
Definition batches {A : Type} (batchSize : nat) (validRows : list A) : list (nat * list A) :=
  batchesFrom (length validRows) batchSize 0 validRows.

Definition batchSize : nat := 100.

(** The chunks reach the service one after the other; an exception ends the
    loop. *)
Fixpoint submitAll (rt : Js.Runtime) (jobId userId : string)
    (chunks : list (nat * list ImportRowDto)) (db : Prisma) : Prisma * option Exception :=
  match chunks with
  | [] => (db, None)
  | (i, batch) :: rest =>
      match processBatch rt db jobId {| rows := batch; startIndex := Z.of_nat i |} userId with
      | (db', inr _) => submitAll rt jobId userId rest db'
      | (db', inl e) => (db', Some e)
      end
  end.

(** [handleApplyFix]: the fix goes to every row of the dataset. *)
Definition handleApplyFix (fixFn : string -> string) (field : string)
    (st : ImportStore.ImportState) : ImportStore.ImportState :=
  let rowIds := map Validation.rowId (ImportStore.mappedData st) in
  ImportStore.applyFix rowIds field fixFn st.

(** The rows that [handleSubmit] sends: those whose status is not
    [invalid]. *)
Definition validRows (st : ImportStore.ImportState) : list Validation.CaseRow :=
  List.filter (fun row =>
                 match ImportStore.rowStatuses st !! Validation.rowId row with
                 | Some ImportStore.invalid => false
                 | _ => true
                 end)
              (ImportStore.mappedData st).

(** [fieldCounts.set(field, (fieldCounts.get(field) || 0) + 1)]; a [Map]
    keeps its keys in the order of their first insertion. *)
Fixpoint increment (fieldCounts : list (string * nat)) (field : string)
  : list (string * nat) :=
  match fieldCounts with
  | [] => [(field, 1%nat)]
  | (f, current) :: rest =>
      if String.eqb f field then (f, S current) :: rest
      else (f, current) :: increment rest field
  end.

(** The stable sort with [(a, b) => b.count - a.count]: an entry moves
    behind another one only when that one has the greater count. *)
Fixpoint insertByCount (x : string * nat) (l : list (string * nat)) : list (string * nat) :=
  match l with
  | [] => [x]
  | y :: l' => if Nat.ltb (snd x) (snd y) then y :: insertByCount x l' else x :: l
  end.

Definition sortByCount (l : list (string * nat)) : list (string * nat) :=
  foldr insertByCount [] l.

(** [errors] are the values of the [Map], in its order; the result pairs a
    field with its count. *)
Definition getTopErrors (errors : list (list Validation.ValidationError))
  : list (string * nat) :=
  let fieldCounts :=
    foldl (fun fieldCounts rowErrors =>
             foldl (fun fieldCounts error => increment fieldCounts (Validation.field error))
                   fieldCounts rowErrors)
          [] errors in
  take 5 (sortByCount fieldCounts).

End ValidatePage.

(** * Inputs for the examples, and the vocabulary of the statements *)

(** ** Inputs for the examples *)

Module Examples.

(** [\d{4}-\d{2}-\d{2}] *)
Definition isoDate : Js.regex :=
  let d := Js.Class Js.isDigit in
  Js.Seq (Js.Times 4 d)
    (Js.Seq (Js.Chr "-") (Js.Seq (Js.Times 2 d) (Js.Seq (Js.Chr "-") (Js.Times 2 d)))).

Fixpoint decimal (acc : Z) (n : nat) (s : string) : Z :=
  match n, s with
  | S n', String c s' => decimal (10 * acc + Z.of_N (Js.code c - 48)) n' s'
  | _, _ => acc
  end.

(** A stand-in for the host on the dates that the examples use: its [Date]
    reads a date written as year, month and day and nothing else, and its
    clock is in the year 2026. *)
Definition runtime : Js.Runtime :=
  {| Js.Date_getFullYear := fun s => if Js.test isoDate s then Some (decimal 0 4 s) else None;
     Js.Date_now_getFullYear := 2026 |}.

(** The row of the first end-to-end scenario. *)
Definition johnDoe : gmap string string :=
  list_to_map
    [ ("case_id", "C-1001"); ("applicant_name", "John  Doe"); ("dob", "1990-01-01");
      ("email", "john@example.com"); ("phone", "9876543210"); ("category", "TAX");
      ("priority", "") ].

(** The row of the second end-to-end scenario; [email], [phone] and
    [priority] are absent. *)
Definition fourErrors : gmap string string :=
  list_to_map
    [ ("case_id", ""); ("applicant_name", ""); ("dob", "2099-01-01");
      ("category", "INVALID") ].

Import ImportService.

Definition job (s : ImportStatus) (total processed : Z) : ImportJob :=
  {| fileName := "cases.csv"; status := s; totalRows := total;
     processedRows := processed; successCount := processed; failedCount := 0;
     lastProcessedIndex := processed - 1; errorData := None |}.

Definition row (caseId applicantName : string) : ImportRowDto :=
  {| r_caseId := caseId; r_applicantName := applicantName; r_dob := "1990-01-01";
     r_email := None; r_phone := None; r_category := "TAX"; r_priority := None |}.

Definition stored (caseId : string) : CaseData :=
  {| d_caseId := caseId; d_applicantName := "Ann Lee"; d_dob := "1990-01-01";
     d_email := None; d_phone := None; d_category := "TAX"; d_priority := "LOW";
     d_importJobId := "job-0"; d_userId := "user-1" |}.

(** A store with one job and one case, [C-2], left by an earlier import. *)
Definition store (j : ImportJob) : Prisma :=
  {| importJob := {[ "job-1" := j ]}; case := {[ "C-2" := stored "C-2" ]}; auditLog := [] |}.

(** A chunk whose first row lacks the applicant name and whose second row
    repeats the stored case [C-2]. *)
Definition mixedChunk : BatchImportDto :=
  {| rows := [row "C-1" ""; row "C-2" "Bob Ray"; row "C-3" "Eve Poe"]; startIndex := 0 |}.

Definition rows250 : list ImportRowDto := replicate 250 (row "C-7" "Joe Fox").

(** A chunk whose rows all pass the checks of the service; the first one
    repeats the stored case [C-2]. *)
Definition cleanChunk : BatchImportDto :=
  {| rows := [row "C-2" "Bob Ray"; row "C-3" "Eve Poe"]; startIndex := 100 |}.

(** A well-formed row that has been imported: its status is [success]. *)
Definition imported : gmap string string :=
  <["_id" := "row-0"]> (<["priority" := "LOW"]> johnDoe).

Definition afterImport : ImportStore.ImportState :=
  {| ImportStore.mappedData := [imported];
     ImportStore.validationErrors := ∅;
     ImportStore.rowStatuses := {[ "row-0" := ImportStore.success ]} |}.

(** The same well-formed case, twice in one file. *)
Definition twin : gmap string string :=
  <["_id" := "row-1"]> (<["priority" := "LOW"]> johnDoe).

Definition twins : list (gmap string string) := [imported; twin].

(** The same well-formed case twice, in rows that have no row id. *)
Definition unnamed : gmap string string := <["priority" := "LOW"]> johnDoe.

Definition unnamedTwins : list (gmap string string) := [unnamed; unnamed].

(** A row with four errors and a well-formed row of another case, under one
    row id. *)
Definition homonyms : list (gmap string string) :=
  [<["_id" := "row-0"]> fourErrors; imported].

(** The row of the first scenario as the grid holds it, with its row id. *)
Definition draft : gmap string string := <["_id" := "row-0"]> johnDoe.

Definition drafted : ImportStore.ImportState :=
  {| ImportStore.mappedData := [draft];
     ImportStore.validationErrors := ∅;
     ImportStore.rowStatuses := ∅ |}.

(** The error that [validateRow] reports for that row. *)
Definition priorityError : Validation.ValidationError :=
  {| Validation.field := "priority";
     Validation.message :=
       "Invalid enum value. Expected 'LOW' | 'MEDIUM' | 'HIGH', received ''";
     Validation.value := Some "";
     Validation.suggestion := Some "LOW" |}.

Definition twinsLoaded : ImportStore.ImportState :=
  {| ImportStore.mappedData := twins;
     ImportStore.validationErrors := ∅;
     ImportStore.rowStatuses := ∅ |}.

(** The page after [startImport]. *)
Definition session : Submit.SubmitState :=
  {| Submit.jobId := Some "job-1"; Submit.rowStatuses := ∅;
     Submit.successCount := 0; Submit.failedCount := 0 |}.

(** What [autoMapColumns] returns for the headers [Case ID], [mail] and
    [E-mail]. *)
Definition mailMapping : ColumnMapping.ColumnMapping :=
  {| ColumnMapping.csvColumn := "mail"; ColumnMapping.schemaField := Some ColumnMapping.email;
     ColumnMapping.confidence := 1; ColumnMapping.isAutoMapped := true |}.

Definition threeMappings : list ColumnMapping.ColumnMapping :=
  [ {| ColumnMapping.csvColumn := "Case ID";
       ColumnMapping.schemaField := Some ColumnMapping.case_id;
       ColumnMapping.confidence := 1; ColumnMapping.isAutoMapped := true |};
    mailMapping;
    {| ColumnMapping.csvColumn := "E-mail"; ColumnMapping.schemaField := None;
       ColumnMapping.confidence := 0; ColumnMapping.isAutoMapped := false |} ].

End Examples.

(** ** Vocabulary of the statements *)

Module Vocabulary.

Import Validation.

(** The row carries the case identifier [caseId]; an empty or absent value
    is no identifier (the schema reports it as missing). *)
Definition carries (row : CaseRow) (caseId : string) : Prop :=
  row !! "case_id" = Some caseId /\ caseId <> "".

(** Row [i] repeats the identifier of a row before it. *)
Definition repeatsEarlier (rows : list CaseRow) (i : nat) (row : CaseRow) : Prop :=
  exists (j : nat) (first : CaseRow) (caseId : string),
    (j < i)%nat /\ rows !! j = Some first /\ carries first caseId /\ carries row caseId.

Definition duplicateMessage : string := "Duplicate case ID in file".

(** The errors that the loop of [validateAllRows] collects for row [i] of
    [rows]: its [errors] array after the duplicate check, with the
    [seenCaseIds] that the rows before it leave. *)
Definition collected (rt : Js.Runtime) (rows : list CaseRow) (i : nat) (row : CaseRow)
  : list ValidationError :=
  fst (checkRow rt (snd (foldl (visit rt) (∅, ∅) (take i rows))) row).

(** The identifiers carried by some of the rows. *)
Fixpoint caseIdsOf (rows : list CaseRow) : gset string :=
  match rows with
  | [] => ∅
  | row :: rest =>
      match row !! "case_id" with
      | Some (String c s) => {[ String c s ]} ∪ caseIdsOf rest
      | _ => caseIdsOf rest
      end
  end.

(** The duplicate error that [checkRow] appends, if any. *)
Definition duplicatePart (seenCaseIds : gset string) (row : CaseRow) : list ValidationError :=
  match row !! "case_id" with
  | Some (String c s) =>
      if bool_decide (String c s ∈ seenCaseIds) then [duplicateError (String c s)] else []
  | _ => []
  end.

(** No issue of the schema has the message of the duplicate error. *)
Definition hygienic (schema : Zod.Schema) : Prop :=
  forall (input : option string) (m : string),
    m ∈ Zod.issues (schema input) -> m <> duplicateMessage.

(** The records that the first loop of [processBatch] prepares: those of the
    rows that pass its checks, in the order of the rows. *)
Definition passed (rt : Js.Runtime) (jobId userId : string)
    (rows : list ImportService.ImportRowDto) : list ImportService.CaseData :=
  omap (fun row => match ImportService.prepare rt jobId userId row with
                   | inr caseData => Some caseData
                   | inl _ => None
                   end) rows.

(** The invariant of the assignment loop of [autoMapColumns] for distinct
    headers, with [todo] the candidates that the loop has yet to visit: the
    slots keep their columns; a slot whose candidate is yet to be visited
    still holds that candidate; a visited slot that holds a field holds a
    used one, and no two visited slots hold the same field. *)
Definition assignInv (csvHeaders : list string) (usedFields : gset ColumnMapping.SchemaField)
    (candidates todo : list ColumnMapping.Candidate) : Prop :=
  let column := ColumnMapping.c_csvColumn in
  let visited c := column c ∉ map column todo in
  map column candidates = csvHeaders
  /\ NoDup (map column todo)
  /\ (forall x, x ∈ todo -> column x ∈ csvHeaders)
  /\ (forall c, c ∈ candidates -> column c ∈ map column todo -> c ∈ todo)
  /\ (forall c g, c ∈ candidates -> visited c ->
                  ColumnMapping.c_field c = Some g -> g ∈ usedFields)
  /\ (forall c c' g, c ∈ candidates -> c' ∈ candidates -> visited c -> visited c' ->
                     ColumnMapping.c_field c = Some g -> ColumnMapping.c_field c' = Some g ->
                     column c = column c').

(** The row has a non-empty value under [k]. *)
Definition present (row : CaseRow) (k : string) : Prop :=
  exists v : string, row !! k = Some v /\ v <> "".

(** What [caseSchema] asks of a row, field by field. *)
Definition accepted (rt : Js.Runtime) (row : CaseRow) : Prop :=
  present row "case_id"
  /\ present row "applicant_name"
  /\ present row "dob" /\ dobInRange rt (row !! "dob") = true
  /\ emailOk (row !! "email") = true
  /\ phoneOk (row !! "phone") = true
  /\ row !! "category" ∈ [Some "TAX"; Some "LICENSE"; Some "PERMIT"]
  /\ row !! "priority" ∈ [None; Some "LOW"; Some "MEDIUM"; Some "HIGH"].

(** The runtime reads the date of birth of the row as a date. *)
Definition readsDob (rt : Js.Runtime) (row : CaseRow) : Prop :=
  is_Some (Js.Date_getFullYear rt (Js.orElse (row !! "dob") "")).

(** The counters of a job agree: every processed row is counted once, as a
    success or as a failure, and every failure has its error record. *)
Definition consistent (job : ImportService.ImportJob) : Prop :=
  (ImportService.processedRows job
   = ImportService.successCount job + ImportService.failedCount job)%Z
  /\ ImportService.failedCount job
     = Z.of_nat (length (from_option id [] (ImportService.errorData job))).

(** The number of rows in a list of chunks. *)
Definition rowsIn {A : Type} (chunks : list (nat * list A)) : nat :=
  length (concat (map snd chunks)).

(** Every white-space character of the string is a space that stands
    alone; [afterSpace] tells that the string follows a white-space
    character. *)
Fixpoint spaced (afterSpace : bool) (s : string) : bool :=
  match s with
  | EmptyString => true
  | String c s' =>
      if Js.isWhiteSpace c
      then Ascii.eqb c " " && negb afterSpace && spaced true s'
      else spaced false s'
  end.

(** The string does not begin with a white-space character. *)
Definition startsClean (s : string) : bool :=
  match s with
  | EmptyString => true
  | String c _ => negb (Js.isWhiteSpace c)
  end.

(** A slot of [candidates] holds no field, or the proposal for its
    column. *)
Definition proposed (c : ColumnMapping.Candidate) : Prop :=
  ColumnMapping.c_field c = None
  \/ c = ColumnMapping.propose ∅ (ColumnMapping.c_csvColumn c).

(** The number of errors on [field] in all the rows. *)
Definition errorsOn (field : string) (errors : list (list ValidationError)) : nat :=
  length (List.filter (fun e => String.eqb (Validation.field e) field) (concat errors)).

(** [fieldCounts.get(field) || 0] *)
Fixpoint countOf (fieldCounts : list (string * nat)) (field : string) : nat :=
  match fieldCounts with
  | [] => 0
  | (f, n) :: rest => if String.eqb f field then n else countOf rest field
  end.

(** No entry has a greater count than an entry before it. *)
Fixpoint descending (l : list (string * nat)) : Prop :=
  match l with
  | [] => True
  | x :: rest => Forall (fun y => snd y <= snd x) rest /\ descending rest
  end.

(** The error records of the rows that the store refuses because it holds
    their case already, with the first row of [todo] at index [at_]. *)
Fixpoint refusals (cases : gmap string ImportService.CaseData) (at_ : Z)
    (todo : list ImportService.CaseData) : list ImportService.RowError :=
  match todo with
  | [] => []
  | d :: rest =>
      match cases !! ImportService.d_caseId d with
      | Some _ => [ {| ImportService.index := at_;
                       ImportService.caseId := ImportService.d_caseId d;
                       ImportService.error := "Duplicate case ID" |} ]
      | None => []
      end ++ refusals cases (at_ + 1)%Z rest
  end.

End Vocabulary.

(** * Properties *)

(** ** Column mapping *)

Section ColumnMappingFacts.

Import ColumnMapping Vocabulary.

(** *** [autoMapColumns] returns one mapping per header, in order *)

Lemma findIndex_Some {A : Type} (p : A -> bool) (l : list A) (x : A) :
  x ∈ l -> p x = true ->
  exists (idx : nat) (y : A), findIndex p l = Some idx /\ l !! idx = Some y /\ p y = true.
Proof.
  induction l as [|a l IH]; intros Hin Hp; [inversion Hin|].
  cbn [findIndex]. destruct (p a) eqn:Ha.
  - exists 0%nat, a. repeat split. exact Ha.
  - apply elem_of_cons in Hin as [->|Hin]; [congruence|].
    destruct (IH Hin Hp) as (idx & y & -> & Hy & Hpy).
    exists (S idx), y. repeat split; assumption.
Qed.

Lemma insert_same_column (candidates : list Candidate) (idx : nat) (c y : Candidate) :
  candidates !! idx = Some c -> c_csvColumn y = c_csvColumn c ->
  map c_csvColumn (<[idx := y]> candidates) = map c_csvColumn candidates.
Proof.
  revert idx. induction candidates as [|a l IH]; intros idx Hc Hy; [discriminate Hc|].
  destruct idx as [|idx]; cbn in *.
  - injection Hc as ->. rewrite Hy. reflexivity.
  - f_equal. exact (IH idx Hc Hy).
Qed.

Lemma release_columns (usedFields : gset SchemaField) (candidates : list Candidate)
    (candidate c : Candidate) (idx : nat) :
  candidates !! idx = Some c -> c_csvColumn c = c_csvColumn candidate ->
  exists cs, release usedFields candidates candidate idx = Some cs
             /\ map c_csvColumn cs = map c_csvColumn candidates.
Proof.
  intros Hc Hcol. unfold release. rewrite Hc. cbn.
  destruct (c_field c) as [g|]; [destruct (bool_decide (g ∈ usedFields))|];
    eexists; (split; [reflexivity|]); try reflexivity.
  apply (insert_same_column _ _ c); [exact Hc|]. rewrite Hcol. reflexivity.
Qed.

Lemma assign_columns (usedFields : gset SchemaField) (candidates : list Candidate)
    (candidate : Candidate) :
  c_csvColumn candidate ∈ map c_csvColumn candidates ->
  exists usedFields' candidates',
    assign (usedFields, candidates) candidate = Some (usedFields', candidates')
    /\ map c_csvColumn candidates' = map c_csvColumn candidates.
Proof.
  intros Hin. apply list_elem_of_fmap in Hin as (x & Hx & Hin).
  destruct (findIndex_Some (sameColumn candidate) candidates x Hin) as (idx & c & Hidx & Hc & Hp).
  { unfold sameColumn. rewrite Hx. apply String.eqb_refl. }
  apply String.eqb_eq in Hp.
  destruct (release_columns usedFields candidates candidate c idx Hc Hp) as (cs & Hrel & Hcs).
  unfold assign. rewrite Hidx. cbn.
  destruct (c_field candidate) as [f|]; [destruct (bool_decide (f ∉ usedFields))|].
  - eexists _, _. split; [reflexivity|].
    apply (insert_same_column _ _ c); [exact Hc|]. symmetry. exact Hp.
  - rewrite Hrel. cbn. eexists _, _. split; [reflexivity|exact Hcs].
  - rewrite Hrel. cbn. eexists _, _. split; [reflexivity|exact Hcs].
Qed.

Lemma assignAll_columns (sorted : list Candidate) (usedFields : gset SchemaField)
    (candidates : list Candidate) :
  (forall x, x ∈ sorted -> c_csvColumn x ∈ map c_csvColumn candidates) ->
  exists usedFields' candidates',
    assignAll (usedFields, candidates) sorted = Some (usedFields', candidates')
    /\ map c_csvColumn candidates' = map c_csvColumn candidates.
Proof.
  revert usedFields candidates.
  induction sorted as [|candidate rest IH]; intros usedFields candidates Hall.
  - eexists _, _. split; reflexivity.
  - destruct (assign_columns usedFields candidates candidate) as (u1 & c1 & Hassign & Hcols).
    { apply Hall. left. }
    destruct (IH u1 c1) as (u2 & c2 & Hrest & Hcols2).
    { intros x Hx. rewrite Hcols. apply Hall. right. exact Hx. }
    exists u2, c2. cbn [assignAll]. rewrite Hassign. cbn.
    split; [exact Hrest|]. rewrite Hcols2. exact Hcols.
Qed.

Lemma elem_of_insertSorted (x y : Candidate) (l : list Candidate) :
  y ∈ insertSorted x l -> y = x \/ y ∈ l.
Proof.
  induction l as [|a l IH]; cbn [insertSorted].
  - intros ->%list_elem_of_singleton. left. reflexivity.
  - destruct (PrimFloat.ltb 0 (compareFn x a)).
    + intros [->|H]%elem_of_cons; [right; left|].
      destruct (IH H) as [->|Hl]; [left; reflexivity|right; right; exact Hl].
    + intros [->|H]%elem_of_cons; [left; reflexivity|right; exact H].
Qed.

Lemma elem_of_sort (y : Candidate) (l : list Candidate) : y ∈ sort l -> y ∈ l.
Proof.
  induction l as [|a l IH]; cbn [sort foldr]; [trivial|].
  intros [->|H]%elem_of_insertSorted; [left|right; apply IH; exact H].
Qed.

Lemma propose_column (usedFields : gset SchemaField) (header : string) :
  c_csvColumn (propose usedFields header) = header.
Proof. unfold propose. destruct (findBestMatch header _). reflexivity. Qed.

Lemma finalMapping_column (usedFields : gset SchemaField) (candidate : Candidate) :
  csvColumn (finalMapping usedFields candidate) = c_csvColumn candidate.
Proof.
  unfold finalMapping.
  destruct (c_field candidate) as [f|]; [destruct (bool_decide (f ∈ usedFields))|]; reflexivity.
Qed.

(** [autoMapColumns] always returns, with one mapping per header and the
    headers in their order. *)
Lemma autoMapColumns_returns (csvHeaders : list string) :
  exists mappings : list ColumnMapping,
    autoMapColumns csvHeaders = Some mappings
    /\ map csvColumn mappings = csvHeaders.
Proof.
  assert (Hcols : map c_csvColumn (map (propose ∅) csvHeaders) = csvHeaders).
  { rewrite List.map_map. rewrite <- (List.map_id csvHeaders) at 2.
    apply List.map_ext. intros h. apply propose_column. }
  destruct (assignAll_columns (sort (map (propose ∅) csvHeaders)) ∅ (map (propose ∅) csvHeaders))
    as (used & cands & Hrun & Hkeep).
  { intros x Hx. apply elem_of_sort in Hx.
    apply list_elem_of_fmap. exists x. split; [reflexivity|exact Hx]. }
  unfold autoMapColumns. rewrite Hrun. cbn.
  eexists. split; [reflexivity|].
  rewrite List.map_map. rewrite <- Hcols, <- Hkeep.
  apply List.map_ext. intros c. apply finalMapping_column.
Qed.

(** *** Distinct headers get distinct fields *)

Lemma findIndex_lookup {A : Type} (p : A -> bool) (l : list A) (idx : nat) :
  findIndex p l = Some idx -> exists y, l !! idx = Some y /\ p y = true.
Proof.
  revert idx. induction l as [|a l IH]; intros idx; cbn [findIndex]; [discriminate|].
  destruct (p a) eqn:Ha.
  - intros [= <-]. exists a. split; [reflexivity|exact Ha].
  - destruct (findIndex p l) as [k|]; [|discriminate]. cbn. intros [= <-].
    destruct (IH k eq_refl) as (y & Hy & Hp). exists y. split; assumption.
Qed.

Lemma insertSorted_Permutation (x : Candidate) (l : list Candidate) :
  Permutation (insertSorted x l) (x :: l).
Proof.
  induction l as [|a l IH]; cbn [insertSorted]; [reflexivity|].
  destruct (PrimFloat.ltb 0 (compareFn x a)); [|reflexivity].
  rewrite IH. apply perm_swap.
Qed.

Lemma sort_Permutation (l : list Candidate) : Permutation (sort l) l.
Proof.
  induction l as [|a l IH]; cbn [sort foldr]; [reflexivity|].
  rewrite insertSorted_Permutation. apply perm_skip. exact IH.
Qed.

Lemma same_column_same (l : list Candidate) (a b : Candidate) :
  NoDup (map c_csvColumn l) -> a ∈ l -> b ∈ l -> c_csvColumn a = c_csvColumn b -> a = b.
Proof.
  induction l as [|x l IH]; cbn [map]; intros Hnd Ha Hb Hcol; [inversion Ha|].
  apply NoDup_cons in Hnd as [Hx Hnd].
  assert (Hin : forall y, y ∈ l -> c_csvColumn y ∈ map c_csvColumn l).
  { intros y Hy. apply list_elem_of_fmap. exists y. split; [reflexivity|exact Hy]. }
  apply elem_of_cons in Ha as [->|Ha]; apply elem_of_cons in Hb as [->|Hb].
  - reflexivity.
  - exfalso. apply Hx. rewrite Hcol. apply Hin. exact Hb.
  - exfalso. apply Hx. rewrite <- Hcol. apply Hin. exact Ha.
  - apply IH; assumption.
Qed.

Lemma lookup_column_inj (l : list Candidate) (i j : nat) (a b : Candidate) :
  NoDup (map c_csvColumn l) -> l !! i = Some a -> l !! j = Some b ->
  c_csvColumn a = c_csvColumn b -> i = j.
Proof.
  intros Hnd Ha Hb Hcol.
  apply (NoDup_lookup (c_csvColumn <$> l) i j (c_csvColumn a)); [exact Hnd| |].
  - rewrite list_lookup_fmap, Ha. reflexivity.
  - rewrite list_lookup_fmap, Hb, Hcol. reflexivity.
Qed.

Lemma elem_of_insert_inv {A : Type} (l : list A) (idx : nat) (y c : A) :
  c ∈ <[idx := y]> l -> c = y \/ exists j, j <> idx /\ l !! j = Some c.
Proof.
  intros (j & Hj)%list_elem_of_lookup.
  destruct (decide (idx = j)) as [->|Hne].
  - left. apply list_lookup_insert_Some in Hj as [(_ & -> & _)|(Hne & _)];
      [reflexivity|contradiction].
  - right. rewrite list_lookup_insert_ne in Hj by exact Hne. exists j. auto.
Qed.

(** One turn of the loop keeps the invariant. *)
Lemma assign_invariant (csvHeaders : list string) (usedFields : gset SchemaField)
    (candidates : list Candidate) (x : Candidate) (rest : list Candidate) :
  NoDup csvHeaders ->
  assignInv csvHeaders usedFields candidates (x :: rest) ->
  exists usedFields' candidates',
    assign (usedFields, candidates) x = Some (usedFields', candidates')
    /\ assignInv csvHeaders usedFields' candidates' rest.
Proof.
  intros Hndh (Hcols & Hnd & Htodo & Hsub & Hused & Huniq).
  cbn [map] in Hnd. apply NoDup_cons in Hnd as [Hx Hnd].
  assert (Hndc : NoDup (map c_csvColumn candidates)) by (rewrite Hcols; exact Hndh).
  assert (Hhead : c_csvColumn x ∈ map c_csvColumn (x :: rest)) by left.
  (* the slot of [x] holds [x] itself *)
  pose proof (Htodo x ltac:(left)) as Hxin. rewrite <- Hcols in Hxin.
  apply list_elem_of_fmap in Hxin as (c0 & Hc0 & Hc0in).
  destruct (findIndex_Some (sameColumn x) candidates c0 Hc0in) as (idx & c & Hidx & Hc & Hp).
  { unfold sameColumn. rewrite Hc0. apply String.eqb_refl. }
  apply String.eqb_eq in Hp.
  assert (c = x) as ->.
  { assert (Hcin : c ∈ candidates) by (eapply list_elem_of_lookup_2; exact Hc).
    apply (same_column_same (x :: rest)).
    - cbn [map]. apply NoDup_cons. split; assumption.
    - apply Hsub; [exact Hcin|]. rewrite Hp. exact Hhead.
    - left.
    - exact Hp. }
  (* a slot is [x], or it is visited already, or it is still to be visited *)
  assert (Hslot : forall c, c ∈ candidates -> c_csvColumn c ∉ map c_csvColumn rest ->
                  c = x \/ c_csvColumn c ∉ map c_csvColumn (x :: rest)).
  { intros c Hcin Hc'. destruct (decide (c_csvColumn c = c_csvColumn x)) as [Heq|Hne].
    - left. apply (same_column_same (x :: rest)).
      + cbn [map]. apply NoDup_cons. split; assumption.
      + apply Hsub; [exact Hcin|]. rewrite Heq. exact Hhead.
      + left.
      + exact Heq.
    - right. cbn [map]. intros [?|?]%elem_of_cons; contradiction. }
  assert (Hsub' : forall c, c ∈ candidates -> c_csvColumn c ∈ map c_csvColumn rest -> c ∈ rest).
  { intros c Hcin Hc'.
    assert (Hin : c ∈ x :: rest) by (apply Hsub; [exact Hcin|right; exact Hc']).
    apply elem_of_cons in Hin as [->|Hin]; [contradiction|exact Hin]. }
  assert (Htodo' : forall y, y ∈ rest -> c_csvColumn y ∈ csvHeaders).
  { intros y Hy. apply Htodo. right. exact Hy. }
  (* the invariant when the slots stay as they are *)
  assert (Hsame : forall usedFields' : gset SchemaField,
             usedFields ⊆ usedFields' ->
             (forall g, c_field x = Some g -> g ∈ usedFields' /\ g ∉ usedFields) ->
             assignInv csvHeaders usedFields' candidates rest).
  { intros used' Hincl Hfield. repeat split; try assumption.
    - intros c g Hcin Hvis Hg. destruct (Hslot c Hcin Hvis) as [->|Hold].
      + apply Hfield. exact Hg.
      + apply Hincl. eapply Hused; eassumption.
    - intros c c' g Hcin Hcin' Hvis Hvis' Hg Hg'.
      destruct (Hslot c Hcin Hvis) as [->|Hold];
        destruct (Hslot c' Hcin' Hvis') as [->|Hold']; try reflexivity.
      + exfalso. apply (Hfield g Hg). eapply Hused; eassumption.
      + exfalso. apply (Hfield g Hg'). eapply (Hused c); eassumption.
      + eapply Huniq; eassumption. }
  (* the invariant when the slot of [x] is cleared *)
  assert (Hclear : assignInv csvHeaders usedFields (<[idx := cleared x]> candidates) rest).
  { assert (Hin : forall c, c ∈ <[idx := cleared x]> candidates ->
                    c = cleared x \/ (c ∈ candidates /\ c_csvColumn c <> c_csvColumn x)).
    { intros c [->|(j & Hne & Hj)]%elem_of_insert_inv; [left; reflexivity|right].
      split; [eapply list_elem_of_lookup_2; exact Hj|].
      intros Heq. apply Hne. exact (lookup_column_inj candidates j idx c x Hndc Hj Hc Heq). }
    assert (Hold : forall c, c ∈ candidates -> c_csvColumn c <> c_csvColumn x ->
                     c_csvColumn c ∉ map c_csvColumn rest ->
                     c_csvColumn c ∉ map c_csvColumn (x :: rest)).
    { intros c Hcin Hne Hvis. destruct (Hslot c Hcin Hvis) as [->|H]; [contradiction|exact H]. }
    repeat split; try assumption.
    - rewrite <- Hcols. apply (insert_same_column _ _ x); [exact Hc|reflexivity].
    - intros c [->|[Hcin Hne]]%Hin Hc'; [contradiction|]. apply Hsub'; assumption.
    - intros c g [->|[Hcin Hne]]%Hin Hvis Hg; [discriminate Hg|].
      eapply Hused; [exact Hcin|apply Hold; assumption|exact Hg].
    - intros c c' g [->|[Hcin Hne]]%Hin [->|[Hcin' Hne']]%Hin Hvis Hvis' Hg Hg';
        try discriminate Hg; try discriminate Hg'.
      eapply Huniq; [exact Hcin|exact Hcin'|apply Hold; assumption|apply Hold; assumption
                    |exact Hg|exact Hg']. }
  unfold assign. rewrite Hidx. cbn. unfold release. rewrite Hc. cbn.
  destruct (c_field x) as [f|] eqn:Hf.
  - destruct (bool_decide_reflect (f ∉ usedFields)) as [Hfree|Htaken].
    + exists ({[f]} ∪ usedFields), (<[idx := x]> candidates). split; [reflexivity|].
      rewrite list_insert_id by exact Hc.
      apply Hsame; [set_solver|]. intros g [= <-]. split; [set_solver|exact Hfree].
    + assert (Hin : f ∈ usedFields) by (destruct (decide (f ∈ usedFields)); tauto).
      rewrite (bool_decide_eq_true_2 _ Hin). cbn.
      eexists _, _. split; [reflexivity|exact Hclear].
  - eexists _, _. split; [reflexivity|].
    apply Hsame; [reflexivity|]. intros g Hg. discriminate Hg.
Qed.

Lemma assignAll_invariant (csvHeaders : list string) (todo : list Candidate)
    (usedFields : gset SchemaField) (candidates : list Candidate) :
  NoDup csvHeaders ->
  assignInv csvHeaders usedFields candidates todo ->
  exists usedFields' candidates',
    assignAll (usedFields, candidates) todo = Some (usedFields', candidates')
    /\ assignInv csvHeaders usedFields' candidates' [].
Proof.
  intros Hndh. revert usedFields candidates.
  induction todo as [|x rest IH]; intros usedFields candidates Hinv.
  - eexists _, _. split; [reflexivity|exact Hinv].
  - destruct (assign_invariant _ _ _ _ _ Hndh Hinv) as (u1 & c1 & Hassign & Hinv1).
    destruct (IH u1 c1 Hinv1) as (u2 & c2 & Hrest & Hinv2).
    exists u2, c2. cbn [assignAll]. rewrite Hassign. cbn. split; [exact Hrest|exact Hinv2].
Qed.

Lemma finalMapping_field (usedFields : gset SchemaField) (candidate : Candidate)
    (f : SchemaField) :
  schemaField (finalMapping usedFields candidate) = Some f -> c_field candidate = Some f.
Proof.
  unfold finalMapping.
  destruct (c_field candidate) as [g|]; [destruct (bool_decide (g ∈ usedFields))|];
    cbn; intros H; try discriminate H; exact H.
Qed.

Lemma autoMapColumns_distinct_index (csvHeaders : list string)
    (mappings : list ColumnMapping) (i j : nat) (mi mj : ColumnMapping) (f : SchemaField) :
  NoDup csvHeaders ->
  autoMapColumns csvHeaders = Some mappings ->
  mappings !! i = Some mi -> mappings !! j = Some mj ->
  schemaField mi = Some f -> schemaField mj = Some f ->
  i = j.
Proof.
  intros Hndh Hrun Hi Hj Hfi Hfj.
  set (candidates := map (propose ∅) csvHeaders) in *.
  assert (Hcols : map c_csvColumn candidates = csvHeaders).
  { unfold candidates. rewrite List.map_map. rewrite <- (List.map_id csvHeaders) at 2.
    apply List.map_ext. intros h. apply propose_column. }
  assert (Hinv : assignInv csvHeaders ∅ candidates (sort candidates)).
  { assert (Hperm : Permutation (map c_csvColumn (sort candidates)) csvHeaders).
    { rewrite <- Hcols. apply Permutation_map. apply sort_Permutation. }
    repeat split.
    - exact Hcols.
    - rewrite Hperm. exact Hndh.
    - intros x Hx. rewrite <- Hperm. apply list_elem_of_fmap. exists x. split; [reflexivity|exact Hx].
    - intros c Hc _. rewrite sort_Permutation. exact Hc.
    - intros c g Hc Hvis. exfalso. apply Hvis. apply list_elem_of_fmap. exists c.
      split; [reflexivity|]. rewrite sort_Permutation. exact Hc.
    - intros c c' g Hc _ Hvis. exfalso. apply Hvis. apply list_elem_of_fmap. exists c.
      split; [reflexivity|]. rewrite sort_Permutation. exact Hc. }
  destruct (assignAll_invariant csvHeaders (sort candidates) ∅ candidates Hndh Hinv)
    as (used & cands & Hall & (Hcols' & _ & _ & _ & _ & Huniq)).
  unfold autoMapColumns in Hrun. fold candidates in Hrun. rewrite Hall in Hrun.
  cbn in Hrun. injection Hrun as <-.
  change (map (finalMapping used) cands) with (finalMapping used <$> cands) in Hi, Hj.
  rewrite list_lookup_fmap in Hi, Hj.
  destruct (cands !! i) as [ci|] eqn:Hci; [|discriminate Hi].
  destruct (cands !! j) as [cj|] eqn:Hcj; [|discriminate Hj].
  cbn in Hi, Hj. injection Hi as <-. injection Hj as <-.
  apply finalMapping_field in Hfi, Hfj.
  assert (Hvis : forall c : Candidate, c_csvColumn c ∉ map c_csvColumn []).
  { intros c H. inversion H. }
  apply (lookup_column_inj cands i j ci cj); [rewrite Hcols'; exact Hndh|exact Hci|exact Hcj|].
  apply (Huniq ci cj f); try assumption; try apply Hvis;
    eapply list_elem_of_lookup_2; eassumption.
Qed.

Lemma NoDup_omap_index {A B : Type} (g : A -> option B) (l : list A) :
  (forall i j a b y, l !! i = Some a -> l !! j = Some b -> g a = Some y -> g b = Some y -> i = j) ->
  NoDup (omap g l).
Proof.
  induction l as [|a l IH]; intros Hinj; cbn [omap list_omap]; [apply NoDup_nil_2|].
  assert (Hl : NoDup (omap g l)).
  { apply IH. intros i j x y z Hi Hj Hx Hy.
    assert (S i = S j) by (apply (Hinj (S i) (S j) x y z); assumption). lia. }
  destruct (g a) as [y|] eqn:Ha; [|exact Hl].
  apply NoDup_cons. split; [|exact Hl].
  intros (b & Hb & Hgb)%list_elem_of_omap. apply list_elem_of_lookup in Hb as (j & Hj).
  assert (0%nat = S j) by (apply (Hinj 0%nat (S j) a b y); auto). lia.
Qed.

(** When the headers are pairwise distinct, no two mappings of the result
    reference the same schema field: the fields of the mapped columns form
    a list without repetition. *)
Lemma autoMapColumns_distinct_headers (csvHeaders : list string)
    (mappings : list ColumnMapping) :
  NoDup csvHeaders ->
  autoMapColumns csvHeaders = Some mappings ->
  NoDup (omap schemaField mappings).
Proof.
  intros Hnd Hrun. apply NoDup_omap_index. intros i j mi mj f Hi Hj Hfi Hfj.
  exact (autoMapColumns_distinct_index csvHeaders mappings i j mi mj f Hnd Hrun Hi Hj Hfi Hfj).
Qed.

Lemma autoMapColumns_distinct_headers_witness :
  NoDup (omap schemaField
           [ {| csvColumn := "Case ID"; schemaField := Some case_id;
                confidence := 1; isAutoMapped := true |};
             {| csvColumn := "mail"; schemaField := Some email;
                confidence := 1; isAutoMapped := true |};
             {| csvColumn := "E-mail"; schemaField := None;
                confidence := 0; isAutoMapped := false |} ]).
Proof.
  refine (autoMapColumns_distinct_headers ["Case ID"; "mail"; "E-mail"] _ _ _).
  - apply (bool_decide_unpack (NoDup ["Case ID"; "mail"; "E-mail"])). vm_compute. exact I.
  - vm_compute. reflexivity.
Defined.

(** A string is as similar to itself as can be. *)
Lemma similarity_refl (str : string) : similarity str str = 1%float.
Proof. unfold similarity. rewrite String.eqb_refl. reflexivity. Qed.

(** The substring rule: [email] against [email_address]. *)
Lemma similarity_substring : similarity "email" "email_address" = 0.9%float.
Proof. vm_compute. reflexivity. Qed.

(** C6, as the code has it: when one of the two strings normalizes to the
    empty string, [similarity] returns 1 if the other one does too, and 0.9
    otherwise (the empty string is a substring of every string). *)
Theorem similarity_empty (str1 str2 : string) :
  normalize str1 = "" \/ normalize str2 = "" ->
  similarity str1 str2
  = if String.eqb (normalize str1) (normalize str2) then 1%float else 0.9%float.
Proof.
  intros H. unfold similarity.
  destruct (String.eqb (normalize str1) (normalize str2)) eqn:E; [reflexivity|].
  destruct H as [H|H]; rewrite H in *.
  - destruct (normalize str2) as [|c s]; [discriminate E|]. reflexivity.
  - destruct (normalize str1) as [|c s]; [discriminate E|].
    cbn [String.length Nat.ltb Nat.leb Nat.eqb Js.includes String.prefix orb].
    reflexivity.
Qed.

Lemma similarity_empty_witness :
  similarity "###" "email" = 0.9%float.
Proof. exact (similarity_empty "###" "email" (or_introl eq_refl)). Defined.

(** C6, counterexample: the header [###] normalizes to the empty string,
    and its similarity to [email] is 0.9, not 1. *)
Lemma similarity_empty_not_one :
  ~ (forall str1 str2 : string,
       normalize str1 = "" \/ normalize str2 = "" -> similarity str1 str2 = 1%float).
Proof.
  intros H. specialize (H "###" "email" (or_introl eq_refl)).
  apply (f_equal (PrimFloat.eqb 1)) in H. vm_compute in H. discriminate H.
Qed.

(** C5, at three equal headers: the result has one mapping per header, in
    order, and its second and third mapping both reference [email]. *)
Theorem autoMapColumns_repeated_header :
  autoMapColumns ["email"; "email"; "email"]
  = Some [ {| csvColumn := "email"; schemaField := None;
              confidence := 0; isAutoMapped := false |};
           {| csvColumn := "email"; schemaField := Some email;
              confidence := 1; isAutoMapped := true |};
           {| csvColumn := "email"; schemaField := Some email;
              confidence := 1; isAutoMapped := true |} ].
Proof. vm_compute. reflexivity. Qed.

End ColumnMappingFacts.

(** ** Row validation *)

Section ValidationFacts.

Import Validation Vocabulary.

Lemma refine_dob_runtime (rt1 rt2 : Js.Runtime) (n : nat) (m m' : string)
    (input : option string) :
  dobInRange rt1 input = dobInRange rt2 input ->
  Zod.refine (dobInRange rt1) m (Zod.string_min n m') input
  = Zod.refine (dobInRange rt2) m (Zod.string_min n m') input.
Proof.
  intros H. unfold Zod.refine, Zod.string_min.
  destruct input as [d|]; [|reflexivity].
  destruct (Nat.ltb (String.length d) n); cbn -[dobInRange]; rewrite H; reflexivity.
Qed.

(** The runtime matters to [validateRow] only through the verdict on the
    row's date of birth. *)
Lemma validateRow_runtime (rt1 rt2 : Js.Runtime) (row : CaseRow) :
  dobInRange rt1 (row !! "dob") = dobInRange rt2 (row !! "dob") ->
  validateRow rt1 row = validateRow rt2 row.
Proof.
  intros H. unfold validateRow, Zod.parse, caseSchema. cbn [map concat].
  rewrite (refine_dob_runtime rt1 rt2) by exact H. reflexivity.
Qed.

(** C9: the row with an empty case identifier, an empty applicant name, the
    date of birth 2099-01-01 and the category INVALID gets exactly four
    errors, for the missing identifier, the missing name, the date out of
    range and the invalid category, once the clock is in a year before the
    one the runtime reads from that date. *)
Theorem validateRow_four_errors (rt : Js.Runtime) :
  (forall year, Js.Date_getFullYear rt "2099-01-01" = Some year ->
                (Js.Date_now_getFullYear rt < year)%Z) ->
  validateRow rt Examples.fourErrors
  = [ {| field := "case_id"; message := "Case ID is required";
         value := Some ""; suggestion := None |};
      {| field := "applicant_name"; message := "Applicant name is required";
         value := Some ""; suggestion := None |};
      {| field := "dob"; message := "Invalid date (must be between 1900 and today)";
         value := Some "2099-01-01"; suggestion := None |};
      {| field := "category"; message := "Category must be TAX, LICENSE, or PERMIT";
         value := Some "INVALID"; suggestion := None |} ].
Proof.
  intros Hclock.
  rewrite (validateRow_runtime rt Examples.runtime); [vm_compute; reflexivity|].
  replace (Examples.fourErrors !! "dob") with (Some "2099-01-01") by (vm_compute; reflexivity).
  transitivity false; [|vm_compute; reflexivity].
  unfold dobInRange. destruct (Js.Date_getFullYear rt "2099-01-01") as [year|] eqn:E;
    [|reflexivity].
  specialize (Hclock year eq_refl). apply andb_false_intro2. lia.
Qed.

Lemma validateRow_four_errors_witness :
  length (validateRow Examples.runtime Examples.fourErrors) = 4%nat.
Proof.
  rewrite (validateRow_four_errors Examples.runtime); [reflexivity|].
  intros year H. vm_compute in H. injection H as <-. reflexivity.
Defined.

(** C8, as the code has it: validated as it stands, the row of the first
    scenario gets one error from [validateRow], on the empty priority, with
    the suggestion LOW (the schema defaults an absent priority only); as
    [parseCSV] builds it from the same values, its priority is LOW and
    [validateRow] reports no error. Either way the applicant name and the
    phone number are valid, so that no error, and hence no suggestion, is
    reported for them, although [getSuggestion] proposes [John Doe] and
    [+919876543210] for their values. The date is taken to be in range. *)
Theorem validateRow_john_doe (rt : Js.Runtime) :
  dobInRange rt (Some "1990-01-01") = true ->
  validateRow rt Examples.johnDoe
  = [ {| field := "priority";
         message := "Invalid enum value. Expected 'LOW' | 'MEDIUM' | 'HIGH', received ''";
         value := Some ""; suggestion := Some "LOW" |} ]
  /\ CsvParser.ingest 0 Examples.johnDoe !! "priority" = Some "LOW"
  /\ validateRow rt (CsvParser.ingest 0 Examples.johnDoe) = []
  /\ getSuggestion "applicant_name" (Examples.johnDoe !! "applicant_name") = Some "John Doe"
  /\ getSuggestion "phone" (Examples.johnDoe !! "phone") = Some "+919876543210".
Proof.
  intros Hdob. split; [|split; [|split; [|split]]]; try (vm_compute; reflexivity).
  - rewrite (validateRow_runtime rt Examples.runtime); [vm_compute; reflexivity|].
    replace (Examples.johnDoe !! "dob") with (Some "1990-01-01") by (vm_compute; reflexivity).
    rewrite Hdob. vm_compute. reflexivity.
  - rewrite (validateRow_runtime rt Examples.runtime); [vm_compute; reflexivity|].
    replace (CsvParser.ingest 0 Examples.johnDoe !! "dob") with (Some "1990-01-01")
      by (vm_compute; reflexivity).
    rewrite Hdob. vm_compute. reflexivity.
Qed.

Lemma validateRow_john_doe_witness :
  map field (validateRow Examples.runtime Examples.johnDoe) = ["priority"].
Proof.
  rewrite (proj1 (validateRow_john_doe Examples.runtime eq_refl)). reflexivity.
Defined.

(** C8, counterexample: in the example runtime the row of the first
    scenario has an error, and none of its errors carries the suggestion
    [John Doe] or [+919876543210]. *)
Lemma validateRow_john_doe_has_error :
  validateRow Examples.runtime Examples.johnDoe <> []
  /\ Forall (fun e => suggestion e <> Some "John Doe" /\ suggestion e <> Some "+919876543210")
            (validateRow Examples.runtime Examples.johnDoe
             ++ validateRow Examples.runtime (CsvParser.ingest 0 Examples.johnDoe)).
Proof.
  replace (validateRow Examples.runtime (CsvParser.ingest 0 Examples.johnDoe))
    with (@nil ValidationError) by (vm_compute; reflexivity).
  rewrite app_nil_r.
  assert (H : validateRow Examples.runtime Examples.johnDoe
              = [ {| field := "priority";
                     message := Zod.invalidEnumValue ["LOW"; "MEDIUM"; "HIGH"] "";
                     value := Some ""; suggestion := Some "LOW" |} ])
    by (vm_compute; reflexivity).
  rewrite H. split; [discriminate|]. repeat constructor; discriminate.
Qed.

(** *** The category of a row *)

Lemma parse_found (shape : list (string * Zod.Schema)) (data : gmap string string)
    (issue : Zod.Issue) :
  let found :=
    concat (map (fun '(k, schema) =>
                   map (fun m => {| Zod.path := k; Zod.message := m |})
                       (Zod.issues (schema (data !! k))))
                shape) in
  issue ∈ found -> Zod.parse shape data = inr found.
Proof.
  intros found Hin. unfold Zod.parse. fold found.
  destruct found; [inversion Hin|reflexivity].
Qed.

(** A row whose category is not one of TAX, LICENSE and PERMIT (or is
    absent) has an error on the field [category], whatever its other
    fields. *)
Lemma validateRow_category (rt : Js.Runtime) (row : CaseRow) :
  row !! "category" ∉ [Some "TAX"; Some "LICENSE"; Some "PERMIT"] ->
  exists e : ValidationError,
    e ∈ validateRow rt row
    /\ field e = "category"
    /\ message e = "Category must be TAX, LICENSE, or PERMIT".
Proof.
  intros Hcat.
  set (issue := {| Zod.path := "category";
                   Zod.message := "Category must be TAX, LICENSE, or PERMIT" |}).
  assert (Hissue : Zod.issues (Zod.enum ["TAX"; "LICENSE"; "PERMIT"]
                                 (Some "Category must be TAX, LICENSE, or PERMIT")
                                 (row !! "category"))
                   = ["Category must be TAX, LICENSE, or PERMIT"]).
  { unfold Zod.enum. destruct (row !! "category") as [v|]; [|reflexivity].
    rewrite bool_decide_eq_false_2; [reflexivity|].
    intros Hv. apply Hcat. exact (list_elem_of_fmap_2 Some _ _ Hv). }
  pose proof (parse_found (caseSchema rt) row issue) as Hparse. cbn zeta in Hparse.
  match type of Hparse with ?P -> _ => assert (Hin : P) end.
  { unfold caseSchema. cbn [map concat]. rewrite Hissue. cbn [map].
    rewrite !elem_of_app. do 5 right. left. left. }
  specialize (Hparse Hin).
  exists {| field := "category"; message := "Category must be TAX, LICENSE, or PERMIT";
            value := row !! "category";
            suggestion := getSuggestion "category" (row !! "category") |}.
  split; [|split; reflexivity].
  unfold validateRow. rewrite Hparse. apply list_elem_of_fmap. exists issue.
  split; [reflexivity|exact Hin].
Qed.

Lemma validateRow_category_witness :
  exists e : ValidationError,
    e ∈ validateRow Examples.runtime Examples.fourErrors
    /\ field e = "category"
    /\ message e = "Category must be TAX, LICENSE, or PERMIT".
Proof.
  apply (validateRow_category Examples.runtime Examples.fourErrors).
  replace (Examples.fourErrors !! "category") with (Some "INVALID") by (vm_compute; reflexivity).
  intros H. repeat (apply elem_of_cons in H as [H|H]; [discriminate H|]). inversion H.
Defined.

(** *** Row ids after [parseCSV] *)

Lemma ingest_rowId (index : nat) (row : gmap string string) :
  rowId (CsvParser.ingest index row) = ("row-" ++ pretty index)%string.
Proof. unfold rowId, CsvParser.ingest. rewrite lookup_insert_eq. reflexivity. Qed.

Lemma ingestFrom_rowIds (index : nat) (data : list (gmap string string)) :
  rowId <$> CsvParser.ingestFrom index data
  = (fun k => ("row-" ++ pretty k)%string) <$> seq index (length data).
Proof.
  revert index. induction data as [|row rest IH]; intros index; [reflexivity|].
  cbn [CsvParser.ingestFrom length seq]. rewrite !fmap_cons, IH, ingest_rowId. reflexivity.
Qed.

(** The rows that [parseCSV] builds have pairwise distinct row ids. *)
Lemma parseCSV_distinct_ids (data : list (gmap string string)) :
  NoDup (rowId <$> CsvParser.parseCSV data).
Proof.
  unfold CsvParser.parseCSV. rewrite ingestFrom_rowIds.
  apply NoDup_fmap_2; [|apply NoDup_seq].
  intros a b Hab. cbn in Hab. injection Hab as Hab. apply (inj pretty). exact Hab.
Qed.

(** *** Duplicates within the file *)

Lemma carries_cons (row : CaseRow) (caseId : string) :
  carries row caseId <->
  exists c s, caseId = String c s /\ row !! "case_id" = Some (String c s).
Proof.
  unfold carries. split.
  - intros [H Hne]. destruct caseId as [|c s]; [contradiction|]. eauto.
  - intros (c & s & -> & H). split; [exact H|discriminate].
Qed.

Lemma elem_of_caseIdsOf (caseId : string) (rows : list CaseRow) :
  caseId ∈ caseIdsOf rows <-> exists row, row ∈ rows /\ carries row caseId.
Proof.
  induction rows as [|row rest IH]; cbn [caseIdsOf].
  - split; [set_solver|]. intros (row & Hin & _). inversion Hin.
  - assert (Hrest : caseId ∈ caseIdsOf rest ->
                    exists r, r ∈ row :: rest /\ carries r caseId).
    { intros (r & Hr & Hc)%IH. exists r. split; [right; exact Hr|exact Hc]. }
    destruct (row !! "case_id") as [[|c s]|] eqn:E.
    + split; [exact Hrest|]. intros (r & [->|Hr]%elem_of_cons & Hc).
      * destruct Hc as [Hc Hne]. rewrite E in Hc. injection Hc as <-. contradiction.
      * apply IH. eauto.
    + rewrite elem_of_union, elem_of_singleton. split.
      * intros [->|H]; [|exact (Hrest H)].
        exists row. split; [left|split; [exact E|discriminate]].
      * intros (r & [->|Hr]%elem_of_cons & Hc).
        -- left. destruct Hc as [Hc _]. rewrite E in Hc. injection Hc as <-. reflexivity.
        -- right. apply IH. eauto.
    + split; [exact Hrest|]. intros (r & [->|Hr]%elem_of_cons & Hc).
      * destruct Hc as [Hc _]. rewrite E in Hc. discriminate Hc.
      * apply IH. eauto.
Qed.

Lemma checkRow_errors (rt : Js.Runtime) (seen : gset string) (row : CaseRow) :
  fst (checkRow rt seen row) = validateRow rt row ++ duplicatePart seen row.
Proof.
  unfold checkRow, duplicatePart.
  destruct (row !! "case_id") as [[|c s]|]; cbn [fst]; try (symmetry; apply app_nil_r).
  destruct (bool_decide (String c s ∈ seen)); [reflexivity|symmetry; apply app_nil_r].
Qed.

Lemma checkRow_seen (rt : Js.Runtime) (seen : gset string) (row : CaseRow) :
  snd (checkRow rt seen row) = seen ∪ caseIdsOf [row].
Proof.
  unfold checkRow. cbn [caseIdsOf].
  destruct (row !! "case_id") as [[|c s]|]; cbn [snd]; set_solver.
Qed.

Lemma visit_unfold (rt : Js.Runtime) (errorsMap : gmap string (list ValidationError))
    (seen : gset string) (row : CaseRow) :
  visit rt (errorsMap, seen) row
  = (match fst (checkRow rt seen row) with
     | [] => errorsMap
     | _ => <[rowId row := fst (checkRow rt seen row)]> errorsMap
     end, snd (checkRow rt seen row)).
Proof. unfold visit. destruct (checkRow rt seen row) as [errors seen']. reflexivity. Qed.

Lemma foldl_visit_seen (rt : Js.Runtime) (rows : list CaseRow)
    (errorsMap : gmap string (list ValidationError)) (seen : gset string) :
  snd (foldl (visit rt) (errorsMap, seen) rows) = seen ∪ caseIdsOf rows.
Proof.
  revert errorsMap seen. induction rows as [|row rest IH]; intros errorsMap seen.
  - cbn. set_solver.
  - cbn [foldl]. rewrite visit_unfold, IH, checkRow_seen. cbn [caseIdsOf].
    destruct (row !! "case_id") as [[|c s]|]; set_solver.
Qed.

Lemma foldl_visit_absent (rt : Js.Runtime) (rows : list CaseRow)
    (errorsMap : gmap string (list ValidationError)) (seen : gset string) (k : string) :
  k ∉ rowId <$> rows ->
  fst (foldl (visit rt) (errorsMap, seen) rows) !! k = errorsMap !! k.
Proof.
  revert errorsMap seen. induction rows as [|row rest IH]; intros errorsMap seen Hk.
  - reflexivity.
  - cbn [foldl]. rewrite visit_unfold. rewrite fmap_cons in Hk.
    apply not_elem_of_cons in Hk as [Hne Hk]. rewrite (IH _ _ Hk).
    destruct (fst (checkRow rt seen row)); [reflexivity|].
    apply lookup_insert_ne. congruence.
Qed.

(** The entry of row [i], when no two rows share a row id: the errors that
    the loop collected for the row, if there are any. *)
Lemma foldl_visit_entry (rt : Js.Runtime) (rows : list CaseRow)
    (errorsMap : gmap string (list ValidationError)) (seen : gset string)
    (i : nat) (row : CaseRow) :
  NoDup (rowId <$> rows) -> rows !! i = Some row ->
  fst (foldl (visit rt) (errorsMap, seen) rows) !! rowId row
  = match fst (checkRow rt (seen ∪ caseIdsOf (take i rows)) row) with
    | [] => errorsMap !! rowId row
    | errors => Some errors
    end.
Proof.
  revert errorsMap seen i. induction rows as [|r rest IH]; intros errorsMap seen i Hnd Hi.
  - discriminate Hi.
  - rewrite fmap_cons in Hnd. apply NoDup_cons in Hnd as [Hfresh Hnd].
    cbn [foldl]. rewrite visit_unfold. destruct i as [|i].
    + injection Hi as ->. rewrite (foldl_visit_absent _ _ _ _ _ Hfresh).
      cbn [take caseIdsOf]. rewrite union_empty_r_L.
      destruct (fst (checkRow rt seen row)); [reflexivity|apply lookup_insert_eq].
    + cbn in Hi. rewrite (IH _ _ i Hnd Hi). rewrite checkRow_seen.
      assert (Hne : rowId r <> rowId row).
      { intros Heq. apply Hfresh. rewrite Heq. apply list_elem_of_fmap.
        exists row. split; [reflexivity|]. eapply list_elem_of_lookup_2. exact Hi. }
      replace (seen ∪ caseIdsOf [r] ∪ caseIdsOf (take i rest))
        with (seen ∪ caseIdsOf (take (S i) (r :: rest))).
      2:{ cbn [take caseIdsOf]. destruct (r !! "case_id") as [[|c s]|]; set_solver. }
      destruct (fst (checkRow rt (seen ∪ caseIdsOf (take (S i) (r :: rest))) row));
        [|reflexivity].
      destruct (fst (checkRow rt seen r)); [reflexivity|].
      apply lookup_insert_ne. exact Hne.
Qed.

Lemma hygienic_string : hygienic Zod.string_.
Proof.
  intros [v|] m; cbn; [intros H; inversion H|].
  intros ->%list_elem_of_singleton. discriminate.
Qed.

Lemma hygienic_string_min (n : nat) (message : string) :
  message <> duplicateMessage -> hygienic (Zod.string_min n message).
Proof.
  intros Hm [v|] m; unfold Zod.string_min.
  - destruct (Nat.ltb (String.length v) n); cbn.
    + intros ->%list_elem_of_singleton. exact Hm.
    + intros H. inversion H.
  - cbn. intros ->%list_elem_of_singleton. discriminate.
Qed.

Lemma hygienic_optional (inner : Zod.Schema) :
  hygienic inner -> hygienic (Zod.optional inner).
Proof.
  intros Hinner [v|] m; unfold Zod.optional; [apply Hinner|].
  cbn. intros H. inversion H.
Qed.

Lemma hygienic_default (d : string) (inner : Zod.Schema) :
  hygienic inner -> hygienic (Zod.default d inner).
Proof. intros Hinner [v|] m; unfold Zod.default; apply Hinner. Qed.

Lemma hygienic_refine (check : option string -> bool) (message : string)
    (inner : Zod.Schema) :
  message <> duplicateMessage -> hygienic inner -> hygienic (Zod.refine check message inner).
Proof.
  intros Hm Hinner input m. unfold Zod.refine.
  specialize (Hinner input m).
  destruct (Zod.status (inner input)); try exact Hinner;
    (destruct (check (Zod.value (inner input))); [exact Hinner|]);
    cbn [Zod.issues]; intros [H| ->%list_elem_of_singleton]%elem_of_app; auto.
Qed.

Lemma hygienic_enum (values : list string) (errorMap : option string) :
  (forall message, errorMap = Some message -> message <> duplicateMessage) ->
  hygienic (Zod.enum values errorMap).
Proof.
  intros Hmap input m. unfold Zod.enum.
  assert (Hreq : from_option id "Required" errorMap <> duplicateMessage).
  { destruct errorMap as [message|]; cbn; [apply Hmap; reflexivity|discriminate]. }
  destruct input as [v|]; [destruct (bool_decide (v ∈ values))|]; cbn [Zod.issues Zod.OK Zod.INVALID].
  - intros H. inversion H.
  - intros ->%list_elem_of_singleton.
    destruct errorMap as [message|]; cbn; [apply Hmap; reflexivity|discriminate].
  - intros ->%list_elem_of_singleton. exact Hreq.
Qed.

Lemma hygienic_caseSchema (rt : Js.Runtime) :
  Forall (fun entry => hygienic (snd entry)) (caseSchema rt).
Proof.
  unfold caseSchema.
  repeat apply List.Forall_cons; try apply List.Forall_nil; cbn [snd];
    repeat first
      [ apply hygienic_string
      | apply hygienic_string_min; discriminate
      | apply hygienic_refine; [discriminate|]
      | apply hygienic_optional
      | apply hygienic_default
      | apply hygienic_enum; intros message [= <-]; discriminate
      | apply hygienic_enum; intros message [=] ].
Qed.

Lemma parse_issue (shape : list (string * Zod.Schema)) (data : gmap string string)
    (issue : Zod.Issue) :
  issue ∈ concat (map (fun '(k, schema) =>
                         map (fun m => {| Zod.path := k; Zod.message := m |})
                             (Zod.issues (schema (data !! k))))
                      shape) ->
  exists (k : string) (schema : Zod.Schema),
    (k, schema) ∈ shape /\ Zod.message issue ∈ Zod.issues (schema (data !! k)).
Proof.
  induction shape as [|[k schema] shape IH]; cbn [map concat].
  - intros H. inversion H.
  - intros [H|H]%elem_of_app.
    + apply list_elem_of_fmap in H as (m & -> & Hm).
      exists k, schema. split; [left|exact Hm].
    + destruct (IH H) as (k' & schema' & Hin & Hm).
      exists k', schema'. split; [right; exact Hin|exact Hm].
Qed.

Lemma parse_thrown (shape : list (string * Zod.Schema)) (data : gmap string string)
    (issues : list Zod.Issue) (issue : Zod.Issue) :
  Zod.parse shape data = inr issues -> issue ∈ issues ->
  exists (k : string) (schema : Zod.Schema),
    (k, schema) ∈ shape /\ Zod.message issue ∈ Zod.issues (schema (data !! k)).
Proof.
  unfold Zod.parse. intros Hparse Hin. apply parse_issue.
  destruct (concat _) as [|issue0 found]; [discriminate Hparse|].
  injection Hparse as <-. exact Hin.
Qed.

(** The schema never reports the duplicate error: that one comes from
    [validateAllRows] alone. *)
Lemma validateRow_messages (rt : Js.Runtime) (row : CaseRow) (e : ValidationError) :
  e ∈ validateRow rt row -> message e <> duplicateMessage.
Proof.
  unfold validateRow.
  destruct (Zod.parse (caseSchema rt) row) as [|issues] eqn:Hparse; intros He.
  - inversion He.
  - apply list_elem_of_fmap in He as (issue & -> & Hin). cbn [message].
    destruct (parse_thrown _ _ _ _ Hparse Hin) as (k & schema & Hshape & Hm).
    pose proof (hygienic_caseSchema rt) as Hall.
    rewrite Forall_forall in Hall. exact (Hall (k, schema) Hshape _ _ Hm).
Qed.

(** Whether [checkRow] appends the duplicate error to row [i]. *)
Lemma duplicatePart_spec (rows : list CaseRow) (i : nat) (row : CaseRow) :
  (repeatsEarlier rows i row
   /\ exists caseId, carries row caseId
        /\ duplicatePart (caseIdsOf (take i rows)) row = [duplicateError caseId])
  \/ (~ repeatsEarlier rows i row /\ duplicatePart (caseIdsOf (take i rows)) row = []).
Proof.
  unfold duplicatePart.
  destruct (row !! "case_id") as [[|c s]|] eqn:Hrow.
  - right. split; [|reflexivity].
    intros (j & first & caseId & _ & _ & _ & [Hc Hne]).
    rewrite Hrow in Hc. injection Hc as <-. contradiction.
  - assert (Hdup : String c s ∈ caseIdsOf (take i rows) <-> repeatsEarlier rows i row).
    { rewrite elem_of_caseIdsOf. split.
      - intros (first & Hin & Hfirst). apply elem_of_take in Hin as (j & Hj & Hlt).
        exists j, first, (String c s).
        split; [exact Hlt|]. split; [exact Hj|]. split; [exact Hfirst|].
        split; [exact Hrow|discriminate].
      - intros (j & first & caseId & Hlt & Hj & Hfirst & [Hc _]).
        rewrite Hrow in Hc. injection Hc as <-.
        exists first. split; [|exact Hfirst]. apply elem_of_take. eauto. }
    destruct (bool_decide_reflect (String c s ∈ caseIdsOf (take i rows))) as [Hin|Hnin].
    + left. split; [apply Hdup; exact Hin|].
      exists (String c s). split; [split; [exact Hrow|discriminate]|reflexivity].
    + right. split; [rewrite <- Hdup; exact Hnin|reflexivity].
  - right. split; [|reflexivity].
    intros (j & first & caseId & _ & _ & _ & [Hc _]). rewrite Hrow in Hc. discriminate Hc.
Qed.

Lemma collected_errors (rt : Js.Runtime) (rows : list CaseRow) (i : nat) (row : CaseRow) :
  collected rt rows i row
  = validateRow rt row ++ duplicatePart (caseIdsOf (take i rows)) row.
Proof.
  unfold collected. rewrite foldl_visit_seen, union_empty_l_L. apply checkRow_errors.
Qed.

(** C7, for rows with pairwise distinct row ids, on the map that
    [validateAllRows] returns. A row that repeats no earlier row (so the
    first row that carries a case identifier) has its field errors as its
    entry, none of which is the duplicate-within-file error. Every later row
    that carries the same identifier has as its entry its field errors
    followed by that error, on [case_id] and with the identifier as value.
    A row has no entry at all exactly when it has zero errors: no field
    error, and no earlier row with its identifier. *)
Theorem validateAllRows_duplicates (rt : Js.Runtime) (rows : list CaseRow)
    (i : nat) (row : CaseRow) :
  NoDup (rowId <$> rows) ->
  rows !! i = Some row ->
  (~ repeatsEarlier rows i row ->
   validateAllRows rt rows !! rowId row
   = match validateRow rt row with
     | [] => None
     | errors => Some errors
     end
   /\ forall e : ValidationError,
        e ∈ validateRow rt row -> message e <> "Duplicate case ID in file")
  /\ (forall caseId : string,
        carries row caseId -> repeatsEarlier rows i row ->
        validateAllRows rt rows !! rowId row
        = Some (validateRow rt row
                ++ [{| field := "case_id"; message := "Duplicate case ID in file";
                       value := Some caseId; suggestion := None |}]))
  /\ (validateAllRows rt rows !! rowId row = None
      <-> validateRow rt row = [] /\ ~ repeatsEarlier rows i row).
Proof.
  intros Hnd Hi.
  assert (Hentry : validateAllRows rt rows !! rowId row
                   = match collected rt rows i row with
                     | [] => None
                     | errors => Some errors
                     end).
  { unfold validateAllRows, collected.
    rewrite (foldl_visit_entry rt rows ∅ ∅ i row Hnd Hi), foldl_visit_seen, lookup_empty.
    reflexivity. }
  rewrite Hentry, collected_errors.
  destruct (duplicatePart_spec rows i row)
    as [(Hlater & caseId' & [Hc' _] & ->)|(Hfirst & ->)].
  - assert (Hsome : forall errors : list ValidationError,
               match errors ++ [duplicateError caseId'] with
               | [] => None
               | found => Some found
               end = Some (errors ++ [duplicateError caseId'])).
    { intros [|e errors]; reflexivity. }
    rewrite Hsome. split; [intros Hfirst; contradiction|]. split.
    + intros caseId [Hc _] _. rewrite Hc in Hc'. injection Hc' as <-. reflexivity.
    + split; [discriminate|]. intros [_ Hfirst]. contradiction.
  - rewrite app_nil_r. split; [|split].
    + intros _. split; [reflexivity|]. intros e. apply validateRow_messages.
    + intros caseId _ Hlater. contradiction.
    + destruct (validateRow rt row) as [|e errors]; split;
        [intros _; split; [reflexivity|exact Hfirst] | reflexivity
        | discriminate | intros [He _]; discriminate He].
Qed.

Lemma validateAllRows_duplicates_witness :
  validateAllRows Examples.runtime Examples.twins !! rowId Examples.twin
  = Some [{| field := "case_id"; message := "Duplicate case ID in file";
             value := Some "C-1001"; suggestion := None |}]
  /\ validateAllRows Examples.runtime Examples.twins !! rowId Examples.imported = None.
Proof.
  assert (Hnd : NoDup (rowId <$> Examples.twins))
    by (apply (bool_decide_unpack (NoDup (rowId <$> Examples.twins))); vm_compute; exact I).
  assert (Hfirst : carries Examples.imported "C-1001")
    by (split; [vm_compute; reflexivity|discriminate]).
  assert (Htwin : carries Examples.twin "C-1001")
    by (split; [vm_compute; reflexivity|discriminate]).
  assert (Hvalid : validateRow Examples.runtime Examples.twin = [])
    by (vm_compute; reflexivity).
  split.
  - destruct (validateAllRows_duplicates Examples.runtime Examples.twins 1 Examples.twin
                Hnd eq_refl) as (_ & Hlater & _).
    rewrite (Hlater "C-1001" Htwin), Hvalid; [reflexivity|].
    exists 0%nat, Examples.imported, "C-1001".
    split; [lia|]. split; [reflexivity|]. split; assumption.
  - apply (validateAllRows_duplicates Examples.runtime Examples.twins 0 Examples.imported
             Hnd eq_refl).
    split; [vm_compute; reflexivity|].
    intros (j & _ & _ & Hlt & _). lia.
Defined.

(** C7 as it is stated, for every row list, fails on rows that share a row
    id, the map being keyed by [row._id || '']. Of two rows without a row
    id that carry the same identifier, the first one has zero errors and
    repeats no earlier row, and yet the map holds the duplicate error under
    its id. And a well-formed row that shares its row id with an erroneous
    row of another case has the errors of that row as its entry. *)
Lemma validateAllRows_shared_row_id :
  (Examples.unnamedTwins !! 0%nat = Some Examples.unnamed
   /\ validateRow Examples.runtime Examples.unnamed = []
   /\ ~ repeatsEarlier Examples.unnamedTwins 0 Examples.unnamed
   /\ validateAllRows Examples.runtime Examples.unnamedTwins !! rowId Examples.unnamed
      = Some [{| field := "case_id"; message := "Duplicate case ID in file";
                 value := Some "C-1001"; suggestion := None |}])
  /\ (Examples.homonyms !! 1%nat = Some Examples.imported
      /\ validateRow Examples.runtime Examples.imported = []
      /\ ~ repeatsEarlier Examples.homonyms 1 Examples.imported
      /\ validateAllRows Examples.runtime Examples.homonyms !! rowId Examples.imported
         <> None).
Proof.
  split.
  - split; [reflexivity|]. split; [vm_compute; reflexivity|]. split.
    + intros (j & _ & _ & Hlt & _). lia.
    + vm_compute. reflexivity.
  - split; [reflexivity|]. split; [vm_compute; reflexivity|]. split.
    + intros (j & first & caseId & Hlt & Hj & [Hfirst Hne] & _).
      destruct j as [|j]; [|lia]. injection Hj as <-.
      vm_compute in Hfirst. injection Hfirst as <-. contradiction.
    + vm_compute. discriminate.
Qed.

End ValidationFacts.

(** ** Row statuses *)

Section ImportStoreFacts.

Import Validation ImportStore.

Lemma setValidationErrors_lookup (errors : gmap string (list ValidationError))
    (data : list CaseRow) (statuses : gmap string RowStatus) (k : string) :
  foldl (fun m row => <[rowId row := statusFor errors (rowId row)]> m) statuses data !! k
  = if decide (k ∈ rowId <$> data) then Some (statusFor errors k) else statuses !! k.
Proof.
  revert statuses. induction data as [|row data IH]; intros statuses; cbn [foldl].
  - rewrite decide_False; [reflexivity|]. cbn. apply not_elem_of_nil.
  - rewrite IH. rewrite fmap_cons.
    destruct (decide (k ∈ rowId <$> data)) as [Hin|Hout].
    + rewrite decide_True; [reflexivity|]. apply elem_of_cons. right. exact Hin.
    + destruct (decide (k = rowId row)) as [->|Hne].
      * rewrite lookup_insert_eq. rewrite decide_True; [reflexivity|]. apply elem_of_cons. left.
        reflexivity.
      * rewrite lookup_insert_ne by congruence. rewrite decide_False; [reflexivity|].
        intros [?|?]%elem_of_cons; contradiction.
Qed.

(** C2, as the code has it: a revalidation pass overwrites the status of
    every row of the current dataset, whatever it was before ([submitting],
    [success] and [failed] included), with [invalid] when the validation
    result holds errors for the row and with [valid] otherwise. *)
Theorem setValidationErrors_overwrites (errors : gmap string (list ValidationError))
    (st : ImportState) (row : CaseRow) :
  row ∈ mappedData st ->
  rowStatuses (setValidationErrors errors st) !! rowId row
  = Some (if hasErrors errors (rowId row) then invalid else valid).
Proof.
  intros Hin. unfold setValidationErrors. cbn [rowStatuses].
  rewrite setValidationErrors_lookup. rewrite decide_True; [reflexivity|].
  apply list_elem_of_fmap. exists row. split; [reflexivity|exact Hin].
Qed.

(** Rows outside the dataset keep their status. *)
Lemma setValidationErrors_other (errors : gmap string (list ValidationError))
    (st : ImportState) (k : string) :
  k ∉ rowId <$> mappedData st ->
  rowStatuses (setValidationErrors errors st) !! k = rowStatuses st !! k.
Proof.
  intros Hout. unfold setValidationErrors. cbn [rowStatuses].
  rewrite setValidationErrors_lookup. rewrite decide_False; [reflexivity|exact Hout].
Qed.

End ImportStoreFacts.

Section ImportStoreExamples.

Import Validation ImportStore Examples.

Lemma setValidationErrors_overwrites_witness :
  imported ∈ mappedData afterImport
  /\ rowStatuses (setValidationErrors ∅ afterImport) !! rowId imported = Some valid.
Proof.
  assert (Hin : imported ∈ mappedData afterImport)
    by (apply list_elem_of_singleton; reflexivity).
  split; [exact Hin|].
  rewrite (setValidationErrors_overwrites ∅ afterImport imported Hin). reflexivity.
Defined.

Lemma setValidationErrors_other_witness :
  rowStatuses (setValidationErrors ∅ (updateRowStatus "row-9" failed afterImport)) !! "row-9"
  = Some failed.
Proof.
  rewrite (setValidationErrors_other ∅ (updateRowStatus "row-9" failed afterImport) "row-9").
  - vm_compute. reflexivity.
  - cbn [updateRowStatus mappedData afterImport]. replace (rowId <$> [imported]) with ["row-0"] by (vm_compute; reflexivity).
    intros H. apply list_elem_of_singleton in H. discriminate H.
Defined.

(** C2, counterexample: a row whose status is [success] is [valid] again
    after a revalidation pass. *)
Lemma revalidate_reverts_success :
  ~ (forall (rt : Js.Runtime) (st : ImportState) (k : string) (s : RowStatus),
       rowStatuses st !! k = Some s ->
       s = submitting \/ s = success \/ s = failed ->
       rowStatuses (revalidate rt st) !! k = Some s).
Proof.
  intros H.
  specialize (H Examples.runtime afterImport "row-0" success eq_refl (or_intror (or_introl eq_refl))).
  vm_compute in H. discriminate H.
Qed.

End ImportStoreExamples.

(** ** Chunked submission *)

Section ImportServiceFacts.

Import ImportService ValidatePage Vocabulary.
Local Open Scope Z_scope.

Lemma createAll_importJob (job : ImportJob) (userId : string) (start k : Z)
    (todo : list CaseData) (db : Prisma) (result : BatchResult) :
  importJob (fst (createAll job userId start k todo db result)) = importJob db.
Proof.
  revert k db result. induction todo as [|caseData todo IH]; intros k db result; cbn [createAll].
  - reflexivity.
  - unfold case_create. destruct (case db !! d_caseId caseData); rewrite IH; reflexivity.
Qed.

Lemma processBatch_accepted (rt : Js.Runtime) (db : Prisma) (jobId : string)
    (dto : BatchImportDto) (userId : string) (job : ImportJob) :
  importJob db !! jobId = Some job ->
  status job <> COMPLETED -> status job <> FAILED ->
  exists (db' : Prisma) (result : BatchResult),
    processBatch rt db jobId dto userId = (db', inr result)
    /\ importJob db' !! jobId = Some (progress job dto result job).
Proof.
  intros Hjob Hc Hf. unfold processBatch. rewrite Hjob.
  rewrite (bool_decide_eq_false_2 _ Hc), (bool_decide_eq_false_2 _ Hf). cbn [orb].
  destruct (prepareAll rt jobId userId (startIndex dto) 0 (rows dto) _ []) as [result0 creations].
  match goal with
  | |- context [createAll ?j ?u ?s ?k ?t ?d ?r] =>
      pose proof (createAll_importJob j u s k t d r) as Hkeep;
      destruct (createAll j u s k t d r) as [db1 result]
  end.
  exists (importJob_update jobId (progress job dto result) db1), result.
  split; [reflexivity|].
  cbn [fst] in Hkeep. cbn [importJob_update importJob]. rewrite Hkeep.
  rewrite lookup_alter_eq.
  destruct (bool_decide (status job = PENDING)); cbn [importJob_update importJob].
  - rewrite lookup_alter_eq, Hjob. reflexivity.
  - rewrite Hjob. reflexivity.
Qed.

(** *** Accounting of a chunk *)

Lemma prepareAll_account (rt : Js.Runtime) (jobId userId : string) (start i : Z)
    (todo : list ImportRowDto) (result : BatchResult) (creations : list CaseData) :
  let out := prepareAll rt jobId userId start i todo result creations in
  success (fst out) = success result
  /\ failed (fst out) + Z.of_nat (length (snd out))
     = failed result + Z.of_nat (length creations) + Z.of_nat (length todo)
  /\ Z.of_nat (length (errors (fst out))) - failed (fst out)
     = Z.of_nat (length (errors result)) - failed result
  /\ failed result <= failed (fst out).
Proof.
  revert i result creations.
  induction todo as [|row rest IH]; intros i result creations; cbn [prepareAll].
  - cbn. lia.
  - destruct (prepare rt jobId userId row) as [message|caseData].
    + specialize (IH (i + 1) (fail result {| index := start + i;
                                             caseId := Js.orElse (Some (r_caseId row)) "unknown";
                                             error := message |}) creations).
      cbn zeta in IH. cbn [fail success failed errors] in IH.
      rewrite length_app in IH. cbn [length] in IH |- *. lia.
    + specialize (IH (i + 1) result (creations ++ [caseData])). cbn zeta in IH.
      rewrite length_app in IH. cbn [length] in IH |- *. lia.
Qed.

Lemma createAll_account (job : ImportJob) (userId : string) (start k : Z)
    (todo : list CaseData) (db : Prisma) (result : BatchResult) :
  let out := createAll job userId start k todo db result in
  success (snd out) + failed (snd out)
  = success result + failed result + Z.of_nat (length todo)
  /\ Z.of_nat (length (errors (snd out))) - failed (snd out)
     = Z.of_nat (length (errors result)) - failed result
  /\ success result <= success (snd out)
  /\ failed result <= failed (snd out).
Proof.
  revert k db result.
  induction todo as [|caseData rest IH]; intros k db result; cbn [createAll].
  - cbn. lia.
  - destruct (case_create db caseData) as [message|db1].
    + match goal with |- context [createAll _ _ _ _ _ ?d ?r] => specialize (IH (k + 1) d r) end.
      cbn zeta in IH. cbn [fail success failed errors] in IH.
      rewrite length_app in IH. cbn [length] in IH |- *. lia.
    + match goal with |- context [createAll _ _ _ _ _ ?d ?r] => specialize (IH (k + 1) d r) end.
      cbn zeta in IH. cbn [succeed success failed errors] in IH.
      cbn [length] in IH |- *. lia.
Qed.

(** What an accepted chunk returns, in terms of the two loops. *)
Lemma processBatch_result (rt : Js.Runtime) (db : Prisma) (jobId : string)
    (dto : BatchImportDto) (userId : string) (db' : Prisma) (result : BatchResult) :
  processBatch rt db jobId dto userId = (db', inr result) ->
  exists (job : ImportJob) (db0 : Prisma),
    importJob db !! jobId = Some job
    /\ result
       = snd (createAll job userId (startIndex dto) 0
                (snd (prepareAll rt jobId userId (startIndex dto) 0 (rows dto)
                        {| success := 0; failed := 0; errors := [] |} []))
                db0
                (fst (prepareAll rt jobId userId (startIndex dto) 0 (rows dto)
                        {| success := 0; failed := 0; errors := [] |} []))).
Proof.
  unfold processBatch. destruct (importJob db !! jobId) as [job|]; [|discriminate].
  destruct (bool_decide (status job = COMPLETED) || bool_decide (status job = FAILED));
    [discriminate|].
  destruct (prepareAll rt jobId userId (startIndex dto) 0 (rows dto) _ []) as [r0 creations].
  match goal with |- context [createAll ?j ?u ?s ?k ?t ?d ?r] =>
    destruct (createAll j u s k t d r) as [db1 r1] eqn:Hcreate; intros [= _ <-];
    exists j, d
  end.
  split; [reflexivity|]. cbn [fst snd]. rewrite Hcreate. reflexivity.
Qed.

(** Every row of an accepted chunk is counted once, as a success or as a
    failure, and every failure has its error record. *)
Lemma processBatch_accounting (rt : Js.Runtime) (db : Prisma) (jobId : string)
    (dto : BatchImportDto) (userId : string) (db' : Prisma) (result : BatchResult) :
  processBatch rt db jobId dto userId = (db', inr result) ->
  success result + failed result = Z.of_nat (length (rows dto))
  /\ Z.of_nat (length (errors result)) = failed result
  /\ 0 <= success result /\ 0 <= failed result.
Proof.
  intros (job & db0 & _ & ->)%processBatch_result.
  pose proof (prepareAll_account rt jobId userId (startIndex dto) 0 (rows dto)
                {| success := 0; failed := 0; errors := [] |} []) as Hp.
  cbn zeta in Hp. cbn [success failed errors length] in Hp.
  match goal with |- context [createAll ?j ?u ?s ?k ?t ?d ?r] =>
    pose proof (createAll_account j u s k t d r) as Hc
  end.
  cbn zeta in Hc. lia.
Qed.

(** *** Indexes of the error records *)

Lemma prepareAll_creations (rt : Js.Runtime) (jobId userId : string) (start i : Z)
    (todo : list ImportRowDto) (result : BatchResult) (creations : list CaseData) :
  snd (prepareAll rt jobId userId start i todo result creations)
  = creations ++ passed rt jobId userId todo.
Proof.
  revert i result creations.
  induction todo as [|row rest IH]; intros i result creations; cbn [prepareAll].
  - cbn. symmetry. apply app_nil_r.
  - unfold passed. cbn [omap list_omap]. fold (passed rt jobId userId rest).
    destruct (prepare rt jobId userId row) as [message|caseData]; rewrite IH.
    + reflexivity.
    + rewrite <- app_assoc. reflexivity.
Qed.

Lemma prepareAll_errors (rt : Js.Runtime) (jobId userId : string) (start i : Z)
    (todo : list ImportRowDto) (result : BatchResult) (creations : list CaseData)
    (e : RowError) :
  e ∈ errors (fst (prepareAll rt jobId userId start i todo result creations)) ->
  e ∈ errors result
  \/ exists (k : nat) (row : ImportRowDto),
       todo !! k = Some row
       /\ index e = start + i + Z.of_nat k
       /\ caseId e = Js.orElse (Some (r_caseId row)) "unknown"
       /\ prepare rt jobId userId row = inl (error e).
Proof.
  revert i result creations.
  induction todo as [|row rest IH]; intros i result creations; cbn [prepareAll].
  - intros H. left. exact H.
  - destruct (prepare rt jobId userId row) as [message|caseData] eqn:Hprep; intros H;
      apply IH in H as [H|(k & r & Hk & Hidx & Hid & Hr)].
    + cbn [fail errors] in H. apply elem_of_app in H as [H| ->%list_elem_of_singleton].
      * left. exact H.
      * right. exists 0%nat, row. cbn. repeat split; [lia|exact Hprep].
    + right. exists (S k), r. repeat split; try assumption. lia.
    + left. exact H.
    + right. exists (S k), r. repeat split; try assumption. lia.
Qed.

Lemma createAll_errors (job : ImportJob) (userId : string) (start k : Z)
    (todo : list CaseData) (db : Prisma) (result : BatchResult) (e : RowError) :
  e ∈ errors (snd (createAll job userId start k todo db result)) ->
  e ∈ errors result
  \/ exists (n : nat) (caseData : CaseData),
       todo !! n = Some caseData
       /\ index e = start + k + Z.of_nat n
       /\ caseId e = d_caseId caseData.
Proof.
  revert k db result.
  induction todo as [|caseData rest IH]; intros k db result; cbn [createAll].
  - intros H. left. exact H.
  - destruct (case_create db caseData) as [message|db1]; intros H;
      apply IH in H as [H|(n & d & Hn & Hidx & Hid)].
    + cbn [fail errors] in H. apply elem_of_app in H as [H| ->%list_elem_of_singleton].
      * left. exact H.
      * right. exists 0%nat, caseData. cbn. repeat split. lia.
    + right. exists (S n), d. repeat split; try assumption. lia.
    + left. exact H.
    + right. exists (S n), d. repeat split; try assumption. lia.
Qed.

(** Where the index of an error record comes from: a row that fails the
    checks of the service is recorded at its position in the chunk; a row
    that the store refuses is recorded at its position among the rows that
    passed the checks. *)
Lemma processBatch_error_indexes (rt : Js.Runtime) (db : Prisma) (jobId : string)
    (dto : BatchImportDto) (userId : string) (db' : Prisma) (result : BatchResult)
    (e : RowError) :
  processBatch rt db jobId dto userId = (db', inr result) ->
  e ∈ errors result ->
  (exists (k : nat) (row : ImportRowDto),
      rows dto !! k = Some row
      /\ index e = startIndex dto + Z.of_nat k
      /\ prepare rt jobId userId row = inl (error e))
  \/ (exists (n : nat) (caseData : CaseData),
        passed rt jobId userId (rows dto) !! n = Some caseData
        /\ index e = startIndex dto + Z.of_nat n
        /\ caseId e = d_caseId caseData).
Proof.
  intros (job & db0 & _ & ->)%processBatch_result He.
  apply createAll_errors in He as [He|(n & d & Hn & Hidx & Hid)].
  - left. apply prepareAll_errors in He as [He|(k & row & Hk & Hidx & _ & Hprep)].
    + inversion He.
    + exists k, row. repeat split; [exact Hk|lia|exact Hprep].
  - right. rewrite prepareAll_creations in Hn. cbn [app] in Hn.
    exists n, d. repeat split; [exact Hn|lia|exact Hid].
Qed.

Lemma passed_all (rt : Js.Runtime) (jobId userId : string) (rows : list ImportRowDto)
    (n : nat) (caseData : CaseData) :
  (forall row, row ∈ rows -> exists d, prepare rt jobId userId row = inr d) ->
  passed rt jobId userId rows !! n = Some caseData ->
  exists row, rows !! n = Some row /\ prepare rt jobId userId row = inr caseData.
Proof.
  revert n. induction rows as [|row rest IH]; intros n Hall Hn; [discriminate Hn|].
  destruct (Hall row ltac:(left)) as (d & Hd).
  unfold passed in Hn. cbn [omap list_omap] in Hn. rewrite Hd in Hn.
  fold (passed rt jobId userId rest) in Hn.
  destruct n as [|n]; cbn in Hn.
  - injection Hn as <-. exists row. split; [reflexivity|exact Hd].
  - apply IH; [|exact Hn]. intros r Hr. apply Hall. right. exact Hr.
Qed.

Lemma prepare_caseId (rt : Js.Runtime) (jobId userId : string) (row : ImportRowDto)
    (caseData : CaseData) :
  prepare rt jobId userId row = inr caseData -> d_caseId caseData = r_caseId row.
Proof.
  unfold prepare.
  destruct (_ || _); [discriminate|].
  destruct (Js.Date_getFullYear rt (r_dob row)); [|discriminate].
  destruct (negb _); [discriminate|]. intros [= <-]. reflexivity.
Qed.

(** When every row of the chunk passes the checks of the service, every
    error record has the absolute index of its row. *)
Lemma processBatch_error_indexes_prevalid (rt : Js.Runtime) (db : Prisma) (jobId : string)
    (dto : BatchImportDto) (userId : string) (db' : Prisma) (result : BatchResult)
    (e : RowError) :
  processBatch rt db jobId dto userId = (db', inr result) ->
  (forall row, row ∈ rows dto -> exists d, prepare rt jobId userId row = inr d) ->
  e ∈ errors result ->
  exists (k : nat) (row : ImportRowDto),
    rows dto !! k = Some row
    /\ index e = startIndex dto + Z.of_nat k
    /\ caseId e = r_caseId row.
Proof.
  intros (job & db0 & _ & ->)%processBatch_result Hall He.
  apply createAll_errors in He as [He|(n & d & Hn & Hidx & Hid)].
  - apply prepareAll_errors in He as [He|(k & row & Hk & _ & _ & Hprep)]; [inversion He|].
    destruct (Hall row) as (d & Hd); [eapply list_elem_of_lookup_2; exact Hk|].
    rewrite Hd in Hprep. discriminate Hprep.
  - rewrite prepareAll_creations in Hn. cbn [app] in Hn.
    destruct (passed_all _ _ _ _ _ _ Hall Hn) as (row & Hrow & Hprep).
    exists n, row. repeat split; [exact Hrow|lia|].
    rewrite Hid. exact (prepare_caseId _ _ _ _ _ Hprep).
Qed.

(** One accepted chunk, as far as the next chunk needs it. *)
Lemma processBatch_step (rt : Js.Runtime) (db : Prisma) (jobId userId : string)
    (job : ImportJob) (i : nat) (batch : list ImportRowDto) :
  importJob db !! jobId = Some job ->
  status job <> COMPLETED -> status job <> FAILED ->
  exists (db' : Prisma) (result : BatchResult) (job' : ImportJob),
    processBatch rt db jobId {| rows := batch; startIndex := Z.of_nat i |} userId
    = (db', inr result)
    /\ importJob db' !! jobId = Some job'
    /\ totalRows job' = totalRows job
    /\ processedRows job' = processedRows job + Z.of_nat (length batch)
    /\ status job'
       = if totalRows job <=? processedRows job + Z.of_nat (length batch)
         then COMPLETED else PROCESSING.
Proof.
  intros Hjob Hc Hf.
  destruct (processBatch_accepted rt db jobId {| rows := batch; startIndex := Z.of_nat i |}
              userId job Hjob Hc Hf) as (db' & result & Hrun & Hjob').
  exists db', result, (progress job {| rows := batch; startIndex := Z.of_nat i |} result job).
  repeat split; assumption || reflexivity.
Qed.

Lemma batchesFrom_enough {A : Type} (size : nat) (l : list A) (fuel1 fuel2 i : nat) :
  (1 <= size)%nat ->
  (length l <= i + fuel1 * size)%nat -> (length l <= i + fuel2 * size)%nat ->
  batchesFrom fuel1 size i l = batchesFrom fuel2 size i l.
Proof.
  intros Hsize. revert fuel2 i.
  induction fuel1 as [|fuel1 IH]; intros [|fuel2] i H1 H2; cbn [batchesFrom]; try reflexivity.
  - rewrite (proj2 (Nat.ltb_ge i (length l))) by lia. reflexivity.
  - rewrite (proj2 (Nat.ltb_ge i (length l))) by lia. reflexivity.
  - destruct (Nat.ltb i (length l)); [|reflexivity].
    f_equal. apply IH; lia.
Qed.

(** The loop of [handleSubmit] ends within the turns that [batches] grants
    it: more turns give the same chunks. *)
Lemma batches_enough {A : Type} (size : nat) (l : list A) (fuel : nat) :
  (1 <= size)%nat -> (length l <= fuel)%nat ->
  batchesFrom fuel size 0 l = batches size l.
Proof.
  intros Hsize Hfuel. unfold batches. apply batchesFrom_enough; [exact Hsize| |]; nia.
Qed.

Lemma batches_250 {A : Type} (l : list A) :
  length l = 250%nat ->
  batches batchSize l
  = [ (0%nat, take 100 l); (100%nat, take 100 (drop 100 l)); (200%nat, take 100 (drop 200 l)) ].
Proof.
  intros Hlen. unfold batches, batchSize.
  rewrite <- (batchesFrom_enough 100 l 3 (length l) 0) by lia.
  cbn [batchesFrom]. rewrite Hlen. reflexivity.
Qed.

(** C1: a chunk that [processBatch] accepts (the job exists and is neither
    completed nor failed) adds the number of its rows to [processedRows],
    its success count to [successCount] and its failed count to
    [failedCount], sets [lastProcessedIndex] to the absolute index of its
    last row, and leaves the job [COMPLETED] exactly when the new
    [processedRows] has reached [totalRows], and [PROCESSING] otherwise; and
    250 rows go out in three chunks starting at 0, 100 and 200, after which
    [processedRows] is 250 and the job is [COMPLETED]. *)
Theorem processBatch_progress :
  (forall (rt : Js.Runtime) (db : Prisma) (jobId : string) (dto : BatchImportDto)
          (userId : string) (job : ImportJob),
      importJob db !! jobId = Some job ->
      status job <> COMPLETED -> status job <> FAILED ->
      exists (db' : Prisma) (result : BatchResult) (job' : ImportJob),
        processBatch rt db jobId dto userId = (db', inr result)
        /\ importJob db' !! jobId = Some job'
        /\ processedRows job' = processedRows job + Z.of_nat (length (rows dto))
        /\ successCount job' = successCount job + success result
        /\ failedCount job' = failedCount job + failed result
        /\ lastProcessedIndex job' = startIndex dto + Z.of_nat (length (rows dto)) - 1
        /\ totalRows job' = totalRows job
        /\ (status job' = COMPLETED <-> totalRows job <= processedRows job')
        /\ (status job' = PROCESSING <-> processedRows job' < totalRows job))
  /\
  (forall (rt : Js.Runtime) (db : Prisma) (jobId userId : string) (job : ImportJob)
          (validRows : list ImportRowDto),
      importJob db !! jobId = Some job ->
      status job <> COMPLETED -> status job <> FAILED ->
      processedRows job = 0 -> totalRows job = 250 ->
      length validRows = 250%nat ->
      map fst (batches batchSize validRows) = [0; 100; 200]%nat
      /\ exists (db' : Prisma) (job' : ImportJob),
           submitAll rt jobId userId (batches batchSize validRows) db = (db', None)
           /\ importJob db' !! jobId = Some job'
           /\ processedRows job' = 250
           /\ status job' = COMPLETED).
Proof.
  split.
  - intros rt db jobId dto userId job Hjob Hc Hf.
    destruct (processBatch_accepted rt db jobId dto userId job Hjob Hc Hf)
      as (db' & result & Hrun & Hjob').
    exists db', result, (progress job dto result job).
    split; [exact Hrun|]. split; [exact Hjob'|].
    cbn [progress processedRows successCount failedCount lastProcessedIndex totalRows status].
    repeat (split; [reflexivity|]).
    destruct (Z.leb_spec (totalRows job) (processedRows job + Z.of_nat (length (rows dto))));
      split; split; intros; try reflexivity; try discriminate; lia.
  - intros rt db jobId userId job validRows Hjob Hc Hf Hzero Htotal Hlen.
    rewrite (batches_250 validRows Hlen). split; [reflexivity|].
    assert (H1 : length (take 100 validRows) = 100%nat) by (rewrite length_take; lia).
    assert (H2 : length (take 100 (drop 100 validRows)) = 100%nat)
      by (rewrite length_take, length_drop; lia).
    assert (H3 : length (take 100 (drop 200 validRows)) = 50%nat)
      by (rewrite length_take, length_drop; lia).
    destruct (processBatch_step rt db jobId userId job 0 (take 100 validRows) Hjob Hc Hf)
      as (db1 & r1 & job1 & Hrun1 & Hjob1 & Ht1 & Hp1 & Hs1).
    rewrite H1, Hzero, Htotal in *. cbn in Hs1, Hp1.
    destruct (processBatch_step rt db1 jobId userId job1 100 (take 100 (drop 100 validRows)) Hjob1
                ltac:(rewrite Hs1; discriminate) ltac:(rewrite Hs1; discriminate))
      as (db2 & r2 & job2 & Hrun2 & Hjob2 & Ht2 & Hp2 & Hs2).
    rewrite H2, Hp1, Ht1 in *. cbn in Hs2, Hp2.
    destruct (processBatch_step rt db2 jobId userId job2 200 (take 100 (drop 200 validRows)) Hjob2
                ltac:(rewrite Hs2; discriminate) ltac:(rewrite Hs2; discriminate))
      as (db3 & r3 & job3 & Hrun3 & Hjob3 & Ht3 & Hp3 & Hs3).
    rewrite H3, Hp2, Ht2 in *. cbn in Hs3, Hp3.
    exists db3, job3. cbn [submitAll]. rewrite Hrun1, Hrun2, Hrun3.
    repeat split; assumption.
Qed.

Lemma processBatch_progress_witness :
  exists (db' : Prisma) (job' : ImportJob),
    submitAll Examples.runtime "job-1" "user-1" (batches batchSize Examples.rows250)
      (Examples.store (Examples.job PENDING 250 0)) = (db', None)
    /\ importJob db' !! "job-1" = Some job'
    /\ processedRows job' = 250
    /\ status job' = COMPLETED.
Proof.
  refine (proj2 (proj2 processBatch_progress Examples.runtime
                   (Examples.store (Examples.job PENDING 250 0)) "job-1" "user-1"
                   (Examples.job PENDING 250 0) Examples.rows250 _ _ _ _ _ _)).
  - vm_compute. reflexivity.
  - discriminate.
  - discriminate.
  - reflexivity.
  - reflexivity.
  - vm_compute. reflexivity.
Defined.

(** C4, at a chunk whose first row fails the checks of the service and whose
    second row repeats a stored case: the error for the second row, at
    position 1 of the chunk that starts at index 0, is recorded with index
    0, the position of the row among the rows that passed the checks; the
    message is the one for duplicates. *)
Theorem processBatch_error_index :
  snd (processBatch Examples.runtime (Examples.store (Examples.job PROCESSING 250 0))
         "job-1" Examples.mixedChunk "user-1")
  = inr {| success := 1; failed := 2;
           errors := [ {| index := 0; caseId := "C-1"; error := "Missing required fields" |};
                       {| index := 0; caseId := "C-2"; error := "Duplicate case ID" |} ] |}.
Proof. vm_compute. reflexivity. Qed.

(** C3, at a completed job: [pauseImport] does not look at the status; it
    pauses the job and reports success, after which [resumeImport] sets the
    completed job to [PROCESSING]. *)
Theorem pauseImport_completed_job :
  exists db' : Prisma,
    pauseImport (Examples.store (Examples.job COMPLETED 250 250)) "job-1"
    = (db', inr {| p_message := "Import paused"; p_lastProcessedIndex := 249 |})
    /\ status <$> importJob db' !! "job-1" = Some PAUSED
    /\ exists db'' : Prisma,
         resumeImport db' "job-1"
         = (db'', inr {| s_message := "Import resumed"; s_lastProcessedIndex := 249;
                         s_remainingRows := 0 |})
         /\ status <$> importJob db'' !! "job-1" = Some PROCESSING.
Proof.
  eexists. split; [vm_compute; reflexivity|]. split; [vm_compute; reflexivity|].
  eexists. split; vm_compute; reflexivity.
Qed.

(** [pauseImport] succeeds on every job that exists, whatever its status. *)
Lemma pauseImport_any_status (db : Prisma) (jobId : string) (job : ImportJob) :
  importJob db !! jobId = Some job ->
  pauseImport db jobId
  = (importJob_update jobId (with_status PAUSED) db,
     inr {| p_message := "Import paused"; p_lastProcessedIndex := lastProcessedIndex job |})
  /\ importJob (importJob_update jobId (with_status PAUSED) db) !! jobId
     = Some (with_status PAUSED job).
Proof.
  intros Hjob. unfold pauseImport. rewrite Hjob. split; [reflexivity|].
  cbn [importJob_update importJob]. rewrite lookup_alter_eq, Hjob. reflexivity.
Qed.

(** [resumeImport] is refused from every status but [PAUSED]; from [PAUSED]
    it sets the job to [PROCESSING], keeps its counters, and reports
    [totalRows - processedRows] remaining rows. *)
Lemma resumeImport_spec (db : Prisma) (jobId : string) (job : ImportJob) :
  importJob db !! jobId = Some job ->
  (status job <> PAUSED ->
   resumeImport db jobId = (db, inl (BadRequestException "Import is not paused")))
  /\ (status job = PAUSED ->
      exists db' : Prisma,
        resumeImport db jobId
        = (db', inr {| s_message := "Import resumed";
                       s_lastProcessedIndex := lastProcessedIndex job;
                       s_remainingRows := totalRows job - processedRows job |})
        /\ importJob db' !! jobId = Some (with_status PROCESSING job)).
Proof.
  intros Hjob. unfold resumeImport. rewrite Hjob. split.
  - intros Hne. rewrite (bool_decide_eq_false_2 _ Hne). reflexivity.
  - intros Heq. rewrite (bool_decide_eq_true_2 _ Heq). cbn [negb].
    eexists. split; [reflexivity|].
    cbn [importJob_update importJob]. rewrite lookup_alter_eq, Hjob. reflexivity.
Qed.

Lemma pauseImport_any_status_witness :
  snd (pauseImport (Examples.store (Examples.job PROCESSING 250 100)) "job-1")
  = inr {| p_message := "Import paused"; p_lastProcessedIndex := 99 |}.
Proof.
  rewrite (proj1 (pauseImport_any_status (Examples.store (Examples.job PROCESSING 250 100))
                    "job-1" (Examples.job PROCESSING 250 100) ltac:(vm_compute; reflexivity))).
  reflexivity.
Defined.

Lemma resumeImport_spec_witness :
  exists db' : Prisma,
    resumeImport (Examples.store (Examples.job PAUSED 250 100)) "job-1"
    = (db', inr {| s_message := "Import resumed"; s_lastProcessedIndex := 99;
                   s_remainingRows := 150 |})
    /\ importJob db' !! "job-1" = Some (Examples.job PROCESSING 250 100).
Proof.
  exact (proj2 (resumeImport_spec (Examples.store (Examples.job PAUSED 250 100)) "job-1"
                  (Examples.job PAUSED 250 100) ltac:(vm_compute; reflexivity)) eq_refl).
Defined.

Lemma batches_enough_witness :
  batchesFrom 300 100 0 Examples.rows250 = batches 100 Examples.rows250.
Proof.
  apply (batches_enough 100 Examples.rows250 300); [lia|].
  replace (length Examples.rows250) with 250%nat by (vm_compute; reflexivity). lia.
Defined.

Lemma processBatch_accounting_witness :
  let result := {| success := 1; failed := 2;
                   errors := [ {| index := 0; caseId := "C-1"; error := "Missing required fields" |};
                               {| index := 0; caseId := "C-2"; error := "Duplicate case ID" |} ] |} in
  success result + failed result = Z.of_nat (length (rows Examples.mixedChunk))
  /\ Z.of_nat (length (errors result)) = failed result
  /\ 0 <= success result /\ 0 <= failed result.
Proof.
  refine (processBatch_accounting Examples.runtime
            (Examples.store (Examples.job PROCESSING 250 0)) "job-1" Examples.mixedChunk "user-1"
            (fst (processBatch Examples.runtime (Examples.store (Examples.job PROCESSING 250 0))
                    "job-1" Examples.mixedChunk "user-1")) _ _).
  vm_compute. reflexivity.
Defined.

Lemma processBatch_error_indexes_witness :
  let e := {| index := 0; caseId := "C-2"; error := "Duplicate case ID" |} in
  (exists (k : nat) (row : ImportRowDto),
      rows Examples.mixedChunk !! k = Some row
      /\ index e = startIndex Examples.mixedChunk + Z.of_nat k
      /\ prepare Examples.runtime "job-1" "user-1" row = inl (error e))
  \/ (exists (n : nat) (caseData : CaseData),
        passed Examples.runtime "job-1" "user-1" (rows Examples.mixedChunk) !! n = Some caseData
        /\ index e = startIndex Examples.mixedChunk + Z.of_nat n
        /\ caseId e = d_caseId caseData).
Proof.
  refine (processBatch_error_indexes Examples.runtime
            (Examples.store (Examples.job PROCESSING 250 0)) "job-1" Examples.mixedChunk "user-1"
            (fst (processBatch Examples.runtime (Examples.store (Examples.job PROCESSING 250 0))
                    "job-1" Examples.mixedChunk "user-1"))
            {| success := 1; failed := 2;
               errors := [ {| index := 0; caseId := "C-1"; error := "Missing required fields" |};
                           {| index := 0; caseId := "C-2"; error := "Duplicate case ID" |} ] |}
            _ _ _).
  - vm_compute. reflexivity.
  - right. left.
Defined.

Lemma processBatch_error_indexes_prevalid_witness :
  let e := {| index := 100; caseId := "C-2"; error := "Duplicate case ID" |} in
  exists (k : nat) (row : ImportRowDto),
    rows Examples.cleanChunk !! k = Some row
    /\ index e = startIndex Examples.cleanChunk + Z.of_nat k
    /\ caseId e = r_caseId row.
Proof.
  refine (processBatch_error_indexes_prevalid Examples.runtime
            (Examples.store (Examples.job PROCESSING 250 100)) "job-1" Examples.cleanChunk "user-1"
            (fst (processBatch Examples.runtime (Examples.store (Examples.job PROCESSING 250 100))
                    "job-1" Examples.cleanChunk "user-1"))
            {| success := 1; failed := 1;
               errors := [ {| index := 100; caseId := "C-2"; error := "Duplicate case ID" |} ] |}
            _ _ _ _).
  - vm_compute. reflexivity.
  - intros row Hrow. cbn [rows Examples.cleanChunk] in Hrow.
    apply elem_of_cons in Hrow as [->|Hrow]; [eexists; vm_compute; reflexivity|].
    apply list_elem_of_singleton in Hrow as ->. eexists. vm_compute. reflexivity.
  - left.
Defined.

End ImportServiceFacts.

(** ** Chunked submission: the tables and the whole file *)

Section StoreFacts.

Import ImportService ValidatePage Vocabulary.
Local Open Scope Z_scope.

(** What the second loop does to the tables. *)
Lemma createAll_tables (job : ImportJob) (userId : string) (start k : Z)
    (todo : list CaseData) (db : Prisma) (result : BatchResult) :
  let out := createAll job userId start k todo db result in
  (forall key c, case db !! key = Some c -> case (fst out) !! key = Some c)
  /\ Z.of_nat (size (case (fst out)))
     = Z.of_nat (size (case db)) + (success (snd out) - success result)
  /\ (exists added : list AuditLog,
        auditLog (fst out) = auditLog db ++ added
        /\ Z.of_nat (length added) = success (snd out) - success result
        /\ Forall (fun a => a_action a = "IMPORT" /\ a_source a = fileName job
                            /\ a_userId a = userId
                            /\ is_Some (case (fst out) !! a_caseId a)) added)
  /\ (forall d, d ∈ todo -> is_Some (case (fst out) !! d_caseId d)).
Proof.
  revert k db result.
  induction todo as [|caseData rest IH]; intros k db result; cbn [createAll].
  - cbn [fst snd]. split; [auto|]. split; [lia|]. split.
    + exists []. rewrite app_nil_r. split; [reflexivity|]. split; [cbn; lia|constructor].
    + intros d Hd. inversion Hd.
  - unfold case_create. destruct (case db !! d_caseId caseData) as [old|] eqn:Hold.
    + match goal with |- context [createAll _ _ _ _ _ ?d ?r] =>
        specialize (IH (k + 1) d r) end.
      cbn zeta in IH. cbn [fail success] in IH.
      destruct IH as (Hkeep & Hsize & Hlog & Hall).
      split; [exact Hkeep|]. split; [exact Hsize|]. split; [exact Hlog|].
      intros d [->|Hd]%elem_of_cons; [|exact (Hall d Hd)].
      exists old. apply Hkeep. exact Hold.
    + match goal with |- context [createAll _ _ _ _ _ ?d ?r] =>
        specialize (IH (k + 1) d r) end.
      cbn zeta in IH. cbn [succeed success auditLog_create case auditLog] in IH.
      destruct IH as (Hkeep & Hsize & (added & Hlog & Hlen & Hadded) & Hall).
      split; [|split; [|split]].
      * intros key c Hkey. apply Hkeep. rewrite lookup_insert_ne; [exact Hkey|].
        intros <-. rewrite Hold in Hkey. discriminate Hkey.
      * rewrite Hsize, map_size_insert_None by exact Hold. lia.
      * eexists (_ :: added). rewrite Hlog, <- app_assoc. split; [reflexivity|].
        split; [cbn [length]; lia|]. apply List.Forall_cons; [|exact Hadded].
        cbn [a_action a_source a_userId a_caseId]. repeat split.
        exists caseData. apply Hkeep. apply lookup_insert_eq.
      * intros d [->|Hd]%elem_of_cons; [|exact (Hall d Hd)].
        exists caseData. apply Hkeep. apply lookup_insert_eq.
Qed.

(** The second loop on a table that holds every case of the chunk already:
    nothing is created. *)
Lemma createAll_present (job : ImportJob) (userId : string) (start k : Z)
    (todo : list CaseData) (db : Prisma) (result : BatchResult) :
  (forall d, d ∈ todo -> is_Some (case db !! d_caseId d)) ->
  let out := createAll job userId start k todo db result in
  fst out = db /\ success (snd out) = success result.
Proof.
  revert k result.
  induction todo as [|caseData rest IH]; intros k result Hall; cbn [createAll].
  - split; reflexivity.
  - unfold case_create. destruct (Hall caseData ltac:(left)) as (old & ->).
    match goal with |- context [createAll _ _ _ _ _ _ ?r] =>
      destruct (IH (k + 1) r) as (Hdb & Hsucc) end.
    { intros d Hd. apply Hall. right. exact Hd. }
    split; [exact Hdb|]. rewrite Hsucc. reflexivity.
Qed.

(** An accepted chunk, table by table. *)
Lemma processBatch_unfold (rt : Js.Runtime) (db : Prisma) (jobId : string)
    (dto : BatchImportDto) (userId : string) (db' : Prisma) (result : BatchResult) :
  processBatch rt db jobId dto userId = (db', inr result) ->
  exists (job : ImportJob) (db0 : Prisma) (r0 : BatchResult),
    importJob db !! jobId = Some job
    /\ status job <> COMPLETED /\ status job <> FAILED
    /\ case db0 = case db /\ auditLog db0 = auditLog db
    /\ success r0 = 0
    /\ failed r0 + Z.of_nat (length (passed rt jobId userId (rows dto)))
       = Z.of_nat (length (rows dto))
    /\ Z.of_nat (length (errors r0)) = failed r0
    /\ (let out := createAll job userId (startIndex dto) 0
                     (passed rt jobId userId (rows dto)) db0 r0 in
        result = snd out /\ case db' = case (fst out) /\ auditLog db' = auditLog (fst out))
    /\ importJob db' !! jobId = Some (progress job dto result job)
    /\ (forall other, other <> jobId -> importJob db' !! other = importJob db !! other).
Proof.
  unfold processBatch. destruct (importJob db !! jobId) as [job|] eqn:Hjob; [|discriminate].
  destruct (bool_decide (status job = COMPLETED)) eqn:Hc; [discriminate|].
  destruct (bool_decide (status job = FAILED)) eqn:Hf; [discriminate|]. cbn [orb].
  apply bool_decide_eq_false_1 in Hc, Hf.
  pose proof (prepareAll_creations rt jobId userId (startIndex dto) 0 (rows dto)
                {| success := 0; failed := 0; errors := [] |} []) as Hcre.
  pose proof (prepareAll_account rt jobId userId (startIndex dto) 0 (rows dto)
                {| success := 0; failed := 0; errors := [] |} []) as Hacc.
  cbn zeta in Hacc. destruct Hacc as (Hsucc & Hfail & Herrs & _).
  destruct (prepareAll rt jobId userId (startIndex dto) 0 (rows dto) _ []) as [r0 creations].
  cbn [fst snd app success failed errors length] in Hcre, Hsucc, Hfail, Herrs. subst creations.
  set (db0 := if bool_decide (status job = PENDING)
              then importJob_update jobId (with_status PROCESSING) db else db).
  pose proof (createAll_importJob job userId (startIndex dto) 0
                (passed rt jobId userId (rows dto)) db0 r0) as Hjobs.
  destruct (createAll job userId (startIndex dto) 0 (passed rt jobId userId (rows dto)) db0 r0)
    as [db1 r1] eqn:Hcreate.
  intros [= <- <-]. exists job, db0, r0. cbn [fst snd] in Hjobs |- *.
  assert (Hdb0 : case db0 = case db /\ auditLog db0 = auditLog db
                 /\ importJob db0 !! jobId
                    = Some (if bool_decide (status job = PENDING)
                            then with_status PROCESSING job else job)
                 /\ forall other, other <> jobId -> importJob db0 !! other = importJob db !! other).
  { subst db0. destruct (bool_decide (status job = PENDING)).
    - cbn [importJob_update case auditLog importJob]. rewrite lookup_alter_eq, Hjob.
      repeat split. intros other Hother. apply lookup_alter_ne. congruence.
    - repeat split. exact Hjob. }
  destruct Hdb0 as (Hcase0 & Hlog0 & Hjob0 & Hother0).
  split; [reflexivity|]. split; [exact Hc|]. split; [exact Hf|].
  split; [exact Hcase0|]. split; [exact Hlog0|]. split; [exact Hsucc|].
  split; [lia|]. split; [lia|]. split; [|split].
  - cbn zeta. rewrite Hcreate. cbn [fst snd importJob_update case auditLog].
    repeat split.
  - cbn [importJob_update importJob]. rewrite Hjobs, lookup_alter_eq, Hjob0.
    destruct (bool_decide (status job = PENDING)); reflexivity.
  - intros other Hother. cbn [importJob_update importJob].
    rewrite Hjobs, lookup_alter_ne by congruence. apply Hother0. exact Hother.
Qed.

(** A chunk that [processBatch] rejects changes nothing. *)
Lemma processBatch_rejected (rt : Js.Runtime) (db : Prisma) (jobId : string)
    (dto : BatchImportDto) (userId : string) (db' : Prisma) (e : Exception) :
  processBatch rt db jobId dto userId = (db', inl e) -> db' = db.
Proof.
  unfold processBatch. destruct (importJob db !! jobId) as [job|]; [|congruence].
  destruct (_ || _); [congruence|].
  destruct (prepareAll _ _ _ _ _ _ _ _) as [r0 creations].
  destruct (createAll _ _ _ _ _ _ _) as [db1 r1]. discriminate.
Qed.

(** What a call of [processBatch] does to the case table and to the audit
    log. A rejected chunk changes nothing. An accepted chunk never replaces
    or removes a stored case; the case table grows by as many cases as the
    result counts successes, and the audit log grows by as many entries,
    each an [IMPORT] entry of the caller that names a stored case and has the
    file of the job as its source. *)
Theorem processBatch_tables (rt : Js.Runtime) (db : Prisma) (jobId : string)
    (dto : BatchImportDto) (userId : string) :
  let db' := fst (processBatch rt db jobId dto userId) in
  match snd (processBatch rt db jobId dto userId) with
  | inl _ => db' = db
  | inr result =>
      (forall key c, case db !! key = Some c -> case db' !! key = Some c)
      /\ Z.of_nat (size (case db')) = Z.of_nat (size (case db)) + success result
      /\ exists added : list AuditLog,
           auditLog db' = auditLog db ++ added
           /\ Z.of_nat (length added) = success result
           /\ Forall (fun a => a_action a = "IMPORT" /\ a_userId a = userId
                               /\ Some (a_source a) = fileName <$> importJob db !! jobId
                               /\ is_Some (case db' !! a_caseId a)) added
  end.
Proof.
  destruct (processBatch rt db jobId dto userId) as [db' [e|result]] eqn:Hrun; cbn [fst snd].
  - exact (processBatch_rejected _ _ _ _ _ _ _ Hrun).
  - apply processBatch_unfold in Hrun
      as (job & db0 & r0 & Hjob & _ & _ & Hcase0 & Hlog0 & Hr0 & _ & _ & Hout & _).
    cbn zeta in Hout. destruct Hout as (-> & -> & ->).
    destruct (createAll_tables job userId (startIndex dto) 0 (passed rt jobId userId (rows dto))
                db0 r0) as (Hkeep & Hsize & (added & Hlog & Hlen & Hadded) & _).
    rewrite Hcase0 in Hkeep, Hsize. rewrite Hlog0 in Hlog. rewrite Hr0 in Hsize, Hlen.
    split; [exact Hkeep|]. split; [lia|].
    exists added. split; [exact Hlog|]. split; [lia|].
    eapply List.Forall_impl; [|exact Hadded]. cbn beta.
    intros a (Ha & Hs & Hu & Hc). rewrite Hjob. cbn. rewrite Hs. auto.
Qed.

(** A chunk that is sent again imports nothing twice: when [processBatch]
    has accepted a chunk, a later accepted chunk with the same rows counts
    no success, counts every row as failed, and leaves the case table and
    the audit log as they are. *)
Theorem processBatch_resend (rt : Js.Runtime) (db db1 db2 : Prisma) (jobId jobId' : string)
    (dto dto' : BatchImportDto) (userId userId' : string) (r1 r2 : BatchResult) :
  processBatch rt db jobId dto userId = (db1, inr r1) ->
  rows dto' = rows dto ->
  processBatch rt db1 jobId' dto' userId' = (db2, inr r2) ->
  success r2 = 0
  /\ failed r2 = Z.of_nat (length (rows dto))
  /\ case db2 = case db1
  /\ auditLog db2 = auditLog db1.
Proof.
  intros Hrun1 Hrows Hrun2.
  apply processBatch_unfold in Hrun1
    as (job & db0 & r0 & _ & _ & _ & _ & _ & _ & _ & _ & Hout & _).
  cbn zeta in Hout. destruct Hout as (_ & Hcase1 & _).
  destruct (createAll_tables job userId (startIndex dto) 0 (passed rt jobId userId (rows dto))
              db0 r0) as (_ & _ & _ & Hall).
  rewrite <- Hcase1 in Hall.
  apply processBatch_unfold in Hrun2
    as (job' & db0' & r0' & _ & _ & _ & Hcase0' & Hlog0' & Hr0' & Hfail0 & _ & Hout' & _).
  cbn zeta in Hout'. destruct Hout' as (-> & Hcase2 & Hlog2).
  pose proof (createAll_account job' userId' (startIndex dto') 0
                (passed rt jobId' userId' (rows dto')) db0' r0') as Hsum.
  cbn zeta in Hsum. destruct Hsum as (Hsum & _).
  assert (Hpresent : forall d, d ∈ passed rt jobId' userId' (rows dto') ->
                               is_Some (case db0' !! d_caseId d)).
  { intros d Hd. rewrite Hcase0'. rewrite Hrows in Hd.
    unfold passed in Hd. apply list_elem_of_omap in Hd as (row & Hrow & Hd).
    destruct (prepare rt jobId' userId' row) as [|d'] eqn:Hprep; [discriminate|].
    injection Hd as ->.
    pose proof (prepare_caseId _ _ _ _ _ Hprep) as Hid.
    destruct (prepare rt jobId userId row) as [m|d1] eqn:Hprep1.
    - exfalso. revert Hprep Hprep1. unfold prepare.
      destruct (_ || _); [discriminate|].
      destruct (Js.Date_getFullYear rt (r_dob row)); [|discriminate].
      destruct (negb _); discriminate.
    - rewrite Hid, <- (prepare_caseId _ _ _ _ _ Hprep1). apply Hall.
      unfold passed. apply list_elem_of_omap. exists row. rewrite Hprep1. split; [exact Hrow|reflexivity]. }
  destruct (createAll_present job' userId' (startIndex dto') 0 _ db0' r0' Hpresent)
    as (Hsame & Hsucc).
  rewrite Hsame in Hcase2, Hlog2. rewrite Hsucc, Hr0' in Hsum |- *. rewrite <- Hrows.
  split; [reflexivity|]. split; [lia|]. split; congruence.
Qed.

Lemma processBatch_resend_witness :
  let db := Examples.store (Examples.job PROCESSING 250 0) in
  let db1 := fst (processBatch Examples.runtime db "job-1" Examples.cleanChunk "user-1") in
  let db2 := fst (processBatch Examples.runtime db1 "job-1" Examples.cleanChunk "user-1") in
  let r2 := {| success := 0; failed := 2;
               errors := [ {| index := 100; caseId := "C-2"; error := "Duplicate case ID" |};
                           {| index := 101; caseId := "C-3"; error := "Duplicate case ID" |} ] |} in
  success r2 = 0
  /\ failed r2 = Z.of_nat (length (rows Examples.cleanChunk))
  /\ case db2 = case db1
  /\ auditLog db2 = auditLog db1.
Proof.
  intros db db1 db2 r2.
  refine (processBatch_resend Examples.runtime db db1 db2 "job-1" "job-1"
            Examples.cleanChunk Examples.cleanChunk "user-1" "user-1"
            {| success := 1; failed := 1;
               errors := [ {| index := 100; caseId := "C-2"; error := "Duplicate case ID" |} ] |}
            r2 _ eq_refl _).
  - vm_compute. reflexivity.
  - vm_compute. reflexivity.
Defined.

(** *** The counters of a job *)

Lemma progress_consistent (job : ImportJob) (dto : BatchImportDto) (result : BatchResult) :
  consistent job ->
  success result + failed result = Z.of_nat (length (rows dto)) ->
  Z.of_nat (length (errors result)) = failed result ->
  consistent (progress job dto result job).
Proof.
  intros (Hsum & Herr) Hrows Hlen. unfold consistent, progress.
  cbn [processedRows successCount failedCount errorData]. split; [lia|].
  destruct (errors result) as [|e l] eqn:He.
  - cbn [length] in Hlen. lia.
  - cbn [from_option id]. rewrite length_app. lia.
Qed.

(** The service keeps the counters of every job in agreement: when, for
    every job of the store, the processed rows are the successes plus the
    failures and the failures are as many as the stored error records, the
    same holds after a call of [processBatch], of [pauseImport] and of
    [resumeImport], whatever its outcome; and the error report of such a
    job lists as many errors as its failed count says. *)
Theorem jobs_consistent (rt : Js.Runtime) (db : Prisma) (jobId : string)
    (dto : BatchImportDto) (userId : string) :
  (forall id job, importJob db !! id = Some job -> consistent job) ->
  (forall id job,
      importJob (fst (processBatch rt db jobId dto userId)) !! id = Some job ->
      consistent job)
  /\ (forall id job,
        importJob (fst (pauseImport db jobId)) !! id = Some job -> consistent job)
  /\ (forall id job,
        importJob (fst (resumeImport db jobId)) !! id = Some job -> consistent job)
  /\ (forall report,
        getErrorReport db jobId = inr report ->
        Z.of_nat (length (e_errors report)) = e_failedCount report).
Proof.
  intros Hdb.
  assert (Hstatus : forall s id job,
             importJob (importJob_update jobId (with_status s) db) !! id = Some job ->
             consistent job).
  { intros s id job. cbn [importJob_update importJob].
    destruct (decide (id = jobId)) as [->|Hne].
    - rewrite lookup_alter_eq. destruct (importJob db !! jobId) as [j|] eqn:Hj; [|discriminate].
      intros [= <-]. exact (Hdb _ _ Hj).
    - rewrite lookup_alter_ne by congruence. apply Hdb. }
  split; [|split; [|split]].
  - intros id job'.
    destruct (processBatch rt db jobId dto userId) as [db' [e|result]] eqn:Hrun; cbn [fst].
    + rewrite (processBatch_rejected _ _ _ _ _ _ _ Hrun). apply Hdb.
    + apply processBatch_unfold in Hrun
        as (job & db0 & r0 & Hjob & _ & _ & _ & _ & Hr0 & Hfail0 & Herr0 & Hout & Hnew & Hother).
      cbn zeta in Hout. destruct Hout as (Hres & _ & _).
      pose proof (createAll_account job userId (startIndex dto) 0
                    (passed rt jobId userId (rows dto)) db0 r0) as Hacc.
      cbn zeta in Hacc. rewrite <- Hres in Hacc. destruct Hacc as (Hsum & Hlen & _).
      destruct (decide (id = jobId)) as [->|Hne].
      * rewrite Hnew. intros [= <-].
        apply progress_consistent; [exact (Hdb _ _ Hjob)|lia|lia].
      * rewrite (Hother id Hne). apply Hdb.
  - intros id job. unfold pauseImport.
    destruct (importJob db !! jobId) eqn:Hj; cbn [fst]; [apply Hstatus|apply Hdb].
  - intros id job. unfold resumeImport.
    destruct (importJob db !! jobId) as [j|] eqn:Hj; cbn [fst]; [|apply Hdb].
    destruct (negb _); cbn [fst]; [apply Hdb|apply Hstatus].
  - intros report. unfold getErrorReport.
    destruct (importJob db !! jobId) as [j|] eqn:Hj; [|discriminate].
    intros [= <-]. cbn [e_errors e_failedCount].
    destruct (Hdb _ _ Hj) as (_ & ->). reflexivity.
Qed.

Lemma jobs_consistent_witness :
  consistent
    {| fileName := "cases.csv"; status := PROCESSING; totalRows := 250; processedRows := 3;
       successCount := 1; failedCount := 2; lastProcessedIndex := 2;
       errorData :=
         Some [ {| index := 0; caseId := "C-1"; error := "Missing required fields" |};
                {| index := 0; caseId := "C-2"; error := "Duplicate case ID" |} ] |}.
Proof.
  refine (proj1 (jobs_consistent Examples.runtime (Examples.store (Examples.job PROCESSING 250 0))
                   "job-1" Examples.mixedChunk "user-1" _) "job-1" _ _).
  - intros id job. unfold Examples.store. cbn [importJob].
    intros [<- <-]%lookup_singleton_Some. split; reflexivity.
  - vm_compute. reflexivity.
Defined.

(** *** The chunks of a file *)

Lemma batchesFrom_concat {A : Type} (size : nat) (l : list A) (fuel i : nat) :
  (1 <= size)%nat -> (length l <= i + fuel * size)%nat ->
  concat (map snd (batchesFrom fuel size i l)) = drop i l.
Proof.
  intros Hsize. revert i. induction fuel as [|fuel IH]; intros i Hlen; cbn [batchesFrom].
  - cbn. symmetry. apply drop_ge. lia.
  - destruct (Nat.ltb_spec i (length l)) as [Hlt|Hge].
    + cbn [map snd concat]. rewrite IH by lia.
      rewrite <- (drop_drop l size i), take_drop. reflexivity.
    + cbn. symmetry. apply drop_ge. exact Hge.
Qed.

Lemma batchesFrom_lookup {A : Type} (size : nat) (l : list A) (fuel i k j : nat)
    (batch : list A) :
  batchesFrom fuel size i l !! k = Some (j, batch) ->
  j = (i + k * size)%nat /\ batch = take size (drop j l) /\ (j < length l)%nat.
Proof.
  revert i k. induction fuel as [|fuel IH]; intros i k; cbn [batchesFrom]; [discriminate|].
  destruct (Nat.ltb_spec i (length l)) as [Hlt|Hge]; [|discriminate].
  destruct k as [|k]; cbn.
  - intros [= <- <-]. repeat split; [lia|exact Hlt].
  - intros H. apply IH in H as (-> & -> & H). repeat split; [lia|exact H].
Qed.

(** The chunks that [handleSubmit] sends are the file, cut into consecutive
    pieces: put one after the other they give back the rows, in order; chunk
    [k] starts at index [100 * k], holds the rows from there on, and has
    between one and a hundred rows. *)
Theorem batches_partition {A : Type} (validRows : list A) :
  concat (map snd (batches batchSize validRows)) = validRows
  /\ forall (k i : nat) (batch : list A),
       batches batchSize validRows !! k = Some (i, batch) ->
       i = (100 * k)%nat
       /\ batch = take 100 (drop i validRows)
       /\ (1 <= length batch <= 100)%nat.
Proof.
  unfold batches, batchSize. split.
  - rewrite batchesFrom_concat by lia. reflexivity.
  - intros k i batch H. apply batchesFrom_lookup in H as (-> & -> & H).
    split; [lia|]. split; [reflexivity|]. rewrite length_take, length_drop. lia.
Qed.

(** Chunks sent one after the other to a job that can take all their rows. *)
Lemma submitAll_accepted (rt : Js.Runtime) (jobId userId : string)
    (chunks : list (nat * list ImportRowDto)) (db : Prisma) (job : ImportJob) :
  importJob db !! jobId = Some job ->
  status job <> COMPLETED -> status job <> FAILED ->
  Forall (fun chunk => snd chunk <> []) chunks ->
  chunks <> [] ->
  processedRows job + Z.of_nat (rowsIn chunks) <= totalRows job ->
  exists (db' : Prisma) (job' : ImportJob),
    submitAll rt jobId userId chunks db = (db', None)
    /\ importJob db' !! jobId = Some job'
    /\ totalRows job' = totalRows job
    /\ processedRows job' = processedRows job + Z.of_nat (rowsIn chunks)
    /\ status job' = if totalRows job <=? processedRows job' then COMPLETED else PROCESSING.
Proof.
  revert db job. induction chunks as [|[i batch] rest IH]; intros db job Hjob Hc Hf Hall Hne Hfit;
    [contradiction|].
  apply List.Forall_cons_iff in Hall as (Hbatch & Hrest). cbn [snd] in Hbatch.
  unfold rowsIn in Hfit |- *. cbn [map snd concat] in Hfit |- *. rewrite length_app in Hfit |- *.
  destruct (processBatch_step rt db jobId userId job i batch Hjob Hc Hf)
    as (db1 & r1 & job1 & Hrun & Hjob1 & Ht1 & Hp1 & Hs1).
  cbn [submitAll]. rewrite Hrun.
  destruct rest as [|chunk rest].
  - exists db1, job1. cbn [submitAll map concat length]. rewrite Nat.add_0_r.
    repeat split; try assumption. rewrite Hs1, Hp1. reflexivity.
  - assert (Hmore : (1 <= rowsIn (chunk :: rest))%nat).
    { apply List.Forall_cons_iff in Hrest as (Hchunk & _).
      unfold rowsIn. cbn [map concat]. rewrite length_app.
      destruct (snd chunk); [contradiction|]. cbn [length]. lia. }
    unfold rowsIn in Hmore.
    assert (Hopen : (totalRows job <=? processedRows job + Z.of_nat (length batch)) = false)
      by (apply Z.leb_gt; lia).
    rewrite Hopen in Hs1.
    destruct (IH db1 job1 Hjob1 ltac:(rewrite Hs1; discriminate) ltac:(rewrite Hs1; discriminate)
                Hrest ltac:(discriminate) ltac:(unfold rowsIn; lia))
      as (db' & job' & Hrun' & Hjob' & Ht' & Hp' & Hs').
    exists db', job'. unfold rowsIn in Hp'. repeat split; try assumption.
    + lia.
    + lia.
    + rewrite Hs', Ht1. reflexivity.
Qed.

(** The whole file: when the job can take all the rows that [handleSubmit]
    sends, every chunk is accepted, the job ends with that many more
    processed rows, and it is left [COMPLETED] exactly when they bring
    [processedRows] up to [totalRows]; when they are fewer (rows were held
    back as invalid), the job is left [PROCESSING]. *)
Theorem submitAll_batches (rt : Js.Runtime) (db : Prisma) (jobId userId : string)
    (job : ImportJob) (validRows : list ImportRowDto) :
  importJob db !! jobId = Some job ->
  status job <> COMPLETED -> status job <> FAILED ->
  validRows <> [] ->
  processedRows job + Z.of_nat (length validRows) <= totalRows job ->
  exists (db' : Prisma) (job' : ImportJob),
    submitAll rt jobId userId (batches batchSize validRows) db = (db', None)
    /\ importJob db' !! jobId = Some job'
    /\ processedRows job' = processedRows job + Z.of_nat (length validRows)
    /\ (status job' = COMPLETED
        <-> processedRows job + Z.of_nat (length validRows) = totalRows job)
    /\ (status job' = PROCESSING
        <-> processedRows job + Z.of_nat (length validRows) < totalRows job).
Proof.
  intros Hjob Hc Hf Hne Hfit.
  assert (Hrows : rowsIn (batches batchSize validRows) = length validRows).
  { unfold rowsIn, batches, batchSize. rewrite batchesFrom_concat by lia. reflexivity. }
  destruct (submitAll_accepted rt jobId userId (batches batchSize validRows) db job Hjob Hc Hf)
    as (db' & job' & Hrun & Hjob' & Ht & Hp & Hs).
  - apply Forall_lookup. intros k [i batch] Hk. cbn [snd].
    unfold batches, batchSize in Hk. apply batchesFrom_lookup in Hk as (-> & -> & Hlt).
    intros Hnil. apply (f_equal length) in Hnil.
    rewrite length_take, length_drop in Hnil. cbn [length] in Hnil. lia.
  - intros Hnil. rewrite Hnil in Hrows. cbn in Hrows. destruct validRows; [contradiction|].
    discriminate Hrows.
  - rewrite Hrows. exact Hfit.
  - rewrite Hrows in Hp. exists db', job'.
    split; [exact Hrun|]. split; [exact Hjob'|]. split; [exact Hp|].
    rewrite Hs, Hp.
    destruct (Z.leb_spec (totalRows job) (processedRows job + Z.of_nat (length validRows)));
      split; split; intros; try reflexivity; try discriminate; lia.
Qed.

Lemma submitAll_batches_witness :
  exists (db' : Prisma) (job' : ImportJob),
    submitAll Examples.runtime "job-1" "user-1" (batches batchSize Examples.rows250)
      (Examples.store (Examples.job PENDING 300 0)) = (db', None)
    /\ importJob db' !! "job-1" = Some job'
    /\ processedRows job' = 0 + Z.of_nat (length Examples.rows250)
    /\ (status job' = COMPLETED <-> 0 + Z.of_nat (length Examples.rows250) = 300)
    /\ (status job' = PROCESSING <-> 0 + Z.of_nat (length Examples.rows250) < 300).
Proof.
  refine (submitAll_batches Examples.runtime (Examples.store (Examples.job PENDING 300 0))
            "job-1" "user-1" (Examples.job PENDING 300 0) Examples.rows250 _ _ _ _ _).
  - vm_compute. reflexivity.
  - discriminate.
  - discriminate.
  - discriminate.
  - vm_compute. discriminate.
Defined.

End StoreFacts.

(** ** Chunks for a paused job *)

Section PausedJobFacts.

Import ImportService Vocabulary.
Local Open Scope Z_scope.

(** The second loop reads the job for its file name only, and the jobs table
    not at all. *)
Lemma createAll_jobs (job job2 : ImportJob) (userId : string) (start k : Z)
    (todo : list CaseData) (db db2 : Prisma) (result : BatchResult) :
  fileName job = fileName job2 -> case db = case db2 -> auditLog db = auditLog db2 ->
  snd (createAll job userId start k todo db result)
  = snd (createAll job2 userId start k todo db2 result)
  /\ case (fst (createAll job userId start k todo db result))
     = case (fst (createAll job2 userId start k todo db2 result))
  /\ auditLog (fst (createAll job userId start k todo db result))
     = auditLog (fst (createAll job2 userId start k todo db2 result)).
Proof.
  intros Hfile. revert k db db2 result.
  induction todo as [|caseData rest IH]; intros k db db2 result Hcase Hlog; cbn [createAll].
  - cbn [fst snd]. auto.
  - unfold case_create. rewrite <- Hcase.
    destruct (case db !! d_caseId caseData).
    + apply IH; assumption.
    + rewrite <- Hfile. apply IH; cbn [auditLog_create case auditLog]; congruence.
Qed.

(** A chunk for a paused job has the outcome of the same chunk for the job
    once [resumeImport] has set it to [PROCESSING]. *)
Lemma processBatch_resumed (rt : Js.Runtime) (db : Prisma) (jobId : string)
    (dto : BatchImportDto) (userId : string) (job : ImportJob) :
  importJob db !! jobId = Some job -> status job = PAUSED ->
  processBatch rt (fst (resumeImport db jobId)) jobId dto userId
  = processBatch rt db jobId dto userId.
Proof.
  intros Hjob Hpaused. unfold resumeImport. rewrite Hjob, Hpaused. cbn [bool_decide negb fst].
  rewrite bool_decide_eq_true_2 by reflexivity. cbn [negb fst].
  unfold processBatch.
  cbn [importJob_update importJob]. rewrite lookup_alter_eq, Hjob. cbn [fmap option_fmap option_map].
  rewrite Hpaused. cbn [with_status status].
  rewrite !bool_decide_eq_false_2 by discriminate. cbn [orb].
  destruct (prepareAll rt jobId userId (startIndex dto) 0 (rows dto) _ []) as [r0 creations].
  set (dbr := importJob_update jobId (with_status PROCESSING) db).
  set (jobr := with_status PROCESSING job).
  destruct (createAll_jobs jobr job userId (startIndex dto) 0 creations dbr db r0
              eq_refl eq_refl eq_refl) as (Hres & Hcase & Hlog).
  pose proof (createAll_importJob jobr userId (startIndex dto) 0 creations dbr r0) as Hjobsr.
  pose proof (createAll_importJob job userId (startIndex dto) 0 creations db r0) as Hjobs.
  destruct (createAll jobr userId (startIndex dto) 0 creations dbr r0) as [dbr1 rr].
  destruct (createAll job userId (startIndex dto) 0 creations db r0) as [db1 r1].
  cbn [fst snd] in *. subst rr. f_equal.
  unfold importJob_update. rewrite Hcase, Hlog, Hjobsr, Hjobs. f_equal.
  subst dbr. unfold importJob_update. cbn [importJob]. apply map_eq. intros key.
  destruct (decide (key = jobId)) as [->|Hne].
  - rewrite !lookup_alter_eq, Hjob. reflexivity.
  - rewrite !lookup_alter_ne by congruence. reflexivity.
Qed.

(** C10: a chunk sent to a paused job does not fail, and it is processed
    as for a job that is not paused: its outcome, the response and the store
    after it, is that of the same chunk sent once [resumeImport] has set the
    job to [PROCESSING]. Every row is counted as a success or as a failure,
    with one error per failure; the stored cases are kept, the case table
    grows by one case per success, and every row that passes the checks has
    a case afterwards. The final update adds the chunk to the counters of the
    job and leaves it [PROCESSING] or [COMPLETED], so no longer [PAUSED]. The
    only chunks that [processBatch] rejects are those for an unknown job (not
    found) and for a completed or failed one (bad request). *)
Theorem processBatch_paused_job (rt : Js.Runtime) (db : Prisma) (jobId : string)
    (dto : BatchImportDto) (userId : string) :
  (forall job : ImportJob,
      importJob db !! jobId = Some job -> status job = PAUSED ->
      exists (db' : Prisma) (result : BatchResult) (job' : ImportJob),
        processBatch rt db jobId dto userId = (db', inr result)
        /\ processBatch rt (fst (resumeImport db jobId)) jobId dto userId = (db', inr result)
        /\ success result + failed result = Z.of_nat (length (rows dto))
        /\ Z.of_nat (length (errors result)) = failed result
        /\ (forall key c, case db !! key = Some c -> case db' !! key = Some c)
        /\ Z.of_nat (size (case db')) = Z.of_nat (size (case db)) + success result
        /\ (forall row caseData,
              row ∈ rows dto -> prepare rt jobId userId row = inr caseData ->
              is_Some (case db' !! r_caseId row))
        /\ importJob db' !! jobId = Some job'
        /\ processedRows job' = processedRows job + Z.of_nat (length (rows dto))
        /\ successCount job' = successCount job + success result
        /\ failedCount job' = failedCount job + failed result
        /\ lastProcessedIndex job' = startIndex dto + Z.of_nat (length (rows dto)) - 1
        /\ status job'
           = (if totalRows job <=? processedRows job + Z.of_nat (length (rows dto))
              then COMPLETED else PROCESSING)
        /\ status job' <> PAUSED)
  /\
  (forall e : Exception,
      snd (processBatch rt db jobId dto userId) = inl e ->
      (importJob db !! jobId = None /\ e = NotFoundException "Import job not found")
      \/ (exists job : ImportJob,
            importJob db !! jobId = Some job
            /\ (status job = COMPLETED \/ status job = FAILED)
            /\ e = BadRequestException "Import job already completed or failed")).
Proof.
  split.
  - intros job Hjob Hpaused.
    destruct (processBatch_accepted rt db jobId dto userId job Hjob
                ltac:(rewrite Hpaused; discriminate) ltac:(rewrite Hpaused; discriminate))
      as (db' & result & Hrun & Hjob').
    exists db', result, (progress job dto result job).
    split; [exact Hrun|].
    split; [rewrite (processBatch_resumed rt db jobId dto userId job Hjob Hpaused); exact Hrun|].
    destruct (processBatch_unfold rt db jobId dto userId db' result Hrun)
      as (job0 & db0 & r0 & Hjob0 & _ & _ & Hcase0 & Hlog0 & Hr0 & Hfail0 & Herr0 & Hout & _).
    cbn zeta in Hout. destruct Hout as (Hres & Hcase & _).
    destruct (createAll_account job0 userId (startIndex dto) 0
                (passed rt jobId userId (rows dto)) db0 r0) as (Hsum & Herrs & _).
    destruct (createAll_tables job0 userId (startIndex dto) 0
                (passed rt jobId userId (rows dto)) db0 r0) as (Hkeep & Hsize & _ & Hall).
    cbn zeta in Hsum, Herrs, Hkeep, Hsize, Hall.
    rewrite <- Hres in Hsum, Herrs, Hsize. rewrite <- Hcase in Hkeep, Hsize, Hall.
    rewrite Hcase0 in Hkeep, Hsize.
    split; [lia|]. split; [lia|]. split; [exact Hkeep|]. split; [lia|]. split.
    { intros row caseData Hrow Hprep.
      rewrite <- (prepare_caseId rt jobId userId row caseData Hprep). apply Hall.
      unfold passed. apply list_elem_of_omap. exists row. split; [exact Hrow|].
      rewrite Hprep. reflexivity. }
    split; [exact Hjob'|]. cbn [progress processedRows successCount failedCount
                                lastProcessedIndex status].
    repeat (split; [reflexivity|]).
    destruct (totalRows job <=? processedRows job + Z.of_nat (length (rows dto)));
      discriminate.
  - intros e He. destruct (importJob db !! jobId) as [job|] eqn:Hjob.
    + right. exists job. split; [reflexivity|].
      destruct (decide (status job = COMPLETED)) as [Hc|Hc];
        [|destruct (decide (status job = FAILED)) as [Hf|Hf]].
      * unfold processBatch in He. rewrite Hjob, (bool_decide_eq_true_2 _ Hc) in He.
        cbn in He. injection He as <-. split; [left; exact Hc|reflexivity].
      * unfold processBatch in He.
        rewrite Hjob, (bool_decide_eq_false_2 _ Hc), (bool_decide_eq_true_2 _ Hf) in He.
        cbn in He. injection He as <-. split; [right; exact Hf|reflexivity].
      * destruct (processBatch_accepted rt db jobId dto userId job Hjob Hc Hf)
          as (db' & result & Hrun & _).
        rewrite Hrun in He. discriminate He.
    + left. split; [reflexivity|].
      unfold processBatch in He. rewrite Hjob in He. cbn in He. injection He as <-.
      reflexivity.
Qed.

Lemma processBatch_paused_job_witness :
  exists (db' : Prisma) (result : BatchResult) (job' : ImportJob),
    processBatch Examples.runtime (Examples.store (Examples.job PAUSED 250 100)) "job-1"
      Examples.mixedChunk "user-1" = (db', inr result)
    /\ processBatch Examples.runtime
         (fst (resumeImport (Examples.store (Examples.job PAUSED 250 100)) "job-1")) "job-1"
         Examples.mixedChunk "user-1" = (db', inr result)
    /\ success result + failed result = 3
    /\ importJob db' !! "job-1" = Some job'
    /\ processedRows job' = 103
    /\ status job' = PROCESSING.
Proof.
  destruct (proj1 (processBatch_paused_job Examples.runtime
                     (Examples.store (Examples.job PAUSED 250 100)) "job-1"
                     Examples.mixedChunk "user-1") (Examples.job PAUSED 250 100))
    as (db' & result & job' & Hrun & Hresumed & Hsum & _ & _ & _ & _ & Hjob & Hproc & _ & _
        & _ & Hstatus & _).
  - vm_compute. reflexivity.
  - reflexivity.
  - exists db', result, job'.
    split; [exact Hrun|]. split; [exact Hresumed|]. split; [exact Hsum|].
    split; [exact Hjob|]. split; [exact Hproc|exact Hstatus].
Defined.

End PausedJobFacts.

(** ** Regular expressions *)

Section RegexFacts.

Import Validation Vocabulary.

Lemma test_Never (s : string) : Js.test Js.Never s = false.
Proof. induction s; [reflexivity|exact IHs]. Qed.

Lemma test_Seq_Never (r : Js.regex) (s : string) : Js.test (Js.Seq Js.Never r) s = false.
Proof. induction s; [reflexivity|exact IHs]. Qed.

Lemma test_Alt (r1 r2 : Js.regex) (s : string) :
  Js.test (Js.Alt r1 r2) s = Js.test r1 s || Js.test r2 s.
Proof. revert r1 r2. induction s as [|c s IH]; intros r1 r2; [reflexivity|]. cbn [Js.test Js.deriv]. apply IH. Qed.

Lemma test_Seq_Eps (r : Js.regex) (s : string) : Js.test (Js.Seq Js.Eps r) s = Js.test r s.
Proof.
  destruct s as [|c s]; [reflexivity|].
  cbn [Js.test Js.deriv Js.nullable]. rewrite test_Alt, test_Seq_Never. reflexivity.
Qed.

Lemma test_digits (n : nat) (s : string) :
  Js.test (Js.Times n (Js.Class Js.isDigit)) s = true
  <-> String.length s = n /\ Js.removeAll Js.isDigit s = "".
Proof.
  revert s. induction n as [|n IH]; intros s; cbn [Js.Times].
  - destruct s as [|c s]; cbn [Js.test Js.nullable Js.deriv String.length].
    + split; [split; reflexivity|reflexivity].
    + rewrite test_Never. split; [discriminate|intros [H _]; discriminate H].
  - destruct s as [|c s]; cbn [Js.test Js.nullable Js.deriv String.length Js.removeAll andb].
    + split; [discriminate|intros [H _]; discriminate H].
    + destruct (Js.isDigit c).
      * rewrite test_Seq_Eps, IH. split; intros [H1 H2]; split; congruence.
      * rewrite test_Seq_Never. split; [discriminate|intros [_ H]; discriminate H].
Qed.

Ltac bool_cases :=
  repeat match goal with
         | |- context [Js.test ?r ?s] => destruct (Js.test r s)
         | |- context [Js.nullable ?r] => destruct (Js.nullable r)
         end; reflexivity.

Lemma test_Seq_Alt (a b r : Js.regex) (s : string) :
  Js.test (Js.Seq (Js.Alt a b) r) s = Js.test (Js.Seq a r) s || Js.test (Js.Seq b r) s.
Proof.
  revert a b. induction s as [|c s IH]; intros a b.
  - cbn [Js.test Js.nullable]. bool_cases.
  - cbn [Js.test Js.deriv Js.nullable].
    destruct (Js.nullable a), (Js.nullable b); cbn [orb]; rewrite ?test_Alt, IH; bool_cases.
Qed.

Lemma test_Seq_Class (p : ascii -> bool) (r : Js.regex) (c : ascii) (s : string) :
  Js.test (Js.Seq (Js.Class p) r) (String c s) = p c && Js.test r s.
Proof.
  cbn [Js.test Js.deriv Js.nullable]. destruct (p c); cbn [andb].
  - apply test_Seq_Eps.
  - apply test_Seq_Never.
Qed.

Lemma test_Seq_Class_nil (p : ascii -> bool) (r : Js.regex) :
  Js.test (Js.Seq (Js.Class p) r) "" = false.
Proof. reflexivity. Qed.

Lemma test_Seq_Seq_Never (a r : Js.regex) (s : string) :
  Js.test (Js.Seq (Js.Seq Js.Never a) r) s = false.
Proof. induction s as [|c s IH]; [reflexivity|exact IH]. Qed.

(** [r{1}] in front of a regular expression. *)
Lemma test_Seq_once (p : ascii -> bool) (r : Js.regex) (c : ascii) (s : string) :
  Js.test (Js.Seq (Js.Times 1 (Js.Class p)) r) (String c s) = p c && Js.test r s.
Proof.
  cbn [Js.Times Js.test Js.deriv Js.nullable andb]. destruct (p c); cbn [andb].
  - destruct s as [|c' s]; [cbn; reflexivity|].
    cbn [Js.test Js.deriv Js.nullable andb].
    rewrite test_Alt, test_Seq_Alt, test_Seq_Seq_Never, test_Seq_Never. reflexivity.
  - apply test_Seq_Seq_Never.
Qed.

Lemma test_UpTo (p : ascii -> bool) (n : nat) (s : string) :
  (String.length s <= n)%nat -> Js.removeAll p s = "" ->
  Js.test (Js.UpTo n (Js.Class p)) s = true.
Proof.
  revert s. induction n as [|n IH]; intros s Hlen Hall.
  - destruct s; [reflexivity|cbn in Hlen; lia].
  - cbn [Js.UpTo]. unfold Js.Opt. rewrite test_Alt.
    destruct s as [|c s]; [reflexivity|].
    cbn [Js.removeAll] in Hall. destruct (p c) eqn:Hc; [|discriminate Hall].
    rewrite test_Seq_Class, Hc, IH; [apply orb_true_r|cbn in Hlen; lia|exact Hall].
Qed.

Lemma tenDigits_phone (cleaned : string) :
  Js.test tenDigits cleaned = true ->
  Js.test phonePattern (String "+" (String "9" (String "1" cleaned))) = true.
Proof.
  intros [Hlen Hall]%test_digits.
  unfold phonePattern, Js.Range, Js.Opt, Js.Chr.
  rewrite test_Seq_Alt, !test_Seq_Class, test_Seq_once.
  rewrite test_UpTo; [apply orb_true_r|cbn; lia|exact Hall].
Qed.

End RegexFacts.

(** ** Row validation: acceptance and suggestions *)

Section SuggestionFacts.

Import Validation Vocabulary.

Lemma parse_entries (shape : list (string * Zod.Schema)) (data : gmap string string)
    (issue : Zod.Issue) :
  issue ∈ concat (map (fun '(k, schema) =>
                         map (fun m => {| Zod.path := k; Zod.message := m |})
                             (Zod.issues (schema (data !! k))))
                      shape)
  <-> exists (k : string) (schema : Zod.Schema),
        (k, schema) ∈ shape /\ Zod.path issue = k
        /\ Zod.message issue ∈ Zod.issues (schema (data !! k)).
Proof.
  induction shape as [|[k0 schema0] shape IH]; cbn [map concat].
  - split; [intros H; inversion H|intros (k & schema & H & _); inversion H].
  - rewrite elem_of_app, IH. split.
    + intros [(m & -> & Hm)%list_elem_of_fmap|(k & schema & Hin & Hk & Hm)].
      * exists k0, schema0. split; [left|]. split; [reflexivity|exact Hm].
      * exists k, schema. split; [right; exact Hin|]. split; assumption.
    + intros (k & schema & [[= -> ->]|Hin]%elem_of_cons & Hk & Hm).
      * left. apply list_elem_of_fmap. exists (Zod.message issue).
        split; [destruct issue; cbn in *; congruence|exact Hm].
      * right. exists k, schema. split; [exact Hin|]. split; assumption.
Qed.

(** The errors of a row are the issues of the schema entries, each with the
    value of its field and the suggestion for it. *)
Lemma validateRow_elem (rt : Js.Runtime) (row : CaseRow) (e : ValidationError) :
  e ∈ validateRow rt row
  <-> exists (k : string) (schema : Zod.Schema) (m : string),
        (k, schema) ∈ caseSchema rt
        /\ m ∈ Zod.issues (schema (row !! k))
        /\ e = {| field := k; message := m; value := row !! k;
                  suggestion := getSuggestion k (row !! k) |}.
Proof.
  unfold validateRow, Zod.parse.
  set (found := concat _).
  assert (Hfound : forall issue, issue ∈ found
            <-> exists k schema, (k, schema) ∈ caseSchema rt /\ Zod.path issue = k
                  /\ Zod.message issue ∈ Zod.issues (schema (row !! k)))
    by (intros issue; apply parse_entries).
  clearbody found. split.
  - destruct found as [|i0 l] eqn:Hf; [intros H; inversion H|]. rewrite <- Hf in *.
    intros (issue & -> & Hin)%list_elem_of_fmap.
    apply Hfound in Hin as (k & schema & Hk & Hp & Hm).
    exists k, schema, (Zod.message issue). rewrite Hp. auto.
  - intros (k & schema & m & Hk & Hm & ->).
    assert (Hin : {| Zod.path := k; Zod.message := m |} ∈ found)
      by (apply Hfound; exists k, schema; auto).
    destruct found as [|i0 l] eqn:Hf; [inversion Hin|]. rewrite <- Hf in *.
    apply list_elem_of_fmap. exists {| Zod.path := k; Zod.message := m |}.
    split; [reflexivity|exact Hin].
Qed.

Lemma validateRow_nil (rt : Js.Runtime) (row : CaseRow) :
  validateRow rt row = []
  <-> forall k schema, (k, schema) ∈ caseSchema rt -> Zod.issues (schema (row !! k)) = [].
Proof.
  split.
  - intros Hnil k schema Hk. destruct (Zod.issues (schema (row !! k))) as [|m l] eqn:Hm;
      [reflexivity|].
    assert (Hin : {| field := k; message := m; value := row !! k;
                     suggestion := getSuggestion k (row !! k) |} ∈ validateRow rt row).
    { apply validateRow_elem. exists k, schema, m. rewrite Hm. repeat split; [exact Hk|left]. }
    rewrite Hnil in Hin. inversion Hin.
  - intros Hall. destruct (validateRow rt row) as [|e l] eqn:He; [reflexivity|].
    assert (Hin : e ∈ validateRow rt row) by (rewrite He; left).
    apply validateRow_elem in Hin as (k & schema & m & Hk & Hm & _).
    rewrite (Hall k schema Hk) in Hm. inversion Hm.
Qed.

Lemma removeAll_idem (p : ascii -> bool) (s : string) :
  Js.removeAll p (Js.removeAll p s) = Js.removeAll p s.
Proof.
  induction s as [|c s IH]; [reflexivity|]. cbn [Js.removeAll].
  destruct (p c) eqn:Hc; [exact IH|]. cbn [Js.removeAll]. rewrite Hc, IH. reflexivity.
Qed.

Lemma removeAll_plus91 (s : string) :
  Js.removeAll phonePunctuation ("+91" ++ s)%string
  = String "+" (String "9" (String "1" (Js.removeAll phonePunctuation s))).
Proof. reflexivity. Qed.

Lemma getSuggestion_phone (v : string) :
  getSuggestion "phone" (Some v)
  = if Js.test tenDigits (Js.removeAll phonePunctuation v)
    then Some ("+91" ++ Js.removeAll phonePunctuation v)%string else None.
Proof. reflexivity. Qed.

Lemma getSuggestion_category (v : string) :
  getSuggestion "category" (Some v)
  = if bool_decide (Js.toUpperCase v ∈ ["TAX"; "LICENSE"; "PERMIT"])
    then Some (Js.toUpperCase v) else None.
Proof. reflexivity. Qed.

Lemma getSuggestion_priority (v : string) :
  getSuggestion "priority" (Some v)
  = if bool_decide (Js.toUpperCase v ∈ ["LOW"; "MEDIUM"; "HIGH"])
    then Some (Js.toUpperCase v)
    else if negb (Js.truthy (Some v)) then Some "LOW" else None.
Proof. reflexivity. Qed.

Lemma getSuggestion_applicant_name (v : string) :
  getSuggestion "applicant_name" (Some v)
  = if Js.includes v "  " then Some (Js.trim (Js.collapseWhiteSpace v)) else None.
Proof. reflexivity. Qed.

(** The entries of [caseSchema], one by one. *)
Ltac schema_cases H :=
  unfold caseSchema in H;
  repeat (apply elem_of_cons in H as [H|H]; [injection H as -> ->|]);
  [..|inversion H].

(** The suggested phone number passes the check of the schema. *)
Lemma suggested_phone_ok (v : string) :
  Js.test tenDigits (Js.removeAll phonePunctuation v) = true ->
  phoneOk (Some ("+91" ++ Js.removeAll phonePunctuation v)%string) = true.
Proof.
  intros H.
  change (phoneOk (Some ("+91" ++ Js.removeAll phonePunctuation v)%string))
    with (Js.test phonePattern
            (Js.removeAll phonePunctuation ("+91" ++ Js.removeAll phonePunctuation v)%string)).
  rewrite removeAll_plus91, removeAll_idem. apply tenDigits_phone. exact H.
Qed.

(** An error on the case identifier, the applicant name, the date of birth
    or the email never carries a suggestion. *)
Lemma suggestion_none (rt : Js.Runtime) (row : CaseRow) (e : ValidationError) :
  e ∈ validateRow rt row ->
  field e ∈ ["case_id"; "applicant_name"; "dob"; "email"] ->
  suggestion e = None.
Proof.
  intros (k & schema & m & Hk & Hm & ->)%validateRow_elem Hfield. cbn [field suggestion] in *.
  schema_cases Hk; destruct (row !! _) as [v|] eqn:Hv; try reflexivity.
  - (* applicant_name *)
    rewrite getSuggestion_applicant_name. destruct v as [|c v]; [reflexivity|].
    cbn in Hm. inversion Hm.
  - (* phone *)
    exfalso. repeat (apply elem_of_cons in Hfield as [Hfield|Hfield]; [discriminate Hfield|]).
    inversion Hfield.
  - exfalso. repeat (apply elem_of_cons in Hfield as [Hfield|Hfield]; [discriminate Hfield|]).
    inversion Hfield.
  - exfalso. repeat (apply elem_of_cons in Hfield as [Hfield|Hfield]; [discriminate Hfield|]).
    inversion Hfield.
Qed.

Ltac other_entries H :=
  unfold caseSchema in H;
  repeat (apply elem_of_cons in H as [H|H];
          [first [discriminate H|injection H as ->]|]);
  [..|inversion H].

Lemma issues_string_min (message : string) (input : option string) :
  Zod.issues (Zod.string_min 1 message input) = []
  <-> exists v, input = Some v /\ v <> "".
Proof.
  unfold Zod.string_min. destruct input as [[|c v]|]; cbn; split;
    try discriminate; try (intros (v' & [= <-] & H); congruence);
    try (intros (v' & H & _); discriminate H).
  intros _. eexists. split; [reflexivity|discriminate].
Qed.

Lemma issues_enum (values : list string) (errorMap : option string) (input : option string) :
  Zod.issues (Zod.enum values errorMap input) = []
  <-> exists v, input = Some v /\ v ∈ values.
Proof.
  unfold Zod.enum. destruct input as [v|]; cbn.
  - destruct (bool_decide (v ∈ values)) eqn:Hin; cbn.
    + apply bool_decide_eq_true_1 in Hin. split; [eauto|reflexivity].
    + apply bool_decide_eq_false_1 in Hin. split; [discriminate|].
      intros (v' & [= <-] & H). contradiction.
  - split; [discriminate|]. intros (v & H & _). discriminate H.
Qed.

Lemma issues_refine_optional (check : option string -> bool) (message : string)
    (input : option string) :
  Zod.issues (Zod.refine check message (Zod.optional Zod.string_) input) = []
  <-> check input = true.
Proof.
  unfold Zod.refine, Zod.optional, Zod.string_.
  destruct input as [v|]; cbn; destruct (check _); cbn; split; congruence.
Qed.

Lemma issues_dob (rt : Js.Runtime) (message message' : string) (input : option string) :
  Zod.issues (Zod.refine (dobInRange rt) message (Zod.string_min 1 message') input) = []
  <-> (exists v, input = Some v /\ v <> "") /\ dobInRange rt input = true.
Proof.
  unfold Zod.refine, Zod.string_min. destruct input as [[|c v]|]; cbn -[dobInRange].
  - destruct (dobInRange rt (Some "")); cbn; split; try discriminate;
      intros [(v & [= <-] & H) _]; congruence.
  - destruct (dobInRange rt (Some (String c v))); cbn; split; try discriminate.
    + intros _. split; [|reflexivity]. eexists. split; [reflexivity|discriminate].
    + reflexivity.
    + intros [_ H]. discriminate H.
  - split; [discriminate|]. intros [(v & H & _) _]. discriminate H.
Qed.

(** Once the suggestion of an error has replaced the value of its field,
    the row has no error on that field. *)
Lemma suggestion_fixes (rt : Js.Runtime) (row : CaseRow) (e : ValidationError)
    (s : string) :
  e ∈ validateRow rt row ->
  suggestion e = Some s ->
  forall e' : ValidationError,
    e' ∈ validateRow rt (<[field e := s]> row) -> field e' <> field e.
Proof.
  intros (k & schema & m & Hk & Hm & ->)%validateRow_elem Hs e'
         (k' & schema' & m' & Hk' & Hm' & ->)%validateRow_elem Hsame.
  cbn [field suggestion] in *. subst k'. rewrite lookup_insert_eq in Hm'.
  schema_cases Hk; destruct (row !! _) as [v|] eqn:Hv; try discriminate Hs.
  - (* applicant_name *)
    destruct v as [|c v]; [discriminate Hs|]. cbn in Hm. inversion Hm.
  - (* phone *)
    rewrite getSuggestion_phone in Hs.
    destruct (Js.test tenDigits _) eqn:Hten; [|discriminate Hs]. injection Hs as <-.
    other_entries Hk'.
    rewrite (proj2 (issues_refine_optional _ _ _) (suggested_phone_ok v Hten)) in Hm'.
    inversion Hm'.
  - (* category *)
    rewrite getSuggestion_category in Hs.
    destruct (bool_decide _) eqn:Hin; [|discriminate Hs]. injection Hs as <-.
    other_entries Hk'. apply bool_decide_eq_true_1 in Hin.
    rewrite (proj2 (issues_enum _ _ _)) in Hm' by eauto. inversion Hm'.
  - (* priority *)
    rewrite getSuggestion_priority in Hs.
    assert (Hin : bool_decide (s ∈ ["LOW"; "MEDIUM"; "HIGH"]) = true).
    { destruct (bool_decide (Js.toUpperCase v ∈ _)) eqn:Hin.
      - injection Hs as <-. exact Hin.
      - destruct (negb _); [|discriminate Hs]. injection Hs as <-. reflexivity. }
    other_entries Hk'. apply bool_decide_eq_true_1 in Hin.
    unfold Zod.default, Zod.optional in Hm'.
    rewrite (proj2 (issues_enum _ _ _)) in Hm' by eauto. inversion Hm'.
Qed.

Lemma validateRow_accepted (rt : Js.Runtime) (row : CaseRow) :
  validateRow rt row = [] -> accepted rt row.
Proof.
  rewrite validateRow_nil. unfold accepted, present. intros H.
  pose proof (H "case_id" _ ltac:(unfold caseSchema; do 0 right; left)) as H1.
  pose proof (H "applicant_name" _ ltac:(unfold caseSchema; do 1 right; left)) as H2.
  pose proof (H "dob" _ ltac:(unfold caseSchema; do 2 right; left)) as H3.
  pose proof (H "email" _ ltac:(unfold caseSchema; do 3 right; left)) as H4.
  pose proof (H "phone" _ ltac:(unfold caseSchema; do 4 right; left)) as H5.
  pose proof (H "category" _ ltac:(unfold caseSchema; do 5 right; left)) as H6.
  pose proof (H "priority" _ ltac:(unfold caseSchema; do 6 right; left)) as H7.
  apply issues_string_min in H1, H2. apply issues_dob in H3 as (H3 & H3').
  apply issues_refine_optional in H4, H5. apply issues_enum in H6 as (c & Hc & Hcin).
  repeat (split; [assumption|]). split.
  - rewrite Hc. exact (list_elem_of_fmap_2 Some _ _ Hcin).
  - unfold Zod.default, Zod.optional in H7. destruct (row !! "priority") as [p|]; [|left].
    apply issues_enum in H7 as (p' & [= <-] & Hp). right.
    exact (list_elem_of_fmap_2 Some _ _ Hp).
Qed.

Lemma accepted_validateRow (rt : Js.Runtime) (row : CaseRow) :
  accepted rt row -> validateRow rt row = [].
Proof.
  rewrite validateRow_nil. unfold accepted, present.
  intros (H1 & H2 & H3 & H3' & H4 & H5 & H6 & H7) k schema Hk.
  schema_cases Hk.
  - apply issues_string_min. exact H1.
  - apply issues_string_min. exact H2.
  - apply issues_dob. split; assumption.
  - apply issues_refine_optional. exact H4.
  - apply issues_refine_optional. exact H5.
  - apply issues_enum. destruct (row !! "category") as [c|].
    + exists c. split; [reflexivity|].
      change (Some c ∈ Some <$> ["TAX"; "LICENSE"; "PERMIT"]) in H6.
      apply list_elem_of_fmap in H6 as (c' & [= <-] & H6). exact H6.
    + change (None ∈ Some <$> ["TAX"; "LICENSE"; "PERMIT"]) in H6.
      apply list_elem_of_fmap in H6 as (c' & H6 & _). discriminate H6.
  - unfold Zod.default, Zod.optional. destruct (row !! "priority") as [p|].
    + apply issues_enum. exists p. split; [reflexivity|].
      apply elem_of_cons in H7 as [H7|H7]; [discriminate H7|].
      change (Some p ∈ Some <$> ["LOW"; "MEDIUM"; "HIGH"]) in H7.
      apply list_elem_of_fmap in H7 as (p' & [= <-] & H7). exact H7.
    + reflexivity.
Qed.

(** [validateRow] reports no error exactly for the rows that have a
    non-empty case identifier, applicant name and date of birth, a date of
    birth that the runtime reads as a date in a year from 1900 to the
    current one, an email and a phone number that are absent, empty or
    well-formed, a category among TAX, LICENSE and PERMIT, and a priority
    that is absent or among LOW, MEDIUM and HIGH. An empty priority is not
    accepted, an empty email is. *)
Theorem validateRow_accepts (rt : Js.Runtime) (row : CaseRow) :
  validateRow rt row = [] <-> accepted rt row.
Proof. split; [apply validateRow_accepted|apply accepted_validateRow]. Qed.

Lemma suggestion_field (rt : Js.Runtime) (row : CaseRow) (e : ValidationError) (s : string) :
  e ∈ validateRow rt row -> suggestion e = Some s ->
  field e ∈ ["phone"; "category"; "priority"].
Proof.
  intros He Hs.
  destruct (decide (field e ∈ ["case_id"; "applicant_name"; "dob"; "email"])) as [Hin|Hout].
  - rewrite (suggestion_none rt row e He Hin) in Hs. discriminate Hs.
  - apply validateRow_elem in He as (k & schema & m & Hk & _ & ->). cbn [field] in *.
    schema_cases Hk; set_solver.
Qed.

(** The suggestions of [validateRow] are fixes: an error carries a
    suggestion only on the phone number, the category or the priority, and
    once the suggestion has replaced the value of that field, [validateRow]
    reports no error on the field any more. *)
Theorem validateRow_suggestions (rt : Js.Runtime) (row : CaseRow) (e : ValidationError)
    (s : string) :
  e ∈ validateRow rt row ->
  suggestion e = Some s ->
  field e ∈ ["phone"; "category"; "priority"]
  /\ forall e' : ValidationError,
       e' ∈ validateRow rt (<[field e := s]> row) -> field e' <> field e.
Proof.
  intros He Hs. split; [exact (suggestion_field rt row e s He Hs)|].
  exact (suggestion_fixes rt row e s He Hs).
Qed.

Lemma validateRow_suggestions_witness :
  "priority" ∈ ["phone"; "category"; "priority"]
  /\ forall e' : ValidationError,
       e' ∈ validateRow Examples.runtime (<["priority" := "LOW"]> Examples.johnDoe) ->
       field e' <> "priority".
Proof.
  refine (validateRow_suggestions Examples.runtime Examples.johnDoe Examples.priorityError
            "LOW" _ _).
  - replace (validateRow Examples.runtime Examples.johnDoe) with [Examples.priorityError]
      by (vm_compute; reflexivity).
    left.
  - reflexivity.
Defined.

End SuggestionFacts.

(** ** From the page to the service *)

Section ServiceChecks.

Import Validation Vocabulary ImportService.

(** The checks of the service, passed. *)
Lemma prepare_ok (rt : Js.Runtime) (jobId userId : string) (row : ImportRowDto) :
  r_caseId row <> "" -> r_applicantName row <> "" -> r_dob row <> "" ->
  is_Some (Js.Date_getFullYear rt (r_dob row)) ->
  r_category row ∈ Category_values ->
  prepare rt jobId userId row
  = inr {| d_caseId := r_caseId row; d_applicantName := r_applicantName row;
           d_dob := r_dob row; d_email := Js.orNull (r_email row);
           d_phone := Js.orNull (r_phone row); d_category := r_category row;
           d_priority :=
             match r_priority row with
             | Some p =>
                 if Js.truthy (Some p) && bool_decide (p ∈ Priority_values) then p else "LOW"
             | None => "LOW"
             end;
           d_importJobId := jobId; d_userId := userId |}.
Proof.
  intros H1 H2 H3 (year & Hyear) H4. unfold prepare.
  destruct (r_caseId row) as [|c1 v1] eqn:E1; [contradiction|].
  destruct (r_applicantName row) as [|c2 v2] eqn:E2; [contradiction|].
  destruct (r_dob row) as [|c3 v3] eqn:E3; [contradiction|].
  assert (E4 : exists c v, r_category row = String c v).
  { destruct (r_category row) as [|c v]; [|eauto]. exfalso.
    unfold Category_values in H4.
    repeat (apply elem_of_cons in H4 as [H4|H4]; [discriminate H4|]). inversion H4. }
  destruct E4 as (c4 & v4 & E4). rewrite E4 in H4 |- *.
  cbn [Js.truthy negb orb]. rewrite Hyear, (bool_decide_eq_true_2 _ H4). reflexivity.
Qed.

(** What a row that the page accepts gives to the service. *)
Lemma rowDto_valid (rt : Js.Runtime) (row : CaseRow) :
  validateRow rt row = [] ->
  (row !! "case_id" = Some (r_caseId (Submit.rowDto row)) /\ r_caseId (Submit.rowDto row) <> "")
  /\ (row !! "applicant_name" = Some (r_applicantName (Submit.rowDto row))
      /\ r_applicantName (Submit.rowDto row) <> "")
  /\ (row !! "dob" = Some (r_dob (Submit.rowDto row)) /\ r_dob (Submit.rowDto row) <> "")
  /\ (row !! "category" = Some (r_category (Submit.rowDto row))
      /\ r_category (Submit.rowDto row) ∈ Category_values)
  /\ Js.orElse (row !! "priority") "LOW" ∈ Priority_values.
Proof.
  intros (H1 & H2 & H3 & _ & _ & _ & H6 & H7)%validateRow_accepted.
  destruct H1 as ([|c1 v1] & E1 & N1); [contradiction|].
  destruct H2 as ([|c2 v2] & E2 & N2); [contradiction|].
  destruct H3 as ([|c3 v3] & E3 & N3); [contradiction|].
  unfold Submit.rowDto. cbn [r_caseId r_applicantName r_dob r_category].
  rewrite E1, E2, E3. cbn [Js.orElse].
  repeat (split; [split; [reflexivity|discriminate]|]). split.
  - repeat (apply elem_of_cons in H6 as [->|H6];
            [split; [reflexivity|unfold Category_values; cbn [Js.orElse]; set_solver]|]).
    inversion H6.
  - repeat (apply elem_of_cons in H7 as [->|H7];
            [unfold Priority_values; cbn [Js.orElse]; set_solver|]).
    inversion H7.
Qed.

(** A row that the page accepts is never turned down by the checks of the
    service: when [validateRow] reports no error for a row and the runtime
    of the service reads its date of birth as a date, as that of the page
    does, the record that [submitBatch] posts for the row passes the checks of
    [processBatch], and the case that the service prepares holds the
    identifier, the name, the date and the category of the row, its priority
    or LOW, its email and phone or null, and the job and the user of the
    request. *)
Theorem valid_row_passes (page service : Js.Runtime) (jobId userId : string)
    (row : CaseRow) :
  validateRow page row = [] ->
  readsDob service row ->
  exists caseData : CaseData,
    prepare service jobId userId (Submit.rowDto row) = inr caseData
    /\ row !! "case_id" = Some (d_caseId caseData)
    /\ row !! "applicant_name" = Some (d_applicantName caseData)
    /\ row !! "dob" = Some (d_dob caseData)
    /\ row !! "category" = Some (d_category caseData)
    /\ d_priority caseData = Js.orElse (row !! "priority") "LOW"
    /\ d_email caseData = Js.orNull (row !! "email")
    /\ d_phone caseData = Js.orNull (row !! "phone")
    /\ d_importJobId caseData = jobId
    /\ d_userId caseData = userId.
Proof.
  intros Hvalid Hdate.
  destruct (rowDto_valid page row Hvalid)
    as ((E1 & N1) & (E2 & N2) & (E3 & N3) & (E4 & H4) & H5).
  eexists. split; [exact (prepare_ok service jobId userId _ N1 N2 N3 Hdate H4)|].
  cbn [d_caseId d_applicantName d_dob d_category d_priority d_email d_phone
       d_importJobId d_userId].
  repeat (split; [assumption|]). split; [|split; [|split; [|split; reflexivity]]].
  - cbn [Submit.rowDto r_priority].
    destruct (Js.orElse (row !! "priority") "LOW") as [|c v] eqn:E.
    + unfold Priority_values in H5.
      repeat (apply elem_of_cons in H5 as [H5|H5]; [discriminate H5|]). inversion H5.
    + cbn [Js.truthy andb]. rewrite (bool_decide_eq_true_2 _ H5). reflexivity.
  - cbn [Submit.rowDto r_email]. destruct (row !! "email") as [[|c v]|]; reflexivity.
  - cbn [Submit.rowDto r_phone]. destruct (row !! "phone") as [[|c v]|]; reflexivity.
Qed.

Lemma valid_row_passes_witness :
  exists caseData : CaseData,
    prepare Examples.runtime "job-1" "user-1" (Submit.rowDto Examples.imported) = inr caseData
    /\ Examples.imported !! "case_id" = Some (d_caseId caseData)
    /\ Examples.imported !! "applicant_name" = Some (d_applicantName caseData)
    /\ Examples.imported !! "dob" = Some (d_dob caseData)
    /\ Examples.imported !! "category" = Some (d_category caseData)
    /\ d_priority caseData = Js.orElse (Examples.imported !! "priority") "LOW"
    /\ d_email caseData = Js.orNull (Examples.imported !! "email")
    /\ d_phone caseData = Js.orNull (Examples.imported !! "phone")
    /\ d_importJobId caseData = "job-1"
    /\ d_userId caseData = "user-1".
Proof.
  apply (valid_row_passes Examples.runtime Examples.runtime "job-1" "user-1" Examples.imported).
  - vm_compute. reflexivity.
  - vm_compute. eauto.
Defined.

End ServiceChecks.

(** ** The quick fixes *)

Section QuickFixFacts.

Import Validation Vocabulary.

Lemma collapse_spaced (inRun : bool) (s : string) : spaced inRun (Js.collapseFrom inRun s) = true.
Proof.
  revert inRun. induction s as [|c s IH]; intros inRun; [reflexivity|].
  cbn [Js.collapseFrom]. destruct (Js.isWhiteSpace c) eqn:Hc.
  - destruct inRun; [apply IH|]. cbn [spaced].
    change (Js.isWhiteSpace " ") with true. cbn. apply IH.
  - cbn [spaced]. rewrite Hc. apply IH.
Qed.

Lemma collapse_fixed (inRun : bool) (s : string) :
  spaced inRun s = true -> Js.collapseFrom inRun s = s.
Proof.
  revert inRun. induction s as [|c s IH]; intros inRun H; [reflexivity|].
  cbn [spaced Js.collapseFrom] in *. destruct (Js.isWhiteSpace c) eqn:Hc.
  - apply andb_true_iff in H as [[Heq Hrun]%andb_true_iff H].
    apply Ascii.eqb_eq in Heq as ->. destruct inRun; [discriminate Hrun|].
    rewrite (IH true H). reflexivity.
  - rewrite (IH false H). reflexivity.
Qed.

Lemma spaced_weaken (b : bool) (s : string) : spaced b s = true -> spaced false s = true.
Proof.
  destruct s as [|c s]; [reflexivity|]. cbn [spaced]. destruct (Js.isWhiteSpace c); [|auto].
  intros [[-> _]%andb_true_iff ->]%andb_true_iff. reflexivity.
Qed.

Lemma trimStart_spaced (b : bool) (s : string) :
  spaced b s = true -> spaced false (Js.trimStart s) = true.
Proof.
  revert b. induction s as [|c s IH]; intros b H; [reflexivity|].
  cbn [Js.trimStart]. cbn [spaced] in H. destruct (Js.isWhiteSpace c) eqn:Hc.
  - apply andb_true_iff in H as [_ H]. exact (IH true H).
  - cbn [spaced]. rewrite Hc. exact H.
Qed.

Lemma trimEnd_spaced (b : bool) (s : string) :
  spaced b s = true -> spaced b (Js.trimEnd s) = true.
Proof.
  revert b. induction s as [|c s IH]; intros b H; [reflexivity|].
  cbn [Js.trimEnd]. cbn [spaced] in H.
  destruct (Js.trimEnd s) as [|a t] eqn:Ht.
  - destruct (Js.isWhiteSpace c) eqn:Hc; [reflexivity|]. cbn [spaced]. rewrite Hc. reflexivity.
  - cbn [spaced]. destruct (Js.isWhiteSpace c) eqn:Hc.
    + apply andb_true_iff in H as [-> H]. exact (IH true H).
    + exact (IH false H).
Qed.

Lemma spaced_no_double (b : bool) (s : string) :
  spaced b s = true -> Js.includes s "  " = false.
Proof.
  revert b. induction s as [|c s IH]; intros b H; [reflexivity|].
  cbn [Js.includes]. cbn [spaced] in H.
  assert (Hrest : Js.includes s "  " = false).
  { destruct (Js.isWhiteSpace c); [apply andb_true_iff in H as [_ H]|]; exact (IH _ H). }
  rewrite Hrest, orb_false_r.
  destruct (String.prefix "  " (String c s)) eqn:Hp; [|reflexivity].
  exfalso. cbn [String.prefix] in Hp.
  destruct (ascii_dec " " c) as [<-|]; [|discriminate Hp].
  destruct s as [|c' s]; cbn [String.prefix] in Hp; [discriminate Hp|].
  destruct (ascii_dec " " c') as [<-|]; [|discriminate Hp].
  change (Js.isWhiteSpace " ") with true in H. cbn in H.
  rewrite andb_false_r in H. discriminate H.
Qed.

Lemma trimStart_clean (s : string) : startsClean (Js.trimStart s) = true.
Proof.
  induction s as [|c s IH]; [reflexivity|]. cbn [Js.trimStart].
  destruct (Js.isWhiteSpace c) eqn:Hc; [exact IH|]. cbn [startsClean]. rewrite Hc. reflexivity.
Qed.

Lemma trimEnd_clean (s : string) : startsClean s = true -> startsClean (Js.trimEnd s) = true.
Proof.
  destruct s as [|c s]; [reflexivity|]. cbn [startsClean Js.trimEnd]. intros Hc.
  destruct (Js.trimEnd s); [|exact Hc].
  destruct (Js.isWhiteSpace c) eqn:E; [reflexivity|]. cbn [startsClean].
  rewrite E. reflexivity.
Qed.

Lemma trimStart_fixed (s : string) : startsClean s = true -> Js.trimStart s = s.
Proof.
  destruct s as [|c s]; [reflexivity|]. cbn [startsClean Js.trimStart].
  destruct (Js.isWhiteSpace c); [discriminate|reflexivity].
Qed.

Lemma trimEnd_idem (s : string) : Js.trimEnd (Js.trimEnd s) = Js.trimEnd s.
Proof.
  induction s as [|c s IH]; [reflexivity|]. cbn [Js.trimEnd].
  destruct (Js.trimEnd s) as [|a t] eqn:Ht.
  - destruct (Js.isWhiteSpace c) eqn:Hc; [reflexivity|]. cbn [Js.trimEnd]. rewrite Hc. reflexivity.
  - change (Js.trimEnd (String c (String a t)))
      with (match Js.trimEnd (String a t) with
            | EmptyString => if Js.isWhiteSpace c then EmptyString else String c EmptyString
            | t' => String c t'
            end).
    rewrite IH. reflexivity.
Qed.

Lemma trim_idem (s : string) : Js.trim (Js.trim s) = Js.trim s.
Proof.
  unfold Js.trim.
  rewrite (trimStart_fixed (Js.trimEnd (Js.trimStart s)))
    by (apply trimEnd_clean, trimStart_clean).
  apply trimEnd_idem.
Qed.

Lemma trimWhitespace_spaced (value : string) : spaced false (trimWhitespace value) = true.
Proof.
  unfold trimWhitespace, Js.trim, Js.collapseWhiteSpace.
  apply trimEnd_spaced, (trimStart_spaced false), collapse_spaced.
Qed.

Lemma trimWhitespace_idem (value : string) :
  trimWhitespace (trimWhitespace value) = trimWhitespace value.
Proof.
  unfold trimWhitespace at 1. unfold Js.collapseWhiteSpace.
  rewrite (collapse_fixed false _ (trimWhitespace_spaced value)). apply trim_idem.
Qed.

(** The quick fix for white space does its work in one pass: applied to
    its own result it changes nothing, its result holds no two spaces in a
    row, and [getSuggestion] has nothing left to suggest for it as an
    applicant name. *)
Theorem trimWhitespace_tidy (value : string) :
  trimWhitespace (trimWhitespace value) = trimWhitespace value
  /\ Js.includes (trimWhitespace value) "  " = false
  /\ getSuggestion "applicant_name" (Some (trimWhitespace value)) = None.
Proof.
  split; [apply trimWhitespace_idem|]. split.
  - exact (spaced_no_double _ _ (trimWhitespace_spaced value)).
  - rewrite getSuggestion_applicant_name, (spaced_no_double _ _ (trimWhitespace_spaced value)).
    reflexivity.
Qed.

Lemma test_not_digits (p : ascii -> bool) (n : nat) (r : Js.regex) (c : ascii) (s : string) :
  p c = false -> Js.test (Js.Seq (Js.Times (S n) (Js.Class p)) r) (String c s) = false.
Proof.
  intros Hc. cbn [Js.Times Js.test Js.deriv Js.nullable andb]. rewrite Hc.
  apply test_Seq_Seq_Never.
Qed.

Lemma tenDigits_plus (s : string) : Js.test tenDigits (String "+" s) = false.
Proof.
  destruct (Js.test tenDigits (String "+" s)) eqn:H; [|reflexivity].
  apply test_digits in H as [_ H]. discriminate H.
Qed.

Lemma elevenDigitsOrMore_plus (s : string) : Js.test elevenDigitsOrMore (String "+" s) = false.
Proof. apply test_not_digits. reflexivity. Qed.

Lemma normalizePhone_idem (value : string) :
  normalizePhone (normalizePhone value) = normalizePhone value.
Proof.
  unfold normalizePhone at 2 3. cbn zeta.
  destruct (Js.test tenDigits (Js.removeAll phonePunctuation value)) eqn:H10;
    [|destruct (Js.test elevenDigitsOrMore (Js.removeAll phonePunctuation value)) eqn:H11].
  - unfold normalizePhone. rewrite removeAll_plus91, removeAll_idem.
    rewrite tenDigits_plus, elevenDigitsOrMore_plus. reflexivity.
  - unfold normalizePhone.
    change (Js.removeAll phonePunctuation ("+" ++ Js.removeAll phonePunctuation value)%string)
      with (String "+" (Js.removeAll phonePunctuation (Js.removeAll phonePunctuation value))).
    rewrite removeAll_idem, tenDigits_plus, elevenDigitsOrMore_plus. reflexivity.
  - unfold normalizePhone. cbn zeta. rewrite H10, H11. reflexivity.
Qed.

(** The quick fix for phone numbers does its work in one pass: applied to
    its own result it changes nothing. Where [getSuggestion] suggests a
    phone number, the fix gives that same number, and the schema accepts
    it. *)
Theorem normalizePhone_fixed (value : string) :
  normalizePhone (normalizePhone value) = normalizePhone value
  /\ forall s : string,
       getSuggestion "phone" (Some value) = Some s ->
       normalizePhone value = s /\ phoneOk (Some s) = true.
Proof.
  split; [apply normalizePhone_idem|].
  intros s. rewrite getSuggestion_phone. unfold normalizePhone. cbn zeta.
  destruct (Js.test tenDigits (Js.removeAll phonePunctuation value)) eqn:H10; [|discriminate].
  intros [= <-]. split; [reflexivity|]. apply suggested_phone_ok. exact H10.
Qed.

End QuickFixFacts.

(** ** Column mapping: best matches, manual changes, the mapped rows *)

Section MappingFacts.

Import ColumnMapping Vocabulary.

Lemma propose_proposed (header : string) : proposed (propose ∅ header).
Proof. right. rewrite propose_column. reflexivity. Qed.

Lemma assign_proposed (usedFields usedFields' : gset SchemaField)
    (candidates candidates' : list Candidate) (candidate : Candidate) :
  Forall proposed candidates -> proposed candidate ->
  assign (usedFields, candidates) candidate = Some (usedFields', candidates') ->
  Forall proposed candidates'.
Proof.
  intros Hall Hc. unfold assign.
  destruct (findIndex (sameColumn candidate) candidates) as [idx|]; [|discriminate]. cbn.
  assert (Hrel : forall cs, release usedFields candidates candidate idx = Some cs ->
                            Forall proposed cs).
  { intros cs. unfold release. destruct (candidates !! idx) as [cur|]; [|discriminate]. cbn.
    destruct (c_field cur) as [g|]; [destruct (bool_decide (g ∈ usedFields))|];
      intros [= <-]; try exact Hall.
    apply Forall_insert; [exact Hall|]. left. reflexivity. }
  destruct (c_field candidate) as [f|]; [destruct (bool_decide (f ∉ usedFields))|].
  - intros [= _ <-]. apply Forall_insert; assumption.
  - destruct (release usedFields candidates candidate idx) as [cs|] eqn:E; [|discriminate].
    cbn. intros [= _ <-]. exact (Hrel cs eq_refl).
  - destruct (release usedFields candidates candidate idx) as [cs|] eqn:E; [|discriminate].
    cbn. intros [= _ <-]. exact (Hrel cs eq_refl).
Qed.

Lemma assignAll_proposed (sorted : list Candidate) (usedFields usedFields' : gset SchemaField)
    (candidates candidates' : list Candidate) :
  Forall proposed candidates -> Forall proposed sorted ->
  assignAll (usedFields, candidates) sorted = Some (usedFields', candidates') ->
  Forall proposed candidates'.
Proof.
  revert usedFields candidates.
  induction sorted as [|candidate rest IH]; intros usedFields candidates Hall Hsorted; cbn [assignAll].
  - intros [= _ <-]. exact Hall.
  - apply List.Forall_cons_iff in Hsorted as (Hc & Hrest).
    destruct (assign (usedFields, candidates) candidate) as [[u1 c1]|] eqn:Hassign; [|discriminate].
    cbn. apply IH; [|exact Hrest]. exact (assign_proposed _ _ _ _ _ Hall Hc Hassign).
Qed.

Lemma findBestMatch_threshold (header : string) (fields : list SchemaField)
    (f : SchemaField) (conf : float) :
  findBestMatch header fields = (Some f, conf) -> PrimFloat.leb 0.6 conf = true.
Proof.
  unfold findBestMatch.
  destruct (PrimFloat.leb 0.6 (snd (foldl (matchField header) (None, 0%float) fields))) eqn:H.
  - intros E. rewrite E in H. exact H.
  - discriminate.
Qed.

Lemma available_all (p : SchemaField -> bool) :
  (forall f, p f = true) -> List.filter p schemaKeys = schemaKeys.
Proof.
  intros H. unfold schemaKeys. cbn [List.filter]. rewrite !H. reflexivity.
Qed.

Lemma propose_eq (header : string) :
  propose ∅ header
  = {| c_csvColumn := header;
       c_field := fst (findBestMatch header schemaKeys);
       c_confidence := snd (findBestMatch header schemaKeys) |}.
Proof.
  unfold propose. cbn zeta.
  rewrite available_all by (intros f; apply bool_decide_eq_true_2; set_solver).
  destruct (findBestMatch header schemaKeys). reflexivity.
Qed.

Lemma propose_field (header : string) (f : SchemaField) :
  c_field (propose ∅ header) = Some f ->
  findBestMatch header schemaKeys = (Some f, c_confidence (propose ∅ header))
  /\ PrimFloat.leb 0.6 (c_confidence (propose ∅ header)) = true.
Proof.
  rewrite propose_eq. cbn [c_field c_confidence].
  destruct (findBestMatch header schemaKeys) as [field conf] eqn:E. cbn [fst snd].
  intros ->. split; [reflexivity|]. exact (findBestMatch_threshold _ _ _ _ E).
Qed.

(** [autoMapColumns] maps a column to its best match or not at all: a
    mapping of the result is either unmapped, with confidence 0 and not
    marked as automatic, or it is marked as automatic and holds the field and
    the confidence that [findBestMatch] gives for its header among all the
    fields, a confidence of at least 0.6. A column whose best field went to
    another column gets no second choice. *)
Theorem autoMapColumns_best_match (csvHeaders : list string) (mappings : list ColumnMapping)
    (m : ColumnMapping) :
  autoMapColumns csvHeaders = Some mappings ->
  m ∈ mappings ->
  (schemaField m = None /\ confidence m = 0%float /\ isAutoMapped m = false)
  \/ (exists f : SchemaField,
        schemaField m = Some f
        /\ isAutoMapped m = true
        /\ findBestMatch (csvColumn m) schemaKeys = (Some f, confidence m)
        /\ PrimFloat.leb 0.6 (confidence m) = true).
Proof.
  unfold autoMapColumns.
  destruct (assignAll _ _) as [[usedFields candidates]|] eqn:Hrun; [|discriminate].
  cbn. intros [= <-] (c & -> & Hc)%list_elem_of_fmap.
  assert (Hall : Forall proposed candidates).
  { eapply assignAll_proposed; [| |exact Hrun].
    - apply Forall_forall. intros x (h & -> & _)%list_elem_of_fmap. apply propose_proposed.
    - apply Forall_forall. intros x Hx%elem_of_sort.
      apply list_elem_of_fmap in Hx as (h & -> & _). apply propose_proposed. }
  rewrite Forall_forall in Hall. specialize (Hall c Hc).
  unfold finalMapping. destruct (c_field c) as [f|] eqn:Hf; [|left; repeat split].
  destruct (bool_decide (f ∈ usedFields)); [|left; repeat split].
  right. exists f. cbn [schemaField isAutoMapped csvColumn confidence].
  destruct Hall as [Hnone|Hprop]; [congruence|].
  rewrite Hprop in Hf. apply propose_field in Hf as (Hbest & Hleb). rewrite <- Hprop in Hbest, Hleb.
  repeat split; assumption.
Qed.




Lemma mapped_field (mappings : list ColumnMapping) (f : SchemaField) :
  f ∈ (list_to_set (omap schemaField mappings) : gset SchemaField)
  <-> exists m, m ∈ mappings /\ schemaField m = Some f.
Proof. rewrite elem_of_list_to_set, list_elem_of_omap. reflexivity. Qed.

(** No required field is unmapped exactly when each of the four required
    fields is the field of some mapping. *)
Lemma getUnmappedRequiredFields_nil (mappings : list ColumnMapping) :
  getUnmappedRequiredFields mappings = []
  <-> forall f : SchemaField,
        f ∈ [case_id; applicant_name; dob; category] ->
        exists m, m ∈ mappings /\ schemaField m = Some f.
Proof.
  unfold getUnmappedRequiredFields. cbn zeta.
  set (mappedFields := list_to_set (omap schemaField mappings) : gset SchemaField).
  assert (Hm : forall f, bool_decide (f ∉ mappedFields) = false
                         <-> exists m, m ∈ mappings /\ schemaField m = Some f).
  { intros f. rewrite <- mapped_field. fold mappedFields.
    destruct (decide (f ∈ mappedFields)) as [Hin|Hout].
    - rewrite bool_decide_eq_false_2 by tauto. tauto.
    - rewrite bool_decide_eq_true_2 by exact Hout. split; [discriminate|contradiction]. }
  unfold schemaKeys. cbn [List.filter SCHEMA_FIELDS required andb].
  split.
  - intros H f Hf. apply Hm.
    destruct (bool_decide (case_id ∉ mappedFields)) eqn:H1; [discriminate H|].
    destruct (bool_decide (applicant_name ∉ mappedFields)) eqn:H2; [discriminate H|].
    destruct (bool_decide (dob ∉ mappedFields)) eqn:H3; [discriminate H|].
    destruct (bool_decide (category ∉ mappedFields)) eqn:H4; [discriminate H|].
    repeat (apply elem_of_cons in Hf as [->|Hf]; [assumption|]). inversion Hf.
  - intros H.
    rewrite (proj2 (Hm case_id)) by (apply H; set_solver).
    rewrite (proj2 (Hm applicant_name)) by (apply H; set_solver).
    rewrite (proj2 (Hm dob)) by (apply H; set_solver).
    rewrite (proj2 (Hm category)) by (apply H; set_solver).
    reflexivity.
Qed.

Lemma autoMapColumns_total (csvHeaders : list string) :
  is_Some (autoMapColumns csvHeaders).
Proof.
  destruct (assignAll_columns (sort (map (propose ∅) csvHeaders)) ∅ (map (propose ∅) csvHeaders))
    as (used & cands & Hrun & _).
  { intros x Hx. apply elem_of_sort in Hx.
    apply list_elem_of_fmap. exists x. split; [reflexivity|exact Hx]. }
  unfold autoMapColumns. rewrite Hrun. cbn. eauto.
Qed.

(** Every event leaves [unmappedRequired] computed from the mappings that it
    leaves. *)
Lemma step_tracks (st : ColumnMapper.State) (event : ColumnMapper.Event) :
  exists st' : ColumnMapper.State,
    ColumnMapper.step st event = Some st'
    /\ ColumnMapper.unmappedRequired st'
       = getUnmappedRequiredFields (ColumnMapper.mappings st').
Proof.
  destruct event as [csvHeaders|csvColumn field|csvHeaders];
    cbn [ColumnMapper.step]; unfold ColumnMapper.handleAutoMap;
    try (destruct (autoMapColumns_total csvHeaders) as (autoMapped & ->); cbn);
    eexists; (split; [reflexivity|reflexivity]).
Qed.

Lemma run_tracks (events : list ColumnMapper.Event) (st : ColumnMapper.State) :
  ColumnMapper.unmappedRequired st = getUnmappedRequiredFields (ColumnMapper.mappings st) ->
  exists st' : ColumnMapper.State,
    ColumnMapper.run st events = Some st'
    /\ ColumnMapper.unmappedRequired st'
       = getUnmappedRequiredFields (ColumnMapper.mappings st').
Proof.
  revert st. induction events as [|event rest IH]; intros st Hst; cbn [ColumnMapper.run].
  - exists st. split; [reflexivity|exact Hst].
  - destruct (step_tracks st event) as (st1 & -> & Hst1). cbn. apply IH. exact Hst1.
Qed.

(** The button of the column mapper. On the first render, before the
    effect has run, nothing is mapped and the user may proceed. Once the
    effect or a handler has run, whatever runs after it, [autoMapColumns]
    never throwing, the warning lists the required fields that no mapping
    has, and the user may proceed exactly when each of the four required
    fields (case identifier, applicant name, date of birth, category) is
    the field of some mapping. *)
Theorem canProceed_required (event : ColumnMapper.Event) (events : list ColumnMapper.Event) :
  (ColumnMapper.mappings ColumnMapper.initial = []
   /\ ColumnMapper.canProceed ColumnMapper.initial = true)
  /\ exists st : ColumnMapper.State,
       ColumnMapper.run ColumnMapper.initial (event :: events) = Some st
       /\ ColumnMapper.unmappedRequired st
          = getUnmappedRequiredFields (ColumnMapper.mappings st)
       /\ (ColumnMapper.canProceed st = true
           <-> forall f : SchemaField,
                 f ∈ [case_id; applicant_name; dob; category] ->
                 exists m, m ∈ ColumnMapper.mappings st /\ schemaField m = Some f).
Proof.
  split; [split; reflexivity|]. cbn [ColumnMapper.run].
  destruct (step_tracks ColumnMapper.initial event) as (st1 & -> & Hst1). cbn.
  destruct (run_tracks events st1 Hst1) as (st & Hrun & Hst).
  exists st. split; [exact Hrun|]. split; [exact Hst|].
  rewrite <- getUnmappedRequiredFields_nil, <- Hst. unfold ColumnMapper.canProceed.
  destruct (ColumnMapper.unmappedRequired st); split; congruence.
Qed.

Lemma NoDup_omap_lookup {A B : Type} (g : A -> option B) (l : list A) (i j : nat)
    (a b : A) (y : B) :
  NoDup (omap g l) -> l !! i = Some a -> l !! j = Some b ->
  g a = Some y -> g b = Some y -> i = j.
Proof.
  revert i j. induction l as [|x l IH]; intros i j Hnd Hi Hj Ha Hb; [discriminate Hi|].
  cbn [omap list_omap] in Hnd.
  assert (Hin : forall k c, l !! k = Some c -> g c = Some y -> y ∈ omap g l).
  { intros k c Hk Hc. apply list_elem_of_omap. exists c.
    split; [eapply list_elem_of_lookup_2; exact Hk|exact Hc]. }
  destruct i as [|i], j as [|j]; cbn in Hi, Hj.
  - reflexivity.
  - injection Hi as ->. rewrite Ha in Hnd. apply NoDup_cons in Hnd as (Hnot & _).
    exfalso. apply Hnot. exact (Hin j b Hj Hb).
  - injection Hj as ->. rewrite Hb in Hnd. apply NoDup_cons in Hnd as (Hnot & _).
    exfalso. apply Hnot. exact (Hin i a Hi Ha).
  - f_equal. apply IH; try assumption.
    destruct (g x); [apply NoDup_cons in Hnd as (_ & Hnd)|]; exact Hnd.
Qed.

(** A manual change of a mapping keeps the columns and their order, gives
    the chosen field (or none) to every mapping of the column, and, when the
    columns are pairwise distinct, keeps a list of mappings in which no
    field occurs twice free of repeated fields: the mapping that held the
    chosen field before loses it. *)
Theorem handleFieldChange_unique (csvColumn : string) (schemaField : option SchemaField)
    (prev : list ColumnMapping) :
  map ColumnMapping.csvColumn (ColumnMapper.handleFieldChange csvColumn schemaField prev)
  = map ColumnMapping.csvColumn prev
  /\ (forall m, m ∈ ColumnMapper.handleFieldChange csvColumn schemaField prev ->
                ColumnMapping.csvColumn m = csvColumn ->
                ColumnMapping.schemaField m = schemaField)
  /\ (NoDup (map ColumnMapping.csvColumn prev) ->
      NoDup (omap ColumnMapping.schemaField prev) ->
      NoDup (omap ColumnMapping.schemaField
               (ColumnMapper.handleFieldChange csvColumn schemaField prev))).
Proof.
  unfold ColumnMapper.handleFieldChange.
  set (change := fun m : ColumnMapping => _).
  assert (Hcol : forall m, ColumnMapping.csvColumn (change m) = ColumnMapping.csvColumn m).
  { intros m. subst change. cbn beta.
    destruct (_ && _); [reflexivity|]. destruct (String.eqb _ _); reflexivity. }
  assert (Hfield : forall m y,
             ColumnMapping.schemaField (change m) = Some y ->
             (schemaField = Some y /\ ColumnMapping.csvColumn m = csvColumn)
             \/ (schemaField <> Some y /\ ColumnMapping.schemaField m = Some y)).
  { intros m y. subst change. cbn beta.
    destruct (String.eqb (ColumnMapping.csvColumn m) csvColumn) eqn:Hc.
    - apply String.eqb_eq in Hc. rewrite andb_false_r.
      cbn [ColumnMapping.schemaField]. intros ->. left. split; [reflexivity|exact Hc].
    - rewrite andb_true_r. destruct schemaField as [f|].
      + destruct (bool_decide (ColumnMapping.schemaField m = Some f)) eqn:Hf.
        * cbn. discriminate.
        * apply bool_decide_eq_false_1 in Hf. intros Hy. right. split; [congruence|exact Hy].
      + intros Hy. right. split; [discriminate|exact Hy]. }
  split; [|split].
  - rewrite map_map. apply map_ext. exact Hcol.
  - intros m (p & -> & _)%list_elem_of_fmap. rewrite Hcol. intros Hc. subst change. cbn beta.
    apply String.eqb_eq in Hc. rewrite Hc, andb_false_r. reflexivity.
  - intros Hcols Hfields. apply NoDup_omap_index.
    intros i j a b y Hi Hj Ha Hb.
    change (map change prev) with (change <$> prev) in Hi, Hj.
    rewrite list_lookup_fmap in Hi, Hj.
    destruct (prev !! i) as [pa|] eqn:Hpa; [|discriminate Hi].
    destruct (prev !! j) as [pb|] eqn:Hpb; [|discriminate Hj].
    cbn in Hi, Hj. injection Hi as <-. injection Hj as <-.
    apply Hfield in Ha as [(Hs & Hca)|(Hs & Hfa)], Hb as [(Hs' & Hcb)|(Hs' & Hfb)];
      try contradiction.
    + apply (NoDup_lookup _ i j csvColumn Hcols).
      * change (map ColumnMapping.csvColumn prev) with (ColumnMapping.csvColumn <$> prev).
        rewrite list_lookup_fmap, Hpa. cbn. rewrite Hca. reflexivity.
      * change (map ColumnMapping.csvColumn prev) with (ColumnMapping.csvColumn <$> prev).
        rewrite list_lookup_fmap, Hpb. cbn. rewrite Hcb. reflexivity.
    + exact (NoDup_omap_lookup _ _ _ _ _ _ _ Hfields Hpa Hpb Hfa Hfb).
Qed.

Lemma autoMapColumns_best_match_witness :
  (schemaField Examples.mailMapping = None
   /\ confidence Examples.mailMapping = 0%float
   /\ isAutoMapped Examples.mailMapping = false)
  \/ (exists f : SchemaField,
        schemaField Examples.mailMapping = Some f
        /\ isAutoMapped Examples.mailMapping = true
        /\ findBestMatch (csvColumn Examples.mailMapping) schemaKeys
           = (Some f, confidence Examples.mailMapping)
        /\ PrimFloat.leb 0.6 (confidence Examples.mailMapping) = true).
Proof.
  refine (autoMapColumns_best_match ["Case ID"; "mail"; "E-mail"] Examples.threeMappings
            Examples.mailMapping _ _).
  - vm_compute. reflexivity.
  - right. left.
Defined.


End MappingFacts.

(** ** The grid: valid rows, quick fixes, accepted suggestions *)

Section GridFacts.

Import Validation ImportStore ValidatePage Vocabulary.

(** The entry of a row in the result of [validateAllRows]. *)
Lemma validateAllRows_entry (rt : Js.Runtime) (rows : list CaseRow) (i : nat) (row : CaseRow) :
  NoDup (rowId <$> rows) -> rows !! i = Some row ->
  validateAllRows rt rows !! rowId row
  = match collected rt rows i row with [] => None | errors => Some errors end.
Proof.
  intros Hnd Hi. unfold validateAllRows, collected.
  rewrite (foldl_visit_entry rt rows ∅ ∅ i row Hnd Hi), foldl_visit_seen, lookup_empty.
  reflexivity.
Qed.

(** Whether [handleSubmit] keeps a row after a revalidation pass. *)
Lemma revalidate_keeps (rt : Js.Runtime) (st : ImportState) (i : nat) (row : CaseRow) :
  NoDup (rowId <$> mappedData st) -> mappedData st !! i = Some row ->
  match rowStatuses (revalidate rt st) !! rowId row with
  | Some invalid => false
  | _ => true
  end
  = match collected rt (mappedData st) i row with [] => true | _ => false end.
Proof.
  intros Hnd Hi. unfold revalidate, setValidationErrors. cbn [rowStatuses].
  rewrite setValidationErrors_lookup, decide_True
    by (apply list_elem_of_fmap; exists row; split;
        [reflexivity|eapply list_elem_of_lookup_2; exact Hi]).
  unfold statusFor, hasErrors. rewrite (validateAllRows_entry rt _ i row Hnd Hi).
  destruct (collected rt (mappedData st) i row); reflexivity.
Qed.

Lemma NoDup_fmap_filter {A B : Type} (f : A -> B) (P : A -> bool) (l : list A) :
  (forall i j a b, (i < j)%nat -> l !! i = Some a -> l !! j = Some b ->
                   P a = true -> P b = true -> f a <> f b) ->
  NoDup (f <$> List.filter P l).
Proof.
  induction l as [|x l IH]; intros H; [constructor|].
  assert (Hrest : NoDup (f <$> List.filter P l)).
  { apply IH. intros i j a b Hij Hi Hj. apply (H (S i) (S j)); [lia|exact Hi|exact Hj]. }
  cbn [List.filter]. destruct (P x) eqn:Hx; [|exact Hrest].
  rewrite fmap_cons. apply NoDup_cons. split; [|exact Hrest].
  intros (b & Hfb & Hb)%list_elem_of_fmap.
  apply list_elem_of_In, List.filter_In in Hb as [Hb HPb].
  apply list_elem_of_In, list_elem_of_lookup in Hb as (j & Hj).
  exact (H 0%nat (S j) x b ltac:(lia) eq_refl Hj Hx HPb Hfb).
Qed.

Lemma validateRow_carries (rt : Js.Runtime) (row : CaseRow) :
  validateRow rt row = [] -> exists caseId, carries row caseId.
Proof.
  intros Hnil. eapply validateRow_nil in Hnil; [|unfold caseSchema; left].
  apply issues_string_min in Hnil as (v & Hv & Hne). exists v. split; assumption.
Qed.

(** What [handleSubmit] sends after a revalidation pass, when the row ids
    are pairwise distinct: exactly the rows for which [validateRow] reports
    no error and which repeat the case identifier of no earlier row; so no
    two of the rows that are sent have the same case identifier. *)
Theorem validRows_clean (rt : Js.Runtime) (st : ImportState) :
  NoDup (rowId <$> mappedData st) ->
  let sent := ValidatePage.validRows (revalidate rt st) in
  (forall row,
      row ∈ sent
      <-> exists i, mappedData st !! i = Some row
                    /\ validateRow rt row = []
                    /\ ~ repeatsEarlier (mappedData st) i row)
  /\ NoDup ((fun row => row !! "case_id") <$> sent).
Proof.
  intros Hnd sent.
  assert (Hclean : forall i row, mappedData st !! i = Some row ->
             (collected rt (mappedData st) i row = []
              <-> validateRow rt row = [] /\ ~ repeatsEarlier (mappedData st) i row)).
  { intros i row Hi. rewrite collected_errors.
    destruct (duplicatePart_spec (mappedData st) i row)
      as [(Hrep & c & _ & ->)|(Hfirst & ->)].
    - split; [intros H; apply app_eq_nil in H as [_ H]; discriminate H|].
      intros [_ H]. contradiction.
    - rewrite app_nil_r. split; [intros H; split; [exact H|exact Hfirst]|intros [H _]; exact H]. }
  assert (Hkeep : forall i row, mappedData st !! i = Some row ->
             (match rowStatuses (revalidate rt st) !! rowId row with
              | Some invalid => false
              | _ => true
              end = true
              <-> validateRow rt row = [] /\ ~ repeatsEarlier (mappedData st) i row)).
  { intros i row Hi. rewrite (revalidate_keeps rt st i row Hnd Hi), <- (Hclean i row Hi).
    destruct (collected rt (mappedData st) i row); split; congruence. }
  subst sent. unfold ValidatePage.validRows.
  change (mappedData (revalidate rt st)) with (mappedData st).
  split.
  - intros row. rewrite list_elem_of_In, List.filter_In, <- list_elem_of_In. split.
    + intros [Hin Hk]. apply list_elem_of_lookup in Hin as (i & Hi).
      exists i. split; [exact Hi|]. apply (Hkeep i row Hi). exact Hk.
    + intros (i & Hi & Hok). split; [eapply list_elem_of_lookup_2; exact Hi|].
      apply (Hkeep i row Hi). exact Hok.
  - apply NoDup_fmap_filter. intros i j a b Hij Hi Hj Ha Hb Hsame.
    apply (Hkeep i a Hi) in Ha as (Hva & _). apply (Hkeep j b Hj) in Hb as (_ & Hfirst).
    destruct (validateRow_carries rt a Hva) as (c & Hc).
    apply Hfirst. exists i, a, c. repeat split; try assumption; try apply Hc.
    rewrite <- Hsame. apply Hc.
Qed.

Lemma rowId_insert (row : CaseRow) (field value : string) :
  field <> "_id" -> rowId (<[field := value]> row) = rowId row.
Proof. intros Hne. unfold rowId. rewrite lookup_insert_ne by exact Hne. reflexivity. Qed.

Lemma applyFix_rowIds (rowIds : list string) (field : string) (fixFn : string -> string)
    (st : ImportState) :
  field <> "_id" ->
  rowId <$> mappedData (applyFix rowIds field fixFn st) = rowId <$> mappedData st.
Proof.
  intros Hne. unfold applyFix. cbn [mappedData].
  change (map ?f ?l) with (f <$> l). rewrite <- list_fmap_compose.
  apply list_fmap_ext. intros i row _. cbn [compose].
  destruct (bool_decide _); [|reflexivity].
  destruct (row !! field); [apply rowId_insert; exact Hne|reflexivity].
Qed.

(** A quick fix whose function changes nothing when applied to its own
    result, applied to a field other than the row id: a second pass of
    [handleApplyFix] changes nothing, the rows keep their ids, and every row
    that has the field holds a value that the fix leaves as it is. *)
Theorem handleApplyFix_twice (fixFn : string -> string) (field : string) (st : ImportState) :
  field <> "_id" ->
  (forall v, fixFn (fixFn v) = fixFn v) ->
  handleApplyFix fixFn field (handleApplyFix fixFn field st) = handleApplyFix fixFn field st
  /\ rowId <$> mappedData (handleApplyFix fixFn field st) = rowId <$> mappedData st
  /\ forall row v, row ∈ mappedData (handleApplyFix fixFn field st) ->
                   row !! field = Some v -> fixFn v = v.
Proof.
  intros Hne Hidem. unfold handleApplyFix.
  pose proof (applyFix_rowIds (map rowId (mappedData st)) field fixFn st Hne) as Hids.
  split; [|split; [exact Hids|]].
  - change (map rowId ?l) with (rowId <$> l). rewrite Hids.
    unfold applyFix. cbn [mappedData validationErrors rowStatuses]. f_equal.
    rewrite map_map. apply map_ext_in. intros row Hrow%list_elem_of_In.
    assert (Hin : rowId row ∈ rowId <$> mappedData st)
      by (apply list_elem_of_fmap; exists row; split; [reflexivity|exact Hrow]).
    rewrite (bool_decide_eq_true_2 _ Hin).
    destruct (row !! field) as [v|] eqn:Hv.
    + rewrite rowId_insert by exact Hne. rewrite (bool_decide_eq_true_2 _ Hin).
      rewrite lookup_insert_eq, insert_insert_eq, Hidem. reflexivity.
    + rewrite (bool_decide_eq_true_2 _ Hin), Hv. reflexivity.
  - intros row v. unfold applyFix. cbn [mappedData].
    intros (r & -> & Hr)%list_elem_of_fmap.
    assert (Hin : rowId r ∈ map rowId (mappedData st))
      by (apply list_elem_of_fmap; exists r; split; [reflexivity|exact Hr]).
    rewrite (bool_decide_eq_true_2 _ Hin).
    destruct (r !! field) as [w|] eqn:Hw.
    + rewrite lookup_insert_eq. intros [= <-]. apply Hidem.
    + rewrite Hw. discriminate.
Qed.

Lemma updateCell_lookup (id field value : string) (st : ImportState) (i : nat) (row : CaseRow) :
  mappedData st !! i = Some row -> row !! "_id" = Some id ->
  mappedData (updateCell id field value st) !! i = Some (<[field := value]> row).
Proof.
  intros Hi Hid. unfold updateCell. cbn [mappedData].
  change (map ?f ?l) with (f <$> l). rewrite list_lookup_fmap, Hi. cbn.
  rewrite (bool_decide_eq_true_2 _ Hid). reflexivity.
Qed.

Lemma updateCell_rowIds (id field value : string) (st : ImportState) :
  field <> "_id" ->
  rowId <$> mappedData (updateCell id field value st) = rowId <$> mappedData st.
Proof.
  intros Hne. unfold updateCell. cbn [mappedData].
  change (map ?f ?l) with (f <$> l). rewrite <- list_fmap_compose.
  apply list_fmap_ext. intros i row _. cbn [compose].
  destruct (bool_decide _); [apply rowId_insert; exact Hne|reflexivity].
Qed.

Lemma rowId_of_id (row : CaseRow) (id : string) : row !! "_id" = Some id -> rowId row = id.
Proof. unfold rowId. intros ->. destruct id; reflexivity. Qed.

Lemma elem_of_duplicatePart (seen : gset string) (row : CaseRow) (e : ValidationError) :
  e ∈ duplicatePart seen row -> field e = "case_id".
Proof.
  unfold duplicatePart. destruct (row !! "case_id") as [[|c s]|]; try (intros H; inversion H; fail).
  destruct (bool_decide _); [|intros H; inversion H].
  intros ->%list_elem_of_singleton. reflexivity.
Qed.

(** Taking a suggestion in the grid: when the row ids are pairwise
    distinct and the cell of an error is set to the suggestion of the error
    with [updateCell], the row holds the suggestion, and after the
    revalidation pass the errors stored for the row hold none on that
    field. *)
Theorem updateCell_accepts_suggestion (rt : Js.Runtime) (st : ImportState) (i : nat)
    (row : CaseRow) (id : string) (e : ValidationError) (s : string) :
  NoDup (rowId <$> mappedData st) ->
  mappedData st !! i = Some row -> row !! "_id" = Some id ->
  e ∈ validateRow rt row -> suggestion e = Some s ->
  let st' := revalidate rt (updateCell id (field e) s st) in
  mappedData st' !! i = Some (<[field e := s]> row)
  /\ forall errors e',
       validationErrors st' !! id = Some errors -> e' ∈ errors -> field e' <> field e.
Proof.
  intros Hnd Hi Hid He Hs st'.
  pose proof (suggestion_field rt row e s He Hs) as Hfield.
  assert (Hne : field e <> "_id").
  { intros Heq. rewrite Heq in Hfield.
    repeat (apply elem_of_cons in Hfield as [Hfield|Hfield]; [discriminate Hfield|]).
    inversion Hfield. }
  assert (Hne' : field e <> "case_id").
  { intros Heq. rewrite Heq in Hfield.
    repeat (apply elem_of_cons in Hfield as [Hfield|Hfield]; [discriminate Hfield|]).
    inversion Hfield. }
  pose proof (updateCell_lookup id (field e) s st i row Hi Hid) as Hi'.
  split; [exact Hi'|]. intros errors e'. subst st'. unfold revalidate, setValidationErrors.
  cbn [validationErrors].
  assert (Hnd' : NoDup (rowId <$> mappedData (updateCell id (field e) s st)))
    by (rewrite updateCell_rowIds by exact Hne; exact Hnd).
  pose proof (validateAllRows_entry rt _ i _ Hnd' Hi') as Hentry.
  rewrite (rowId_insert row (field e) s Hne), (rowId_of_id row id Hid), collected_errors
    in Hentry.
  rewrite Hentry.
  destruct (validateRow rt (<[field e:=s]> row) ++ _) as [|x l] eqn:Hall; [discriminate|].
  intros [= <-]. rewrite <- Hall. intros [Hin|Hin]%elem_of_app.
  - exact (suggestion_fixes rt row e s He Hs e' Hin).
  - rewrite (elem_of_duplicatePart _ _ _ Hin). congruence.
Qed.

Lemma validRows_clean_witness :
  NoDup ((fun row => row !! "case_id")
           <$> validRows (revalidate Examples.runtime Examples.twinsLoaded)).
Proof.
  refine (proj2 (validRows_clean Examples.runtime Examples.twinsLoaded _)).
  apply (bool_decide_unpack (NoDup _)). vm_compute. exact I.
Defined.

Lemma handleApplyFix_twice_witness :
  handleApplyFix trimWhitespace "applicant_name"
    (handleApplyFix trimWhitespace "applicant_name" Examples.drafted)
  = handleApplyFix trimWhitespace "applicant_name" Examples.drafted.
Proof.
  refine (proj1 (handleApplyFix_twice trimWhitespace "applicant_name" Examples.drafted _ _)).
  - discriminate.
  - exact trimWhitespace_idem.
Defined.

Lemma updateCell_accepts_suggestion_witness :
  mappedData (revalidate Examples.runtime
                (updateCell "row-0" "priority" "LOW" Examples.drafted)) !! 0%nat
  = Some (<["priority" := "LOW"]> Examples.draft)
  /\ forall errors e',
       validationErrors (revalidate Examples.runtime
                           (updateCell "row-0" "priority" "LOW" Examples.drafted))
         !! "row-0" = Some errors ->
       e' ∈ errors -> field e' <> "priority".
Proof.
  refine (updateCell_accepts_suggestion Examples.runtime Examples.drafted 0 Examples.draft
            "row-0" Examples.priorityError "LOW" _ eq_refl _ _ eq_refl).
  - apply NoDup_singleton.
  - vm_compute. reflexivity.
  - replace (validateRow Examples.runtime Examples.draft) with [Examples.priorityError]
      by (vm_compute; reflexivity).
    left.
Defined.

End GridFacts.

(** ** From the page to the store: the marks of a batch *)

Section SubmitFacts.

Import Validation ImportService Vocabulary Submit.
Local Open Scope Z_scope.

Lemma refusals_insert (cases : gmap string CaseData) (at_ : Z) (todo : list CaseData)
    (k : string) (d : CaseData) :
  k ∉ d_caseId <$> todo ->
  refusals (<[k := d]> cases) at_ todo = refusals cases at_ todo.
Proof.
  revert at_. induction todo as [|x rest IH]; intros at_ Hk; [reflexivity|].
  rewrite fmap_cons in Hk. apply not_elem_of_cons in Hk as (Hx & Hrest).
  cbn [refusals]. rewrite lookup_insert_ne by congruence. rewrite IH by exact Hrest. reflexivity.
Qed.

Lemma createAll_refusals (job : ImportJob) (userId : string) (start k : Z)
    (todo : list CaseData) (db : Prisma) (result : BatchResult) :
  NoDup (d_caseId <$> todo) ->
  errors (snd (createAll job userId start k todo db result))
  = errors result ++ refusals (case db) (start + k) todo.
Proof.
  revert k db result. induction todo as [|d rest IH]; intros k db result Hnd; cbn [createAll].
  - cbn. rewrite app_nil_r. reflexivity.
  - rewrite fmap_cons in Hnd. apply NoDup_cons in Hnd as (Hd & Hnd).
    unfold case_create. cbn [refusals]. destruct (case db !! d_caseId d) as [old|] eqn:Hold.
    + rewrite IH by exact Hnd. cbn [fail errors]. rewrite <- app_assoc.
      replace (start + (k + 1)) with (start + k + 1) by lia. reflexivity.
    + rewrite IH by exact Hnd. cbn [succeed errors auditLog_create case].
      rewrite refusals_insert by exact Hd.
      replace (start + (k + 1)) with (start + k + 1) by lia. reflexivity.
Qed.

Lemma elem_of_refusals (cases : gmap string CaseData) (at_ : Z) (todo : list CaseData)
    (e : RowError) :
  e ∈ refusals cases at_ todo
  <-> exists (n : nat) (d : CaseData),
        todo !! n = Some d /\ is_Some (cases !! d_caseId d)
        /\ e = {| index := at_ + Z.of_nat n; caseId := d_caseId d;
                  error := "Duplicate case ID" |}.
Proof.
  revert at_. induction todo as [|x rest IH]; intros at_; cbn [refusals].
  - split; [intros H; inversion H|intros (n & d & H & _); discriminate H].
  - rewrite elem_of_app, IH. split.
    + intros [Hhead|(n & d & Hn & Hd & ->)].
      * destruct (cases !! d_caseId x) as [old|] eqn:Hold; [|inversion Hhead].
        apply list_elem_of_singleton in Hhead as ->.
        exists 0%nat, x. rewrite Hold. repeat split; [eauto|]. f_equal. lia.
      * exists (S n), d. repeat split; [exact Hn|exact Hd|]. f_equal. lia.
    + intros ([|n] & d & Hn & Hd & ->); cbn in Hn.
      * injection Hn as ->. left. destruct Hd as (old & ->). apply list_elem_of_singleton.
        f_equal. lia.
      * right. exists n, d. repeat split; [exact Hn|exact Hd|]. f_equal. lia.
Qed.

(** Whether the response holds an error for the row at position [n]. *)
Lemma find_refusal (cases : gmap string CaseData) (at_ : Z) (todo : list CaseData)
    (n : nat) (d : CaseData) :
  todo !! n = Some d ->
  match List.find (fun e => index e =? at_ + Z.of_nat n) (refusals cases at_ todo) with
  | Some _ => ImportStore.failed
  | None => ImportStore.success
  end
  = match cases !! d_caseId d with Some _ => ImportStore.failed | None => ImportStore.success end.
Proof.
  intros Hn.
  destruct (List.find _ _) as [e|] eqn:Hfind.
  - apply List.find_some in Hfind as (Hin & Hidx).
    apply list_elem_of_In, elem_of_refusals in Hin as (n' & d' & Hn' & Hd' & ->).
    cbn [index] in Hidx. apply Z.eqb_eq in Hidx.
    assert (n' = n) as -> by lia. rewrite Hn in Hn'. injection Hn' as <-.
    destruct Hd' as (old & ->). reflexivity.
  - destruct (cases !! d_caseId d) as [old|] eqn:Hold; [|reflexivity].
    exfalso.
    pose proof (List.find_none _ _ Hfind
                  {| index := at_ + Z.of_nat n; caseId := d_caseId d;
                     error := "Duplicate case ID" |}) as Hnone.
    cbn [index] in Hnone. rewrite Z.eqb_refl in Hnone.
    assert (Hin : {| index := at_ + Z.of_nat n; caseId := d_caseId d;
                     error := "Duplicate case ID" |} ∈ refusals cases at_ todo).
    { apply elem_of_refusals. exists n, d. rewrite Hold. repeat split; [exact Hn|eauto]. }
    apply list_elem_of_In in Hin. specialize (Hnone Hin). discriminate Hnone.
Qed.

Lemma markRows_other (errors : list RowError) (start i : Z) (rows : list CaseRow)
    (statuses : gmap string ImportStore.RowStatus) (k : string) :
  k ∉ rowId <$> rows -> markRows errors start i rows statuses !! k = statuses !! k.
Proof.
  revert i statuses. induction rows as [|row rest IH]; intros i statuses Hk; [reflexivity|].
  rewrite fmap_cons in Hk. apply not_elem_of_cons in Hk as (Hrow & Hrest).
  cbn [markRows]. rewrite IH by exact Hrest. apply lookup_insert_ne. congruence.
Qed.

Lemma markRows_lookup (errors : list RowError) (start i : Z) (rows : list CaseRow)
    (statuses : gmap string ImportStore.RowStatus) (n : nat) (row : CaseRow) :
  NoDup (rowId <$> rows) -> rows !! n = Some row ->
  markRows errors start i rows statuses !! rowId row
  = Some match List.find (fun e => index e =? start + (i + Z.of_nat n)) errors with
         | Some _ => ImportStore.failed
         | None => ImportStore.success
         end.
Proof.
  revert i statuses n. induction rows as [|x rest IH]; intros i statuses n Hnd Hn;
    [discriminate Hn|].
  rewrite fmap_cons in Hnd. apply NoDup_cons in Hnd as (Hx & Hnd). cbn [markRows].
  destruct n as [|n]; cbn in Hn.
  - injection Hn as ->. rewrite markRows_other by exact Hx. rewrite lookup_insert_eq.
    replace (start + (i + Z.of_nat 0)) with (start + i) by lia. reflexivity.
  - rewrite (IH (i + 1) _ n Hnd Hn).
    replace (start + (i + 1 + Z.of_nat n)) with (start + (i + Z.of_nat (S n))) by lia.
    reflexivity.
Qed.

(** The rows that the page accepts all pass the checks of the service. *)
Lemma passed_valid (page rt : Js.Runtime) (jobId userId : string) (rows : list CaseRow) :
  (forall row, row ∈ rows -> validateRow page row = [] /\ readsDob rt row) ->
  d_caseId <$> passed rt jobId userId (map rowDto rows) = r_caseId ∘ rowDto <$> rows
  /\ Some <$> (r_caseId ∘ rowDto <$> rows) = (fun row => row !! "case_id") <$> rows.
Proof.
  induction rows as [|row rest IH]; intros Hall; [split; reflexivity|].
  destruct IH as (IH1 & IH2); [intros r Hr; apply Hall; right; exact Hr|].
  destruct (Hall row ltac:(left)) as (Hvalid & Hdate).
  destruct (rowDto_valid page row Hvalid) as ((E1 & N1) & (_ & N2) & (_ & N3) & (_ & H4) & _).
  pose proof (prepare_ok rt jobId userId _ N1 N2 N3 Hdate H4) as Hprep.
  unfold passed. cbn [map omap list_omap]. rewrite Hprep.
  fold (passed rt jobId userId (map rowDto rest)).
  rewrite !fmap_cons, IH1, IH2. cbn [compose d_caseId]. rewrite E1. split; reflexivity.
Qed.

(** A batch of rows that the page accepts, with pairwise distinct row ids
    and case identifiers, as [handleSubmit] sends them, and with dates of
    birth that the runtime of the service reads as dates: when the service
    takes the batch, [submitBatch] marks a row [failed] exactly when the
    store held a case with its identifier before, and [success] otherwise;
    afterwards the store holds a case for every row of the batch; the
    statuses of other rows stay as they are; and the two counters grow by
    the counts of the response, which add up to the number of rows. *)
Theorem submitBatch_marks (page rt : Js.Runtime) (userId : string) (rows : list CaseRow)
    (startIndex : Z) (db db' : Prisma) (st st' : SubmitState) (counts : Z * Z) :
  submitBatch rt userId rows startIndex db st = (db', st', inr counts) ->
  (forall row, row ∈ rows -> validateRow page row = [] /\ readsDob rt row) ->
  NoDup (rowId <$> rows) ->
  NoDup ((fun row => row !! "case_id") <$> rows) ->
  (forall row, row ∈ rows ->
      rowStatuses st' !! rowId row
      = Some (match case db !! r_caseId (rowDto row) with
              | Some _ => ImportStore.failed
              | None => ImportStore.success
              end)
      /\ is_Some (case db' !! r_caseId (rowDto row)))
  /\ (forall k, k ∉ rowId <$> rows -> rowStatuses st' !! k = rowStatuses st !! k)
  /\ successCount st' = successCount st + fst counts
  /\ failedCount st' = failedCount st + snd counts
  /\ fst counts + snd counts = Z.of_nat (length rows).
Proof.
  unfold submitBatch. destruct (jobId st) as [[|c s]|] eqn:Hjob; try discriminate.
  cbn zeta.
  destruct (processBatch rt db (String c s) _ userId) as [db1 [e|data]] eqn:Hrun;
    [discriminate|].
  intros [= <- <- <-] Hvalid Hids Hcases.
  cbn [rowStatuses successCount failedCount fst snd].
  apply processBatch_unfold in Hrun
    as (job & db0 & r0 & _ & _ & _ & Hcase0 & _ & Hr0 & Hfail0 & Herr0 & Hout & _).
  cbn zeta in Hout. cbn [ImportService.rows ImportService.startIndex] in *.
  destruct Hout as (Hdata & Hcase1 & _).
  destruct (passed_valid page rt (String c s) userId rows Hvalid) as (Hpassed & Hsome).
  set (todo := passed rt (String c s) userId (map rowDto rows)) in *.
  assert (Hlen : length todo = length rows).
  { rewrite <- (length_fmap d_caseId todo), Hpassed, length_fmap. reflexivity. }
  assert (Hnd : NoDup (d_caseId <$> todo)).
  { rewrite Hpassed. apply (NoDup_fmap_1 Some). rewrite Hsome. exact Hcases. }
  rewrite length_map in Hfail0.
  assert (Hnone : errors r0 = []).
  { destruct (errors r0); [reflexivity|]. cbn [length] in Herr0. lia. }
  pose proof (createAll_refusals job userId startIndex 0 todo db0 r0 Hnd) as Herrors.
  rewrite <- Hdata, Hnone, Hcase0 in Herrors. cbn [app] in Herrors.
  pose proof (createAll_account job userId startIndex 0 todo db0 r0) as Hacc.
  cbn zeta in Hacc. rewrite <- Hdata in Hacc. destruct Hacc as (Hsum & _).
  destruct (createAll_tables job userId startIndex 0 todo db0 r0) as (_ & _ & _ & Hstored).
  rewrite <- Hcase1 in Hstored.
  split; [|split; [|split; [|split]]]; try reflexivity.
  - intros row (n & Hn)%list_elem_of_lookup.
    assert (Hd : exists d, todo !! n = Some d /\ d_caseId d = r_caseId (rowDto row)).
    { assert (Hk : (d_caseId <$> todo) !! n = Some (r_caseId (rowDto row)))
        by (rewrite Hpassed, list_lookup_fmap, Hn; reflexivity).
      rewrite list_lookup_fmap in Hk. destruct (todo !! n) as [d|]; [|discriminate Hk].
      injection Hk as Hk. exists d. split; [reflexivity|exact Hk]. }
    destruct Hd as (d & Hd & Hid). split.
    + rewrite (markRows_lookup _ _ _ _ _ n row Hids Hn), Herrors.
      replace (startIndex + (0 + Z.of_nat n)) with (startIndex + 0 + Z.of_nat n) by lia.
      rewrite (find_refusal _ _ _ n d Hd), Hid. reflexivity.
    + rewrite <- Hid. apply Hstored. eapply list_elem_of_lookup_2. exact Hd.
  - intros k Hk. apply markRows_other. exact Hk.
  - lia.
Qed.

Lemma submitBatch_marks_witness :
  let run := submitBatch Examples.runtime "user-1" [Examples.imported] 0
               (Examples.store (Examples.job PROCESSING 250 0)) Examples.session in
  rowStatuses (snd (fst run)) !! "row-0" = Some ImportStore.success.
Proof.
  intros run.
  destruct (submitBatch_marks Examples.runtime Examples.runtime "user-1" [Examples.imported] 0
              (Examples.store (Examples.job PROCESSING 250 0))
              (fst (fst run)) Examples.session (snd (fst run)) (1, 0)) as (Hmarks & _).
  - vm_compute. reflexivity.
  - intros row ->%list_elem_of_singleton. split; [vm_compute; reflexivity|vm_compute; eauto].
  - apply NoDup_singleton.
  - apply NoDup_singleton.
  - exact (proj1 (Hmarks Examples.imported ltac:(left))).
Defined.

End SubmitFacts.

(** ** The dashboard: the most frequent errors *)

Section TopErrorsFacts.

Import Validation ValidatePage Vocabulary.

Lemma foldl_concat {A B : Type} (f : A -> B -> A) (a : A) (ls : list (list B)) :
  foldl (fun acc l => foldl f acc l) a ls = foldl f a (concat ls).
Proof.
  revert a. induction ls as [|l ls IH]; intros a; [reflexivity|].
  cbn [foldl concat]. rewrite foldl_app. apply IH.
Qed.

Lemma countOf_increment (fieldCounts : list (string * nat)) (f g : string) :
  countOf (increment fieldCounts f) g
  = if String.eqb f g then S (countOf fieldCounts g) else countOf fieldCounts g.
Proof.
  induction fieldCounts as [|[h n] rest IH]; cbn [increment countOf].
  - destruct (String.eqb f g); reflexivity.
  - destruct (String.eqb_spec h f) as [->|Hne]; cbn [countOf].
    + destruct (String.eqb f g); reflexivity.
    + rewrite IH. destruct (String.eqb_spec h g) as [->|Hg]; [|reflexivity].
      rewrite (proj2 (String.eqb_neq f g)) by congruence. reflexivity.
Qed.

Lemma keys_increment (fieldCounts : list (string * nat)) (f : string) :
  fst <$> increment fieldCounts f
  = if decide (f ∈ fst <$> fieldCounts) then fst <$> fieldCounts
    else (fst <$> fieldCounts) ++ [f].
Proof.
  induction fieldCounts as [|[h n] rest IH]; cbn [increment].
  - rewrite decide_False by apply not_elem_of_nil. reflexivity.
  - rewrite !fmap_cons. cbn [fst]. destruct (String.eqb_spec h f) as [->|Hne].
    + rewrite decide_True by left. reflexivity.
    + rewrite fmap_cons, IH. cbn [fst].
      destruct (decide (f ∈ fst <$> rest)) as [Hin|Hout].
      * rewrite decide_True by (right; exact Hin). reflexivity.
      * rewrite decide_False; [reflexivity|].
        intros [?|?]%elem_of_cons; [congruence|contradiction].
Qed.

Lemma increment_NoDup (fieldCounts : list (string * nat)) (f : string) :
  NoDup (fst <$> fieldCounts) -> NoDup (fst <$> increment fieldCounts f).
Proof.
  intros Hnd. rewrite keys_increment. destruct (decide _) as [Hin|Hout]; [exact Hnd|].
  apply NoDup_app. split; [exact Hnd|]. split; [|apply NoDup_singleton].
  intros x Hx ->%list_elem_of_singleton. contradiction.
Qed.

Lemma increment_positive (fieldCounts : list (string * nat)) (f : string) :
  Forall (fun x => 1 <= snd x) fieldCounts ->
  Forall (fun x => 1 <= snd x) (increment fieldCounts f).
Proof.
  induction 1 as [|[h n] rest Hx Hrest IH]; cbn [increment].
  - repeat constructor.
  - destruct (String.eqb h f); constructor; cbn in *; try assumption; lia.
Qed.

Lemma elem_countOf (fieldCounts : list (string * nat)) (g : string) (n : nat) :
  NoDup (fst <$> fieldCounts) -> (g, n) ∈ fieldCounts -> countOf fieldCounts g = n.
Proof.
  induction fieldCounts as [|[h m] rest IH]; intros Hnd Hin; [inversion Hin|].
  rewrite fmap_cons in Hnd. apply NoDup_cons in Hnd as (Hh & Hnd). cbn [fst] in Hh.
  cbn [countOf]. apply elem_of_cons in Hin as [[= -> ->]|Hin].
  - rewrite String.eqb_refl. reflexivity.
  - destruct (String.eqb_spec h g) as [->|Hne]; [|exact (IH Hnd Hin)].
    exfalso. apply Hh. apply list_elem_of_fmap. exists (g, n). split; [reflexivity|exact Hin].
Qed.

Lemma key_countOf (fieldCounts : list (string * nat)) (g : string) :
  g ∈ fst <$> fieldCounts -> (g, countOf fieldCounts g) ∈ fieldCounts.
Proof.
  induction fieldCounts as [|[h m] rest IH]; intros Hin; [inversion Hin|].
  rewrite fmap_cons in Hin. cbn [fst countOf] in *.
  destruct (String.eqb_spec h g) as [->|Hne]; [left|].
  right. apply IH. apply elem_of_cons in Hin as [?|?]; [congruence|assumption].
Qed.

Lemma counted (es : list ValidationError) (fieldCounts : list (string * nat)) :
  NoDup (fst <$> fieldCounts) ->
  Forall (fun x => 1 <= snd x) fieldCounts ->
  let counts := foldl (fun fc e => increment fc (field e)) fieldCounts es in
  NoDup (fst <$> counts)
  /\ Forall (fun x => 1 <= snd x) counts
  /\ forall g,
       countOf counts g
       = countOf fieldCounts g
         + length (List.filter (fun e => String.eqb (field e) g) es)
       /\ (1 <= length (List.filter (fun e => String.eqb (field e) g) es) ->
           g ∈ fst <$> counts).
Proof.
  revert fieldCounts. induction es as [|e es IH]; intros fc Hnd Hpos; cbn [foldl].
  - split; [exact Hnd|]. split; [exact Hpos|]. intros g. cbn. split; lia.
  - destruct (IH (increment fc (field e)) (increment_NoDup _ _ Hnd) (increment_positive _ _ Hpos))
      as (Hnd' & Hpos' & Hcount).
    split; [exact Hnd'|]. split; [exact Hpos'|]. intros g.
    destruct (Hcount g) as (Hg & Hkey). rewrite countOf_increment in Hg.
    cbn [List.filter]. destruct (String.eqb_spec (field e) g) as [Heq|Hne]; cbn [length].
    + split; [lia|]. intros _.
      destruct (decide (g ∈ fst <$> foldl (fun fc e => increment fc (field e))
                                     (increment fc (field e)) es)) as [Hin|Hout];
        [exact Hin|].
      exfalso.
      assert (Hpositive : 1 <= countOf (foldl (fun fc e => increment fc (field e))
                                          (increment fc (field e)) es) g) by lia.
      clear -Hout Hpositive.
      induction (foldl _ _ es) as [|[h m] rest IHr]; cbn [countOf] in Hpositive; [lia|].
      rewrite fmap_cons in Hout. cbn [fst] in Hout.
      destruct (String.eqb_spec h g) as [->|Hne]; [apply Hout; left|].
      apply IHr; [|exact Hpositive]. intros Hin. apply Hout. right. exact Hin.
    + split; [lia|exact Hkey].
Qed.

Lemma insertByCount_Permutation (x : string * nat) (l : list (string * nat)) :
  Permutation (insertByCount x l) (x :: l).
Proof.
  induction l as [|y l IH]; cbn [insertByCount]; [reflexivity|].
  destruct (Nat.ltb (snd x) (snd y)); [|reflexivity].
  rewrite IH. apply perm_swap.
Qed.

Lemma sortByCount_Permutation (l : list (string * nat)) : Permutation (sortByCount l) l.
Proof.
  induction l as [|x l IH]; [reflexivity|].
  cbn [sortByCount foldr]. rewrite insertByCount_Permutation. constructor. exact IH.
Qed.

Lemma insertByCount_descending (x : string * nat) (l : list (string * nat)) :
  descending l -> descending (insertByCount x l).
Proof.
  induction l as [|y l IH]; intros Hl; cbn [insertByCount].
  - split; constructor.
  - destruct Hl as (Hy & Hl). destruct (Nat.ltb_spec (snd x) (snd y)) as [Hlt|Hge].
    + split; [|exact (IH Hl)]. rewrite insertByCount_Permutation.
      constructor; [lia|exact Hy].
    + split; [|split; assumption]. constructor; [exact Hge|].
      eapply List.Forall_impl; [|exact Hy]. cbn. intros z Hz. lia.
Qed.

Lemma sortByCount_descending (l : list (string * nat)) : descending (sortByCount l).
Proof.
  induction l as [|x l IH]; [exact I|]. cbn [sortByCount foldr].
  apply insertByCount_descending. exact IH.
Qed.

Lemma descending_app (l1 l2 : list (string * nat)) :
  descending (l1 ++ l2) ->
  descending l1 /\ forall x y, x ∈ l1 -> y ∈ l2 -> snd y <= snd x.
Proof.
  induction l1 as [|a l1 IH]; cbn [app descending].
  - intros _. split; [exact I|]. intros x y Hx. inversion Hx.
  - intros (Ha & Hrest). apply Forall_app in Ha as (Ha1 & Ha2).
    destruct (IH Hrest) as (Hd & Hcross). split; [split; assumption|].
    intros x y [->|Hx]%elem_of_cons Hy.
    + rewrite Forall_forall in Ha2. exact (Ha2 y Hy).
    + exact (Hcross x y Hx Hy).
Qed.

(** The summary of the dashboard: [getTopErrors] lists at most five
    fields, no field twice, in descending order of their counts; the count
    of a listed field is the number of errors on that field in all the
    rows, and is at least one; and a field with errors that is not listed
    has no more errors than any listed field, five of which are listed
    then. *)
Theorem getTopErrors_top (errors : list (list ValidationError)) :
  let top := getTopErrors errors in
  length top <= 5
  /\ NoDup (fst <$> top)
  /\ descending top
  /\ (forall f n, (f, n) ∈ top -> n = errorsOn f errors /\ 1 <= n)
  /\ (forall g, 1 <= errorsOn g errors -> g ∉ fst <$> top ->
                length top = 5
                /\ forall f n, (f, n) ∈ top -> errorsOn g errors <= n).
Proof.
  unfold getTopErrors. cbn zeta. rewrite foldl_concat.
  destruct (counted (concat errors) [] ltac:(constructor) ltac:(constructor))
    as (Hnd & Hpos & Hcount).
  set (counts := foldl _ [] (concat errors)) in *.
  pose proof (sortByCount_Permutation counts) as Hperm.
  pose proof (sortByCount_descending counts) as Hdesc.
  set (sorted := sortByCount counts) in *.
  rewrite <- (take_drop 5 sorted) in Hdesc. apply descending_app in Hdesc as (Htop & Hcross).
  assert (Hentry : forall f n, (f, n) ∈ sorted -> n = errorsOn f errors /\ 1 <= n).
  { intros f n Hin. rewrite Hperm in Hin. split.
    - rewrite <- (elem_countOf counts f n Hnd Hin). apply (Hcount f).
    - rewrite Forall_forall in Hpos. exact (Hpos _ Hin). }
  assert (Hsub : forall x, x ∈ take 5 sorted -> x ∈ sorted).
  { intros x (i & Hi & _)%elem_of_take. eapply list_elem_of_lookup_2. exact Hi. }
  split; [apply firstn_le_length|]. split; [|split; [exact Htop|split]].
  - rewrite fmap_take. eapply sublist_NoDup; [|apply sublist_take].
    rewrite Hperm. exact Hnd.
  - intros f n Hin. apply Hentry, Hsub. exact Hin.
  - intros g Hg Hout.
    assert (Hin : (g, errorsOn g errors) ∈ sorted).
    { rewrite Hperm. destruct (Hcount g) as (Hn & Hkey). cbn [countOf Nat.add] in Hn.
      unfold errorsOn. rewrite <- Hn. apply key_countOf. apply Hkey. exact Hg. }
    rewrite <- (take_drop 5 sorted) in Hin. apply elem_of_app in Hin as [Hin|Hin].
    { exfalso. apply Hout. apply list_elem_of_fmap. exists (g, errorsOn g errors).
      split; [reflexivity|exact Hin]. }
    split.
    + rewrite length_take. destruct (decide (5 <= length sorted)) as [|Hshort]; [lia|].
      rewrite drop_ge in Hin by lia. inversion Hin.
    + intros f n Hf. exact (Hcross (f, n) (g, errorsOn g errors) Hf Hin).
Qed.

End TopErrorsFacts.
